(** * Verification of [rocprofiler::Tracker] (src/core/tracker.h)

    The tracker substitutes a proxy signal for the completion signal of a
    dispatch, lets the HSA runtime call [Tracker::Handler] when the proxy
    signal drops below 1, records timestamps, forwards the completion to the
    original signal, calls the user's handler and frees its bookkeeping.

    The class is embedded as state-passing code over one record [state]:
    the [Tracker] object, the heap of [entry_t] and [record_t] objects, the
    memory of the HSA runtime, and the chronological list of the operations
    the code has performed.  A computation ends in a value, in a raised
    exception (EXC_RAISING), in undefined behaviour, or never returns. *)

From Stdlib Require Import ZArith List String Bool Lia.
From stdpp Require Import base option list gmap.

Local Open Scope Z_scope.

(** ** HSA types used by the tracker *)

Definition hsa_status_t := Z.
Definition HSA_STATUS_SUCCESS : hsa_status_t := 0.
Definition HSA_STATUS_ERROR : hsa_status_t := 4096.

(** [hsa_signal_value_t] is a signed 64-bit integer. *)
Definition hsa_signal_value_t := Z.
Definition min_signal_value : Z := - 2 ^ 63.
Definition max_signal_value : Z := 2 ^ 63 - 1.
Definition wrap64 (z : Z) : hsa_signal_value_t := (z + 2 ^ 63) mod 2 ^ 64 - 2 ^ 63.

Inductive hsa_signal_condition_t :=
| HSA_SIGNAL_CONDITION_EQ
| HSA_SIGNAL_CONDITION_NE
| HSA_SIGNAL_CONDITION_LT
| HSA_SIGNAL_CONDITION_GTE.

Definition condition_holds (c : hsa_signal_condition_t) (v cmp : Z) : bool :=
  match c with
  | HSA_SIGNAL_CONDITION_EQ => v =? cmp
  | HSA_SIGNAL_CONDITION_NE => negb (v =? cmp)
  | HSA_SIGNAL_CONDITION_LT => v <? cmp
  | HSA_SIGNAL_CONDITION_GTE => cmp <=? v
  end.

(** A signal and an agent are opaque 64-bit handles; handle 0 is the null
    signal.  The field of [hsa_agent_t] is called [handle] in C as well. *)
Record hsa_signal_t := { handle : Z }.
Record hsa_agent_t := { agent_handle : Z }.

(** The part of [amd_signal_t] (amd_hsa_signal.h) the tracker touches: the
    handle of a signal is the address of this structure. *)
Record amd_signal_t := {
  value : hsa_signal_value_t;
  start_ts : Z;
  end_ts : Z
}.

Record hsa_amd_profiling_dispatch_time_t := { dt_start : Z; dt_end : Z }.

(** [rocprofiler_dispatch_record_t]: the four timestamps of a dispatch
    (the C field [end] is a keyword here). *)
Record record_t := {
  dispatch : Z;
  begin : Z;
  end_ : Z;
  complete : Z
}.

(** Modelled from the spec: [rocprofiler_group_t] is declared in
    inc/rocprofiler.h, which is not part of the sources at hand; the simple
    handler receives "an empty/default context value", the value-initialised
    structure. *)
Record rocprofiler_group_t := {
  index : Z;
  features : Z;
  feature_count : Z;
  context : Z
}.

Definition group_default : rocprofiler_group_t :=
  {| index := 0; features := 0; feature_count := 0; context := 0 |}.

(** ** The tracker's own types *)

Definition NULL : Z := 0.

(** A [std::list<entry_t*>] is a sequence of nodes; a node has an identity
    (its address) and holds an entry pointer.  An iterator is the address
    of a node, [list_end] being the past-the-end position; erasing a node
    leaves the iterators to all other nodes valid. *)
Definition sig_list_it_t := Z.
Definition list_end : sig_list_it_t := 0.
Definition sig_list_t := list (sig_list_it_t * Z).

Record entry_t := {
  tracker : Z;
  it : sig_list_it_t;
  agent : hsa_agent_t;
  orig : hsa_signal_t;
  signal : hsa_signal_t;
  record : Z;
  handler : Z;
  arg : Z;
  context_active : bool
}.

(** [new entry_t{}]: every member value-initialised. *)
Definition entry_zero : entry_t :=
  {| tracker := NULL; it := list_end; agent := {| agent_handle := 0 |};
     orig := {| handle := 0 |}; signal := {| handle := 0 |}; record := NULL;
     handler := NULL; arg := NULL; context_active := false |}.

Definition record_zero : record_t :=
  {| dispatch := 0; begin := 0; end_ := 0; complete := 0 |}.

Inductive entry_field :=
| f_tracker | f_it | f_agent | f_orig | f_signal | f_record
| f_handler | f_arg | f_context_active.

Definition set_tracker (v : Z) (x : entry_t) : entry_t :=
  {| tracker := v; it := it x; agent := agent x; orig := orig x;
     signal := signal x; record := record x; handler := handler x;
     arg := arg x; context_active := context_active x |}.
Definition set_it (v : sig_list_it_t) (x : entry_t) : entry_t :=
  {| tracker := tracker x; it := v; agent := agent x; orig := orig x;
     signal := signal x; record := record x; handler := handler x;
     arg := arg x; context_active := context_active x |}.
Definition set_agent (v : hsa_agent_t) (x : entry_t) : entry_t :=
  {| tracker := tracker x; it := it x; agent := v; orig := orig x;
     signal := signal x; record := record x; handler := handler x;
     arg := arg x; context_active := context_active x |}.
Definition set_orig (v : hsa_signal_t) (x : entry_t) : entry_t :=
  {| tracker := tracker x; it := it x; agent := agent x; orig := v;
     signal := signal x; record := record x; handler := handler x;
     arg := arg x; context_active := context_active x |}.
Definition set_signal (v : hsa_signal_t) (x : entry_t) : entry_t :=
  {| tracker := tracker x; it := it x; agent := agent x; orig := orig x;
     signal := v; record := record x; handler := handler x;
     arg := arg x; context_active := context_active x |}.
Definition set_record (v : Z) (x : entry_t) : entry_t :=
  {| tracker := tracker x; it := it x; agent := agent x; orig := orig x;
     signal := signal x; record := v; handler := handler x;
     arg := arg x; context_active := context_active x |}.
Definition set_handler (v : Z) (x : entry_t) : entry_t :=
  {| tracker := tracker x; it := it x; agent := agent x; orig := orig x;
     signal := signal x; record := record x; handler := v;
     arg := arg x; context_active := context_active x |}.
Definition set_arg (v : Z) (x : entry_t) : entry_t :=
  {| tracker := tracker x; it := it x; agent := agent x; orig := orig x;
     signal := signal x; record := record x; handler := handler x;
     arg := v; context_active := context_active x |}.
Definition set_context_active (v : bool) (x : entry_t) : entry_t :=
  {| tracker := tracker x; it := it x; agent := agent x; orig := orig x;
     signal := signal x; record := record x; handler := handler x;
     arg := arg x; context_active := v |}.

(** ** The memory of the HSA runtime *)

(** One registration made by [hsa_amd_signal_async_handler]; the callback
    is always [Tracker::Handler]. *)
Record async_reg := {
  reg_signal : Z;
  reg_cond : hsa_signal_condition_t;
  reg_value : hsa_signal_value_t;
  reg_arg : Z
}.

Record hsa_t := {
  signals : gmap Z amd_signal_t;
  async_handlers : list async_reg;
  host_clock : Z
}.

(** The runtime is a black box for the tracker.  What the tracker cannot
    determine is a parameter: whether a call succeeds, the timestamps the
    runtime reports for a dispatch, and the clock conversion of
    [util::HsaRsrcFactory] (util/hsa_rsrc_factory.h is not part of the
    sources at hand). *)
Class HsaRuntime := {
  signal_create_status : hsa_t -> hsa_status_t;
  async_handler_status : hsa_t -> hsa_signal_t -> hsa_status_t;
  profiling_get_dispatch_time :
    hsa_t -> hsa_agent_t -> hsa_signal_t ->
    hsa_status_t * hsa_amd_profiling_dispatch_time_t;
  SysclockToNs : Z -> Z
}.

(** ** Operations performed, in the order of execution *)

Inductive memory_order :=
| memory_order_relaxed
| memory_order_acquire
| memory_order_release
| memory_order_seq_cst.

Inductive event :=
| E_new_entry (e : Z)
| E_delete_entry (e : Z)
| E_new_record (r : Z)
| E_entry_write (e : Z) (f : entry_field)
| E_handler_store (e : Z) (h : Z) (mo : memory_order)
| E_handler_load (e : Z) (h : Z) (mo : memory_order)
| E_sched_yield
| E_record_write (r : Z)
| E_TimestampNs (t : Z)
| E_hsa_signal_create (init : hsa_signal_value_t) (st : hsa_status_t) (sig : Z)
| E_hsa_amd_signal_async_handler
    (sig : Z) (c : hsa_signal_condition_t) (v : hsa_signal_value_t)
    (a : Z) (st : hsa_status_t)
| E_hsa_signal_destroy (sig : Z)
| E_hsa_amd_profiling_get_dispatch_time (ag sig : Z) (st : hsa_status_t)
| E_amd_signal_read (sig : Z)
| E_amd_signal_write (sig : Z)
| E_hsa_signal_load_relaxed (sig : Z) (v : hsa_signal_value_t)
| E_hsa_signal_store_screlease (sig : Z) (v : hsa_signal_value_t)
| E_SignalWait (sig : Z)
| E_lock
| E_unlock
| E_list_insert (node e : Z)
| E_list_erase (node : Z)
| E_outstanding (delta : Z)
| E_fprintf
| E_call_context (h : Z) (v : hsa_signal_value_t) (a : Z)
| E_call_simple (h : Z) (g : rocprofiler_group_t) (a : Z).

(** ** Program state *)

(** The data members of [class Tracker]; [hsa_rsrc_] points to the
    process-wide factory, whose clock is part of [hsa_t]. *)
Record Tracker := {
  sig_list_ : sig_list_t;
  mutex_ : bool;
  outstanding_ : Z
}.

Record state := {
  this : Z;
  self : Tracker;
  entries : gmap Z entry_t;
  records : gmap Z record_t;
  hsa : hsa_t;
  log : list event
}.

Definition trace_on_ : bool := false.

Definition set_self (t : Tracker) (s : state) : state :=
  {| this := this s; self := t; entries := entries s; records := records s;
     hsa := hsa s; log := log s |}.
Definition set_entries (m : gmap Z entry_t) (s : state) : state :=
  {| this := this s; self := self s; entries := m; records := records s;
     hsa := hsa s; log := log s |}.
Definition set_records (m : gmap Z record_t) (s : state) : state :=
  {| this := this s; self := self s; entries := entries s; records := m;
     hsa := hsa s; log := log s |}.
Definition set_hsa (w : hsa_t) (s : state) : state :=
  {| this := this s; self := self s; entries := entries s;
     records := records s; hsa := w; log := log s |}.
Definition set_log (l : list event) (s : state) : state :=
  {| this := this s; self := self s; entries := entries s;
     records := records s; hsa := hsa s; log := l |}.

Definition emit (ev : event) (s : state) : state :=
  {| this := this s; self := self s; entries := entries s;
     records := records s; hsa := hsa s; log := log s ++ [ev] |}.

Definition set_sig_list (l : sig_list_t) (t : Tracker) : Tracker :=
  {| sig_list_ := l; mutex_ := mutex_ t; outstanding_ := outstanding_ t |}.
Definition set_mutex (b : bool) (t : Tracker) : Tracker :=
  {| sig_list_ := sig_list_ t; mutex_ := b; outstanding_ := outstanding_ t |}.
Definition set_outstanding (n : Z) (t : Tracker) : Tracker :=
  {| sig_list_ := sig_list_ t; mutex_ := mutex_ t; outstanding_ := n |}.

Definition set_signals (m : gmap Z amd_signal_t) (w : hsa_t) : hsa_t :=
  {| signals := m; async_handlers := async_handlers w;
     host_clock := host_clock w |}.
Definition set_async_handlers (l : list async_reg) (w : hsa_t) : hsa_t :=
  {| signals := signals w; async_handlers := l; host_clock := host_clock w |}.

(** ** Outcomes and the state monad *)

Inductive outcome (A : Type) :=
| Ok (a : A) (s : state)
| Raised (status : hsa_status_t) (what : string) (s : state)
| Undefined
| Blocked (s : state)
| OutOfFuel.

Arguments Ok {A} a s.
Arguments Raised {A} status what s.
Arguments Undefined {A}.
Arguments Blocked {A} s.
Arguments OutOfFuel {A}.

Definition M (A : Type) := state -> outcome A.

Definition ret {A} (a : A) : M A := fun s => Ok a s.

Definition bind {A B} (c : M A) (k : A -> M B) : M B := fun s =>
  match c s with
  | Ok a s' => k a s'
  | Raised st w s' => Raised st w s'
  | Undefined => Undefined
  | Blocked s' => Blocked s'
  | OutOfFuel => OutOfFuel
  end.

Notation "x <- c ;; k" := (bind c (fun x => k))
  (at level 100, c at next level, right associativity).
Notation "c ;;; k" := (bind c (fun _ => k))
  (at level 100, right associativity).

(** [EXC_RAISING(status, stream)] throws [util::exception(status, ...)]. *)
Definition EXC_RAISING {A} (status : hsa_status_t) (what : string) : M A :=
  fun s => Raised status what s.

Definition undefined {A} : M A := fun _ => Undefined.
Definition tell (ev : event) : M unit := fun s => Ok tt (emit ev s).

(** ** Primitive operations *)

(** An address above every address in use: what [new] and the runtime's
    allocator return is never null and never a live object. *)
Definition fresh_above (ks : list Z) : Z := 1 + foldr Z.max 0 ks.

Definition new_entry_t : M Z := fun s =>
  let e := fresh_above (elements (dom (entries s))) in
  Ok e (emit (E_new_entry e) (set_entries (<[e := entry_zero]> (entries s)) s)).

Definition delete_entry (e : Z) : M unit := fun s =>
  match entries s !! e with
  | Some _ => Ok tt (emit (E_delete_entry e) (set_entries (delete e (entries s)) s))
  | None => Undefined
  end.

Definition entry_load {A} (e : Z) (proj : entry_t -> A) : M A := fun s =>
  match entries s !! e with
  | Some x => Ok (proj x) s
  | None => Undefined
  end.

Definition entry_store (e : Z) (f : entry_field) (upd : entry_t -> entry_t)
  : M unit := fun s =>
  match entries s !! e with
  | Some x =>
      Ok tt (emit (E_entry_write e f) (set_entries (<[e := upd x]> (entries s)) s))
  | None => Undefined
  end.

(** [entry->handler] is a [std::atomic<void*>]. *)
Definition handler_store (e h : Z) (mo : memory_order) : M unit := fun s =>
  match entries s !! e with
  | Some x =>
      Ok tt (emit (E_handler_store e h mo)
               (set_entries (<[e := set_handler h x]> (entries s)) s))
  | None => Undefined
  end.

Definition handler_load (e : Z) (mo : memory_order) : M Z := fun s =>
  match entries s !! e with
  | Some x => Ok (handler x) (emit (E_handler_load e (handler x) mo) s)
  | None => Undefined
  end.

Definition sched_yield : M unit := tell E_sched_yield.

Definition new_record_t : M Z := fun s =>
  let r := fresh_above (elements (dom (records s))) in
  Ok r (emit (E_new_record r) (set_records (<[r := record_zero]> (records s)) s)).

Definition record_store (r : Z) (upd : record_t -> record_t) : M unit := fun s =>
  match records s !! r with
  | Some x => Ok tt (emit (E_record_write r) (set_records (<[r := upd x]> (records s)) s))
  | None => Undefined
  end.

Definition set_dispatch (v : Z) (x : record_t) : record_t :=
  {| dispatch := v; begin := begin x; end_ := end_ x; complete := complete x |}.
Definition set_begin (v : Z) (x : record_t) : record_t :=
  {| dispatch := dispatch x; begin := v; end_ := end_ x; complete := complete x |}.
Definition set_end (v : Z) (x : record_t) : record_t :=
  {| dispatch := dispatch x; begin := begin x; end_ := v; complete := complete x |}.
Definition set_complete (v : Z) (x : record_t) : record_t :=
  {| dispatch := dispatch x; begin := begin x; end_ := end_ x; complete := v |}.

Definition set_value (v : hsa_signal_value_t) (x : amd_signal_t) : amd_signal_t :=
  {| value := v; start_ts := start_ts x; end_ts := end_ts x |}.
Definition set_start_ts (v : Z) (x : amd_signal_t) : amd_signal_t :=
  {| value := value x; start_ts := v; end_ts := end_ts x |}.
Definition set_end_ts (v : Z) (x : amd_signal_t) : amd_signal_t :=
  {| value := value x; start_ts := start_ts x; end_ts := v |}.

(** Modelled from the spec: [HsaRsrcFactory::TimestampNs] is in
    util/hsa_rsrc_factory.h, not at hand; it "obtains a monotonic host
    timestamp", here the current reading of the shared clock. *)
Definition TimestampNs : M Z := fun s =>
  Ok (host_clock (hsa s)) (emit (E_TimestampNs (host_clock (hsa s))) s).

(** Modelled from the spec: [HsaRsrcFactory::SignalWait] is in
    util/hsa_rsrc_factory.h, not at hand; it "blocks until [the] proxy
    signal's completion condition is observed".  With no other thread
    running, a wait on a signal that has not reached the threshold never
    returns. *)
Definition SignalWait (sig : hsa_signal_t) : M unit := fun s =>
  match signals (hsa s) !! handle sig with
  | Some x =>
      if condition_holds HSA_SIGNAL_CONDITION_LT (value x) 1
      then Ok tt (emit (E_SignalWait (handle sig)) s)
      else Blocked s
  | None => Undefined
  end.

(** Dereferencing a [reinterpret_cast<amd_signal_t*>(handle)]. *)
Definition amd_signal_load {A} (p : Z) (proj : amd_signal_t -> A) : M A := fun s =>
  match signals (hsa s) !! p with
  | Some x => Ok (proj x) (emit (E_amd_signal_read p) s)
  | None => Undefined
  end.

Definition amd_signal_store (p : Z) (upd : amd_signal_t -> amd_signal_t)
  : M unit := fun s =>
  match signals (hsa s) !! p with
  | Some x =>
      Ok tt (emit (E_amd_signal_write p)
               (set_hsa (set_signals (<[p := upd x]> (signals (hsa s))) (hsa s)) s))
  | None => Undefined
  end.

Section Runtime.

Context {RT : HsaRuntime}.

(** [hsa_signal_create(initial, num_consumers, consumers, &entry->signal)]:
    on success the new handle is written through the out-pointer. *)
Definition hsa_signal_create
    (initial : hsa_signal_value_t) (num_consumers consumers : Z) (e : Z)
  : M hsa_status_t := fun s =>
  let st := signal_create_status (hsa s) in
  if st =? HSA_STATUS_SUCCESS then
    let h := fresh_above (elements (dom (signals (hsa s)))) in
    let sg := {| value := initial; start_ts := 0; end_ts := 0 |} in
    match entries s !! e with
    | Some x =>
        Ok st (emit (E_hsa_signal_create initial st h)
                 (set_entries (<[e := set_signal {| handle := h |} x]> (entries s))
                    (set_hsa (set_signals (<[h := sg]> (signals (hsa s))) (hsa s)) s)))
    | None => Undefined
    end
  else Ok st (emit (E_hsa_signal_create initial st NULL) s).

(** [hsa_amd_signal_async_handler(signal, cond, value, Handler, arg)]. *)
Definition hsa_amd_signal_async_handler
    (sig : hsa_signal_t) (c : hsa_signal_condition_t) (v : hsa_signal_value_t)
    (a : Z) : M hsa_status_t := fun s =>
  let st := async_handler_status (hsa s) sig in
  let reg := {| reg_signal := handle sig; reg_cond := c; reg_value := v;
                reg_arg := a |} in
  let s1 := emit (E_hsa_amd_signal_async_handler (handle sig) c v a st) s in
  if st =? HSA_STATUS_SUCCESS then
    Ok st (set_hsa (set_async_handlers (async_handlers (hsa s) ++ [reg]) (hsa s)) s1)
  else Ok st s1.

Definition hsa_amd_profiling_get_dispatch_time
    (ag : hsa_agent_t) (sig : hsa_signal_t)
  : M (hsa_status_t * hsa_amd_profiling_dispatch_time_t) := fun s =>
  let r := profiling_get_dispatch_time (hsa s) ag sig in
  Ok r (emit (E_hsa_amd_profiling_get_dispatch_time
                (agent_handle ag) (handle sig) (fst r)) s).

End Runtime.

(** The status [hsa_signal_destroy] returns is ignored by the tracker. *)
Definition hsa_signal_destroy (sig : hsa_signal_t) : M unit := fun s =>
  Ok tt (emit (E_hsa_signal_destroy (handle sig))
           (set_hsa (set_signals (delete (handle sig) (signals (hsa s))) (hsa s)) s)).

Definition hsa_signal_load_relaxed (sig : hsa_signal_t) : M hsa_signal_value_t :=
  fun s =>
  match signals (hsa s) !! handle sig with
  | Some x => Ok (value x) (emit (E_hsa_signal_load_relaxed (handle sig) (value x)) s)
  | None => Undefined
  end.

Definition hsa_signal_store_screlease (sig : hsa_signal_t) (v : hsa_signal_value_t)
  : M unit := fun s =>
  match signals (hsa s) !! handle sig with
  | Some x =>
      Ok tt (emit (E_hsa_signal_store_screlease (handle sig) v)
               (set_hsa (set_signals (<[handle sig := set_value v x]> (signals (hsa s)))
                           (hsa s)) s))
  | None => Undefined
  end.

(** [mutex_.lock()] / [mutex_.unlock()].  Locking a held mutex does not
    return while nothing else runs; unlocking a free one is undefined. *)
Definition mutex_lock : M unit := fun s =>
  if mutex_ (self s) then Blocked s
  else Ok tt (emit E_lock (set_self (set_mutex true (self s)) s)).

Definition mutex_unlock : M unit := fun s =>
  if mutex_ (self s) then Ok tt (emit E_unlock (set_self (set_mutex false (self s)) s))
  else Undefined.

(** *** [std::list] operations on [sig_list_] *)

Definition list_begin (l : sig_list_t) : sig_list_it_t :=
  match l with
  | [] => list_end
  | (n, _) :: _ => n
  end.

Fixpoint list_deref (l : sig_list_t) (i : sig_list_it_t) : option Z :=
  match l with
  | [] => None
  | (n, e) :: l' => if n =? i then Some e else list_deref l' i
  end.

Fixpoint list_next (l : sig_list_t) (i : sig_list_it_t) : option sig_list_it_t :=
  match l with
  | [] => None
  | (n, _) :: l' => if n =? i then Some (list_begin l') else list_next l' i
  end.

Fixpoint list_erase (l : sig_list_t) (i : sig_list_it_t) : option sig_list_t :=
  match l with
  | [] => None
  | (n, e) :: l' =>
      if n =? i then Some l'
      else match list_erase l' i with
           | Some r => Some ((n, e) :: r)
           | None => None
           end
  end.

Definition sig_list_begin : M sig_list_it_t := fun s =>
  Ok (list_begin (sig_list_ (self s))) s.

(** [sig_list_.insert(sig_list_.begin(), entry)] returns the iterator to
    the new first node. *)
Definition sig_list_insert_begin (e : Z) : M sig_list_it_t := fun s =>
  let l := sig_list_ (self s) in
  let n := fresh_above (map fst l) in
  Ok n (emit (E_list_insert n e) (set_self (set_sig_list ((n, e) :: l) (self s)) s)).

Definition sig_list_erase (i : sig_list_it_t) : M unit := fun s =>
  match list_erase (sig_list_ (self s)) i with
  | Some l => Ok tt (emit (E_list_erase i) (set_self (set_sig_list l (self s)) s))
  | None => Undefined
  end.

Definition sig_list_deref (i : sig_list_it_t) : M Z := fun s =>
  match list_deref (sig_list_ (self s)) i with
  | Some e => Ok e s
  | None => Undefined
  end.

Definition sig_list_next (i : sig_list_it_t) : M sig_list_it_t := fun s =>
  match list_next (sig_list_ (self s)) i with
  | Some n => Ok n s
  | None => Undefined
  end.

(** [outstanding_.fetch_add(d)] *)
Definition outstanding_fetch_add (d : Z) : M Z := fun s =>
  Ok (outstanding_ (self s))
     (emit (E_outstanding d)
        (set_self (set_outstanding ((outstanding_ (self s) + d) mod 2 ^ 64) (self s)) s)).

Definition fprintf_trace : M unit := tell E_fprintf.

(** Calls through the stored function pointer.  The body of a user handler
    is not part of the tracker: a call is recorded with the arguments it
    receives; a call through a null pointer is undefined. *)
Definition call_hsa_amd_signal_handler (h : Z) (v : hsa_signal_value_t) (a : Z)
  : M unit := if h =? NULL then undefined else tell (E_call_context h v a).

Definition call_rocprofiler_handler_t (h : Z) (g : rocprofiler_group_t) (a : Z)
  : M unit := if h =? NULL then undefined else tell (E_call_simple h g a).

(** A member function called through [entry->tracker]: the tracker of the
    entry has to be the object at hand. *)
Definition on_tracker {A} (t : Z) (c : M A) : M A := fun s =>
  if t =? this s then c s else Undefined.

(** ** The member functions of [Tracker] *)

Section Methods.

Context {RT : HsaRuntime}.

(** [entry_t* Alloc(const hsa_agent_t& agent, const hsa_signal_t& orig)] *)
Definition Alloc (agent_ : hsa_agent_t) (orig_ : hsa_signal_t) : M Z :=
  entry <- new_entry_t ;;
  (fun s => entry_store entry f_tracker (set_tracker (this s)) s) ;;;
  entry_store entry f_agent (set_agent agent_) ;;;
  entry_store entry f_orig (set_orig orig_) ;;;
  record_ <- new_record_t ;;
  t <- TimestampNs ;;
  record_store record_ (set_dispatch t) ;;;
  entry_store entry f_record (set_record record_) ;;;
  status <- hsa_signal_create 1 0 NULL entry ;;
  (if negb (status =? HSA_STATUS_SUCCESS)
   then EXC_RAISING status "hsa_signal_create"
   else
     sig <- entry_load entry signal ;;
     status <- hsa_amd_signal_async_handler sig HSA_SIGNAL_CONDITION_LT 1 entry ;;
     (if negb (status =? HSA_STATUS_SUCCESS)
      then EXC_RAISING status "hsa_amd_signal_async_handler"
      else
        mutex_lock ;;;
        i <- sig_list_insert_begin entry ;;
        entry_store entry f_it (set_it i) ;;;
        mutex_unlock ;;;
        ret entry)).

(** [void Delete(entry_t* entry)] *)
Definition Delete (entry : Z) : M unit :=
  sig <- entry_load entry signal ;;
  hsa_signal_destroy sig ;;;
  mutex_lock ;;;
  i <- entry_load entry it ;;
  sig_list_erase i ;;;
  mutex_unlock ;;;
  delete_entry entry.

(** The debug trace of [Enable] and [Complete], compiled in when
    [trace_on_] is set. *)
Definition debug_trace (entry : Z) (d : Z) : M unit :=
  if trace_on_ then
    _ <- outstanding_fetch_add d ;;
    _ <- entry_load entry record ;;
    fprintf_trace
  else ret tt.

(** [void Enable(entry_t* entry, void* handler, void* arg)] *)
Definition Enable (entry handler_ arg_ : Z) : M unit :=
  entry_store entry f_arg (set_arg arg_) ;;;
  handler_store entry handler_ memory_order_release ;;;
  debug_trace entry 1.

(** [void Enable(entry_t* entry, hsa_amd_signal_handler handler, void* arg)] *)
Definition Enable_hsa_amd_signal_handler (entry handler_ arg_ : Z) : M unit :=
  entry_store entry f_context_active (set_context_active true) ;;;
  Enable entry handler_ arg_.

(** [void Enable(entry_t* entry, rocprofiler_handler_t handler, void* arg)] *)
Definition Enable_rocprofiler_handler_t (entry handler_ arg_ : Z) : M unit :=
  Enable entry handler_ arg_.

(** [void Erase(const sig_list_it_t& it)] *)
Definition Erase (i : sig_list_it_t) : M unit :=
  entry <- sig_list_deref i ;;
  Delete entry.

(** [void Complete(entry_t* entry)] *)
Definition Complete (entry : Z) : M unit :=
  record_ <- entry_load entry record ;;
  debug_trace entry (-1) ;;;
  ag <- entry_load entry agent ;;
  sig <- entry_load entry signal ;;
  r <- hsa_amd_profiling_get_dispatch_time ag sig ;;
  (if negb (fst r =? HSA_STATUS_SUCCESS)
   then EXC_RAISING (fst r) "hsa_amd_profiling_get_dispatch_time"
   else
     record_store record_ (set_begin (SysclockToNs (dt_start (snd r)))) ;;;
     record_store record_ (set_end (SysclockToNs (dt_end (snd r)))) ;;;
     t <- TimestampNs ;;
     record_store record_ (set_complete t) ;;;
     orig_ <- entry_load entry orig ;;
     (if negb (handle orig_ =? 0)
      then
        let orig_signal_ptr := handle orig_ in
        let prof_signal_ptr := handle sig in
        v <- amd_signal_load prof_signal_ptr start_ts ;;
        amd_signal_store orig_signal_ptr (set_start_ts v) ;;;
        v <- amd_signal_load prof_signal_ptr end_ts ;;
        amd_signal_store orig_signal_ptr (set_end_ts v) ;;;
        value_ <- hsa_signal_load_relaxed orig_ ;;
        hsa_signal_store_screlease orig_ (wrap64 (value_ - 1))
      else ret tt)).

(** The loop [while (ptr->load(std::memory_order_acquire) == NULL)
    sched_yield();] of [Handler]; [fuel] bounds the number of loads. *)
Fixpoint Handler_wait (fuel : nat) (entry : Z) : M unit :=
  match fuel with
  | O => fun _ => OutOfFuel
  | S fuel' =>
      h <- handler_load entry memory_order_acquire ;;
      (if h =? NULL then sched_yield ;;; Handler_wait fuel' entry else ret tt)
  end.

(** The call of the entry's handler in [Handler]. *)
Definition Handler_call (entry : Z) : M unit :=
  handler_ <- handler_load entry memory_order_seq_cst ;;
  ca <- entry_load entry context_active ;;
  (if ca then
     a <- entry_load entry arg ;;
     call_hsa_amd_signal_handler handler_ 0 a
   else
     let group := group_default in
     a <- entry_load entry arg ;;
     call_rocprofiler_handler_t handler_ group a).

(** [static bool Handler(hsa_signal_value_t, void* arg)] *)
Definition Handler (fuel : nat) (v : hsa_signal_value_t) (arg_ : Z) : M bool :=
  let entry := arg_ in
  Handler_wait fuel entry ;;;
  t <- entry_load entry tracker ;;
  on_tracker t (Complete entry) ;;;
  Handler_call entry ;;;
  t <- entry_load entry tracker ;;
  on_tracker t (Delete entry) ;;;
  ret false.

(** The loop of [~Tracker()]; [fuel] bounds the number of iterations. *)
Fixpoint dtor_loop (fuel : nat) (i end__ : sig_list_it_t) : M unit :=
  if i =? end__ then ret tt
  else
    match fuel with
    | O => fun _ => OutOfFuel
    | S fuel' =>
        let cur := i in
        i' <- sig_list_next i ;;
        entry <- sig_list_deref cur ;;
        sig <- entry_load entry signal ;;
        SignalWait sig ;;;
        Erase cur ;;;
        dtor_loop fuel' i' end__
    end.

(** [~Tracker()] *)
Definition Tracker_dtor (fuel : nat) : M unit :=
  i <- sig_list_begin ;;
  let end__ := list_end in
  dtor_loop fuel i end__.

End Methods.

(** ** What [Complete] is expected to do *)

(** The record of an entry once the dispatch times [dt] are stored and the
    completion is stamped with the clock reading [t]. *)
Definition stamped {RT : HsaRuntime}
    (rc : record_t) (dt : hsa_amd_profiling_dispatch_time_t) (t : Z) : record_t :=
  {| dispatch := dispatch rc; begin := SysclockToNs (dt_start dt);
     end_ := SysclockToNs (dt_end dt); complete := t |}.

(** The original signal [og] once the proxy signal [pg] is forwarded. *)
Definition forwarded (og pg : amd_signal_t) : amd_signal_t :=
  {| value := wrap64 (value og - 1); start_ts := start_ts pg; end_ts := end_ts pg |}.

Definition record_events (x : entry_t) (t : Z) : list event :=
  [ E_hsa_amd_profiling_get_dispatch_time
      (agent_handle (agent x)) (handle (signal x)) HSA_STATUS_SUCCESS;
    E_record_write (record x); E_record_write (record x);
    E_TimestampNs t; E_record_write (record x) ].

Definition forward_events (x : entry_t) (v : hsa_signal_value_t) : list event :=
  [ E_amd_signal_read (handle (signal x)); E_amd_signal_write (handle (orig x));
    E_amd_signal_read (handle (signal x)); E_amd_signal_write (handle (orig x));
    E_hsa_signal_load_relaxed (handle (orig x)) v;
    E_hsa_signal_store_screlease (handle (orig x)) (wrap64 (v - 1)) ].

(** The operations of one [Delete] of the entry [e] with contents [x]. *)
Definition delete_events (e : Z) (x : entry_t) : list event :=
  [ E_hsa_signal_destroy (handle (signal x)); E_lock; E_list_erase (it x);
    E_unlock; E_delete_entry e ].

(** The call [Handler] makes for an entry with contents [x]. *)
Definition call_event (x : entry_t) : event :=
  if context_active x
  then E_call_context (handler x) 0 (arg x)
  else E_call_simple (handler x) group_default (arg x).

(** ** What a successful [Alloc] is expected to build *)

Definition next_entry (s : state) : Z := fresh_above (elements (dom (entries s))).
Definition next_record (s : state) : Z := fresh_above (elements (dom (records s))).
Definition next_signal (w : hsa_t) : Z := fresh_above (elements (dom (signals w))).
Definition next_node (s : state) : sig_list_it_t :=
  fresh_above (map fst (sig_list_ (self s))).

Definition proxy_initial : amd_signal_t := {| value := 1; start_ts := 0; end_ts := 0 |}.

(** The runtime's memory once the proxy signal is created ... *)
Definition hsa_created (w : hsa_t) : hsa_t :=
  set_signals (<[next_signal w := proxy_initial]> (signals w)) w.

(** ... and once [Handler] is registered on it for the entry [e]. *)
Definition hsa_registered (w : hsa_t) (e : Z) : hsa_t :=
  set_async_handlers
    (async_handlers w ++
       [ {| reg_signal := next_signal w; reg_cond := HSA_SIGNAL_CONDITION_LT;
            reg_value := 1; reg_arg := e |} ])
    (hsa_created w).

Definition alloc_entry (s : state) (ag : hsa_agent_t) (og : hsa_signal_t) : entry_t :=
  {| tracker := this s; it := next_node s; agent := ag; orig := og;
     signal := {| handle := next_signal (hsa s) |}; record := next_record s;
     handler := NULL; arg := NULL; context_active := false |}.

Definition alloc_record (s : state) : record_t :=
  {| dispatch := host_clock (hsa s); begin := 0; end_ := 0; complete := 0 |}.

(** The operations of [Alloc] up to the creation of the proxy signal. *)
Definition alloc_prefix (s : state) : list event :=
  [ E_new_entry (next_entry s); E_entry_write (next_entry s) f_tracker;
    E_entry_write (next_entry s) f_agent; E_entry_write (next_entry s) f_orig;
    E_new_record (next_record s); E_TimestampNs (host_clock (hsa s));
    E_record_write (next_record s); E_entry_write (next_entry s) f_record ].

Definition alloc_events (s : state) : list event :=
  alloc_prefix s ++
  [ E_hsa_signal_create 1 HSA_STATUS_SUCCESS (next_signal (hsa s));
    E_hsa_amd_signal_async_handler (next_signal (hsa s)) HSA_SIGNAL_CONDITION_LT 1
      (next_entry s) HSA_STATUS_SUCCESS;
    E_lock; E_list_insert (next_node s) (next_entry s);
    E_entry_write (next_entry s) f_it; E_unlock ].

(** ** The registry invariant *)

(** [Tracker()] : an empty list, a free mutex, no outstanding dispatch. *)
Definition Tracker_ctor : Tracker :=
  {| sig_list_ := []; mutex_ := false; outstanding_ := 0 |}.

(** Every node of [sig_list_] has its own address, none is the
    past-the-end position; the entry a node holds is alive and its [it]
    is that node; an entry outside the list has the value-initialised
    [it]; the mutex is free between calls. *)
Record registry_wf (s : state) : Prop := {
  wf_nodes : NoDup (map fst (sig_list_ (self s)));
  wf_not_end : forall n e, (n, e) ∈ sig_list_ (self s) -> n <> list_end;
  wf_position : forall n e, (n, e) ∈ sig_list_ (self s) ->
                exists x, entries s !! e = Some x /\ it x = n;
  wf_listed : forall e x, entries s !! e = Some x ->
              it x = list_end \/ (it x, e) ∈ sig_list_ (self s);
  wf_mutex : mutex_ (self s) = false
}.

(** The states the tracker can be in between calls of its member
    functions, whatever the runtime does to its own memory meanwhile. *)
Inductive reachable {RT : HsaRuntime} : state -> Prop :=
| reach_ctor s :
    self s = Tracker_ctor -> entries s = ∅ -> reachable s
| reach_runtime s w :
    reachable s -> reachable (set_hsa w s)
| reach_Alloc s ag og e s' :
    reachable s -> Alloc ag og s = Ok e s' -> reachable s'
| reach_Alloc_raised s ag og st what s' :
    reachable s -> Alloc ag og s = Raised st what s' -> reachable s'
| reach_Enable_context s e h a s' :
    reachable s -> Enable_hsa_amd_signal_handler e h a s = Ok tt s' -> reachable s'
| reach_Enable_simple s e h a s' :
    reachable s -> Enable_rocprofiler_handler_t e h a s = Ok tt s' -> reachable s'
| reach_Handler s fuel v e r s' :
    reachable s -> Handler fuel v e s = Ok r s' -> reachable s'
| reach_Handler_raised s fuel v e st what s' :
    reachable s -> Handler fuel v e s = Raised st what s' -> reachable s'
| reach_Delete s e s' :
    reachable s -> Delete e s = Ok tt s' -> reachable s'.

(** The list without the node [n]. *)
Definition without_node (n : sig_list_it_t) (l : sig_list_t) : sig_list_t :=
  List.filter (fun p => negb (fst p =? n)) l.

(** Holds of the final state of a computation that returns or raises. *)
Definition lift {A} (P : state -> Prop) (o : outcome A) : Prop :=
  match o with
  | Ok _ s' | Raised _ _ s' | Blocked s' => P s'
  | Undefined | OutOfFuel => True
  end.

(** A relation between the initial and the final state of every run. *)
Definition keeps {A} (R : state -> state -> Prop) (c : M A) : Prop :=
  forall s, lift (R s) (c s).

(** A computation that only appends to the list of operations ... *)
Definition log_extends (s s' : state) : Prop :=
  exists evs, log s' = log s ++ evs.

(** ... and one that moreover leaves the tracker and its entries alone. *)
Definition same_registry (s s' : state) : Prop :=
  this s' = this s /\ self s' = self s /\ entries s' = entries s.

Definition quiet (s s' : state) : Prop := same_registry s s' /\ log_extends s s'.


(** ** Preconditions of the completion path *)

(** [Complete] can run to its end on the entry [e] with contents [x]: the
    entry and its record are alive, the runtime answers the dispatch-time
    query, and a non-null original signal and the proxy signal are alive. *)
Record completable {RT : HsaRuntime} (s : state) (e : Z) (x : entry_t) : Prop := {
  cp_entry : entries s !! e = Some x;
  cp_record : is_Some (records s !! record x);
  cp_query :
    fst (profiling_get_dispatch_time (hsa s) (agent x) (signal x)) = HSA_STATUS_SUCCESS;
  cp_orig : handle (orig x) <> 0 -> is_Some (signals (hsa s) !! handle (orig x));
  cp_proxy : handle (orig x) <> 0 -> is_Some (signals (hsa s) !! handle (signal x))
}.

(** The entry belongs to this tracker and sits in its list. *)
Record registered (s : state) (e : Z) (x : entry_t) : Prop := {
  rg_wf : registry_wf s;
  rg_tracker : tracker x = this s;
  rg_listed : (it x, e) ∈ sig_list_ (self s)
}.

(** The operations of [Complete] on the entry [x] in the state [s]. *)
Definition complete_events (s : state) (x : entry_t) : list event :=
  record_events x (host_clock (hsa s)) ++
  (if handle (orig x) =? 0 then []
   else match signals (hsa s) !! handle (orig x) with
        | Some og => forward_events x (value og)
        | None => []
        end).

(** The operations of a whole run of [Handler] on an armed entry. *)
Definition handler_events (s : state) (e : Z) (x : entry_t) : list event :=
  [E_handler_load e (handler x) memory_order_acquire] ++
  complete_events s x ++
  [E_handler_load e (handler x) memory_order_seq_cst; call_event x] ++
  delete_events e x.

Definition is_user_call (ev : event) : bool :=
  match ev with
  | E_call_context _ _ _ | E_call_simple _ _ _ => true
  | _ => false
  end.

(** Loads and stores of the value of a signal. *)
Definition is_value_access (ev : event) : bool :=
  match ev with
  | E_hsa_signal_load_relaxed _ _ | E_hsa_signal_store_screlease _ _ => true
  | _ => false
  end.

(** Operations on the memory of a signal. *)
Definition is_signal_access (ev : event) : bool :=
  match ev with
  | E_amd_signal_read _ | E_amd_signal_write _
  | E_hsa_signal_load_relaxed _ _ | E_hsa_signal_store_screlease _ _ => true
  | _ => false
  end.

(** ** Preconditions of the destructor *)

(** Every entry of the list has a live proxy signal of its own that has
    reached the threshold. *)
Record drainable (s : state) : Prop := {
  dr_done : forall n e x, (n, e) ∈ sig_list_ (self s) -> entries s !! e = Some x ->
            exists sg, signals (hsa s) !! handle (signal x) = Some sg /\ value sg < 1;
  dr_own : forall n1 e1 x1 n2 e2 x2,
           (n1, e1) ∈ sig_list_ (self s) -> (n2, e2) ∈ sig_list_ (self s) ->
           entries s !! e1 = Some x1 -> entries s !! e2 = Some x2 ->
           e1 <> e2 -> handle (signal x1) <> handle (signal x2)
}.

(** The operations of the destructor on the list [l] of the state [s]. *)
Definition drain_events (s : state) (l : sig_list_t) : list event :=
  flat_map (fun p =>
              match entries s !! snd p with
              | Some x => E_SignalWait (handle (signal x)) :: delete_events (snd p) x
              | None => []
              end) l.

(** ** Arming and completion as two threads

    The thread that allocated the entry runs [Enable] while a thread of
    the runtime runs [Handler] for the same entry.  Each thread is cut at
    its accesses to the entry; the steps of the two threads and of the
    runtime interleave in any order. *)

Inductive arm_pc :=
| ARM_context   (* before [entry->context_active = true] *)
| ARM_arg       (* before [entry->arg = arg] *)
| ARM_store     (* before [entry->handler.store(handler, release)] *)
| ARM_trace     (* before the debug trace *)
| ARM_done.

(** Where [Enable] starts: the context-style overload sets the
    discriminator first. *)
Definition arm_entry (context_style : bool) : arm_pc :=
  if context_style then ARM_context else ARM_arg.

Definition Enable_step (e h a : Z) (pc : arm_pc) : M arm_pc :=
  match pc with
  | ARM_context =>
      entry_store e f_context_active (set_context_active true) ;;; ret ARM_arg
  | ARM_arg => entry_store e f_arg (set_arg a) ;;; ret ARM_store
  | ARM_store => handler_store e h memory_order_release ;;; ret ARM_trace
  | ARM_trace => debug_trace e 1 ;;; ret ARM_done
  | ARM_done => undefined
  end.

(** The store of the handler pointer has been executed. *)
Definition published (pc : arm_pc) : bool :=
  match pc with
  | ARM_trace | ARM_done => true
  | _ => false
  end.

Inductive cb_pc :=
| CB_idle       (* the runtime has not called [Handler] yet *)
| CB_wait       (* in the loop on [entry->handler] *)
| CB_complete   (* before [Complete(entry)] *)
| CB_call       (* before the call of the entry's handler *)
| CB_delete     (* before [Delete(entry)] *)
| CB_returned (r : bool)
| CB_raised (st : hsa_status_t).

Definition Handler_step {RT : HsaRuntime} (e : Z) (pc : cb_pc) : M cb_pc :=
  match pc with
  | CB_wait =>
      h <- handler_load e memory_order_acquire ;;
      (if h =? NULL then sched_yield ;;; ret CB_wait else ret CB_complete)
  | CB_complete =>
      t <- entry_load e tracker ;;
      on_tracker t (Complete e) ;;;
      ret CB_call
  | CB_call => Handler_call e ;;; ret CB_delete
  | CB_delete =>
      t <- entry_load e tracker ;;
      on_tracker t (Delete e) ;;;
      ret (CB_returned false)
  | CB_idle | CB_returned _ | CB_raised _ => undefined
  end.

(** [Handler] has left its wait loop. *)
Definition left_wait (pc : cb_pc) : bool :=
  match pc with
  | CB_idle | CB_wait => false
  | _ => true
  end.

Record config := { arm : arm_pc; cb : cb_pc; st : state }.

Inductive step {RT : HsaRuntime} (e h a : Z) : config -> config -> Prop :=
| step_arm c pc' s' :
    Enable_step e h a (arm c) (st c) = Ok pc' s' ->
    step e h a c {| arm := pc'; cb := cb c; st := s' |}
| step_fire c reg sg :
    cb c = CB_idle ->
    reg ∈ async_handlers (hsa (st c)) ->
    reg_arg reg = e ->
    signals (hsa (st c)) !! reg_signal reg = Some sg ->
    condition_holds (reg_cond reg) (value sg) (reg_value reg) = true ->
    step e h a c {| arm := arm c; cb := CB_wait; st := st c |}
| step_callback c pc' s' :
    Handler_step e (cb c) (st c) = Ok pc' s' ->
    step e h a c {| arm := arm c; cb := pc'; st := s' |}
| step_callback_raised c status what s' :
    Handler_step e (cb c) (st c) = Raised status what s' ->
    step e h a c {| arm := arm c; cb := CB_raised status; st := s' |}
| step_runtime c w :
    async_handlers w = async_handlers (hsa (st c)) ->
    step e h a c {| arm := arm c; cb := cb c; st := set_hsa w (st c) |}.

Inductive runs {RT : HsaRuntime} (e h a : Z) : config -> config -> Prop :=
| runs_refl c : runs e h a c c
| runs_step c1 c2 c3 : runs e h a c1 c2 -> step e h a c2 c3 -> runs e h a c1 c3.

(** The operations of the completion logic: those of [Complete], of the
    call of the entry's handler and of [Delete]. *)
Definition is_completion_event (ev : event) : bool :=
  match ev with
  | E_hsa_amd_profiling_get_dispatch_time _ _ _ | E_record_write _
  | E_TimestampNs _ | E_amd_signal_read _ | E_amd_signal_write _
  | E_hsa_signal_load_relaxed _ _ | E_hsa_signal_store_screlease _ _
  | E_handler_load _ _ memory_order_seq_cst
  | E_call_context _ _ _ | E_call_simple _ _ _
  | E_hsa_signal_destroy _ | E_lock | E_unlock | E_list_erase _
  | E_delete_entry _ => true
  | _ => false
  end.

(** In the list [L] of operations every operation of the completion logic
    comes after an acquire load of [entry->handler] that returned the
    non-null [h], itself after the release store of [h]. *)
Definition guarded (e h : Z) (L : list event) : Prop :=
  forall l1 ev l2,
    L = l1 ++ ev :: l2 -> is_completion_event ev = true ->
    h <> NULL /\
    exists la lb lc,
      l1 = la ++ E_handler_store e h memory_order_release
              :: lb ++ E_handler_load e h memory_order_acquire :: lc.

(** *** A scheduler to run the two threads *)

Inductive action :=
| A_arm                                            (* next statement of [Enable] *)
| A_fire                                           (* the runtime calls [Handler] *)
| A_callback                                       (* next statement of [Handler] *)
| A_runtime (m : gmap Z amd_signal_t) (t : Z).     (* new signal memory and clock *)

(** Some registration for the entry [e] has its condition satisfied. *)
Definition can_fire (e : Z) (s : state) : bool :=
  existsb (fun reg =>
             (reg_arg reg =? e) &&
             match signals (hsa s) !! reg_signal reg with
             | Some sg => condition_holds (reg_cond reg) (value sg) (reg_value reg)
             | None => false
             end)
          (async_handlers (hsa s)).

Definition exec1 {RT : HsaRuntime} (e h a : Z) (act : action) (c : config)
  : option config :=
  match act with
  | A_arm =>
      match Enable_step e h a (arm c) (st c) with
      | Ok pc' s' => Some {| arm := pc'; cb := cb c; st := s' |}
      | _ => None
      end
  | A_fire =>
      match cb c with
      | CB_idle =>
          if can_fire e (st c)
          then Some {| arm := arm c; cb := CB_wait; st := st c |}
          else None
      | _ => None
      end
  | A_callback =>
      match Handler_step e (cb c) (st c) with
      | Ok pc' s' => Some {| arm := arm c; cb := pc'; st := s' |}
      | Raised status _ s' => Some {| arm := arm c; cb := CB_raised status; st := s' |}
      | _ => None
      end
  | A_runtime m t =>
      Some {| arm := arm c; cb := cb c;
              st := set_hsa {| signals := m;
                               async_handlers := async_handlers (hsa (st c));
                               host_clock := t |} (st c) |}
  end.

Fixpoint exec {RT : HsaRuntime} (e h a : Z) (acts : list action) (c : config)
  : option config :=
  match acts with
  | [] => Some c
  | act :: acts' =>
      match exec1 e h a act c with
      | Some c' => exec e h a acts' c'
      | None => None
      end
  end.

(** What holds of every configuration the two threads reach from a state
    [s0] in which the entry is allocated and not armed. *)
Definition race_inv (e h : Z) (s0 : state) (c : config) : Prop :=
  exists L,
    log (st c) = log s0 ++ L /\ guarded e h L /\
    if left_wait (cb c) then
      h <> NULL /\ published (arm c) = true /\
      exists la lb lc,
        L = la ++ E_handler_store e h memory_order_release
               :: lb ++ E_handler_load e h memory_order_acquire :: lc
    else
      exists y, entries (st c) !! e = Some y /\
        if published (arm c) then
          handler y = h /\
          exists la lb, L = la ++ E_handler_store e h memory_order_release :: lb
        else handler y = NULL.

(** ** Concrete states *)

(** A runtime that grants every request and reports the timestamps of
    the signal as dispatch times. *)
Definition rt_nominal : HsaRuntime :=
  {| signal_create_status := fun _ => HSA_STATUS_SUCCESS;
     async_handler_status := fun _ _ => HSA_STATUS_SUCCESS;
     profiling_get_dispatch_time := fun w _ sig =>
       match signals w !! handle sig with
       | Some x => (HSA_STATUS_SUCCESS, {| dt_start := start_ts x; dt_end := end_ts x |})
       | None => (HSA_STATUS_ERROR, {| dt_start := 0; dt_end := 0 |})
       end;
     SysclockToNs := fun t => 10 * t |}.

(** A new tracker; the signal 64 is the original signal of a dispatch. *)
Definition state_init : state :=
  {| this := 4096;
     self := {| sig_list_ := []; mutex_ := false; outstanding_ := 0 |};
     entries := ∅; records := ∅;
     hsa := {| signals := {[ 64 := {| value := 1; start_ts := 0; end_ts := 0 |} ]};
               async_handlers := []; host_clock := 1000 |};
     log := [] |}.


(** A runtime in which the creation of a signal fails. *)
Definition rt_no_signal : HsaRuntime :=
  {| signal_create_status := fun _ => HSA_STATUS_ERROR;
     async_handler_status := fun _ _ => HSA_STATUS_SUCCESS;
     profiling_get_dispatch_time := fun _ _ _ =>
       (HSA_STATUS_ERROR, {| dt_start := 0; dt_end := 0 |});
     SysclockToNs := fun t => t |}.

(** A runtime that answers no dispatch-time query. *)
Definition rt_no_times : HsaRuntime :=
  {| signal_create_status := fun _ => HSA_STATUS_SUCCESS;
     async_handler_status := fun _ _ => HSA_STATUS_SUCCESS;
     profiling_get_dispatch_time := fun _ _ _ =>
       (HSA_STATUS_ERROR, {| dt_start := 0; dt_end := 0 |});
     SysclockToNs := fun t => t |}.

Definition entry_1 : entry_t :=
  {| tracker := 4096; it := 1; agent := {| agent_handle := 7 |};
     orig := {| handle := 64 |}; signal := {| handle := 65 |}; record := 1;
     handler := NULL; arg := NULL; context_active := false |}.

(** [state_init] after [Alloc({7}, {64})]. *)
Definition state_allocated : state :=
  {| this := 4096;
     self := {| sig_list_ := [(1, 1)]; mutex_ := false; outstanding_ := 0 |};
     entries := {[ 1 := entry_1 ]};
     records := {[ 1 := {| dispatch := 1000; begin := 0; end_ := 0; complete := 0 |} ]};
     hsa := {| signals := <[ 65 := proxy_initial ]>
                            {[ 64 := {| value := 1; start_ts := 0; end_ts := 0 |} ]};
               async_handlers :=
                 [ {| reg_signal := 65; reg_cond := HSA_SIGNAL_CONDITION_LT;
                      reg_value := 1; reg_arg := 1 |} ];
               host_clock := 1000 |};
     log := [] |}.

Definition entry_1_armed : entry_t :=
  set_handler 500 (set_arg 77 (set_context_active true entry_1)).

(** [state_allocated] once the entry is armed with the context-style
    handler 500 and the argument 77, and the dispatch has completed: the
    device has stored the timestamps 11 and 22 and set the proxy signal
    to 0. *)
Definition state_fired : state :=
  {| this := 4096;
     self := {| sig_list_ := [(1, 1)]; mutex_ := false; outstanding_ := 0 |};
     entries := {[ 1 := entry_1_armed ]};
     records := {[ 1 := {| dispatch := 1000; begin := 0; end_ := 0; complete := 0 |} ]};
     hsa := {| signals := <[ 65 := {| value := 0; start_ts := 11; end_ts := 22 |} ]>
                            {[ 64 := {| value := 1; start_ts := 0; end_ts := 0 |} ]};
               async_handlers :=
                 [ {| reg_signal := 65; reg_cond := HSA_SIGNAL_CONDITION_LT;
                      reg_value := 1; reg_arg := 1 |} ];
               host_clock := 1200 |};
     log := [] |}.

(** An armed entry without an original signal. *)
Definition entry_1_null : entry_t := set_orig {| handle := 0 |} (set_handler 500 (set_arg 77 entry_1)).

Definition state_fired_null : state :=
  set_entries {[ 1 := entry_1_null ]} state_fired.

(** The dispatch completes and the runtime calls [Handler] before the
    allocating thread has begun [Enable]; [Handler] polls once in vain,
    [Enable] runs, [Handler] polls again and runs [Complete]. *)
Definition race_script : list action :=
  [ A_runtime (<[ 65 := {| value := 0; start_ts := 11; end_ts := 22 |} ]>
                 {[ 64 := {| value := 1; start_ts := 0; end_ts := 0 |} ]}) 1200;
    A_fire; A_callback; A_arm; A_arm; A_arm; A_callback; A_callback ].

Definition race_start : config :=
  {| arm := arm_entry true; cb := CB_idle; st := state_allocated |}.

Definition race_end : config :=
  match exec (RT := rt_nominal) 1 500 77 race_script race_start with
  | Some c => c
  | None => race_start
  end.

(** [state_init] after a successful [Alloc]. *)
Definition state_after_Alloc : state :=
  match Alloc (RT := rt_nominal) {| agent_handle := 7 |} {| handle := 64 |} state_init with
  | Ok _ s => s
  | _ => state_init
  end.

(** ** The discipline of the mutex *)

(** One operation seen by the mutex: [lock] needs it free, [unlock] needs
    it held, and the two operations that change [sig_list_] need it held;
    the result is whether the mutex is held afterwards. *)
Definition lock_event (held : bool) (ev : event) : option bool :=
  match ev with
  | E_lock => if held then None else Some true
  | E_unlock => if held then Some false else None
  | E_list_insert _ _ | E_list_erase _ => if held then Some true else None
  | _ => Some held
  end.

Fixpoint lock_trace (held : bool) (evs : list event) : option bool :=
  match evs with
  | [] => Some held
  | ev :: evs' =>
      match lock_event held ev with
      | Some held' => lock_trace held' evs'
      | None => None
      end
  end.

(** An operation that neither takes nor releases the mutex nor changes
    the list. *)
Definition lock_neutral (ev : event) : bool :=
  match ev with
  | E_lock | E_unlock | E_list_insert _ _ | E_list_erase _ => false
  | _ => true
  end.

(** From [s] to [s'] the list was changed under the mutex only, and the
    mutex is free again. *)
Definition disciplined (s s' : state) : Prop :=
  exists evs,
    log s' = log s ++ evs /\
    lock_trace false evs = Some false /\
    mutex_ (self s') = false.

(** From [s] to [s'] the tracker and its entries are as they were and the
    mutex and the list were not touched. *)
Definition aside (s s' : state) : Prop :=
  same_registry s s' /\
  exists evs, log s' = log s ++ evs /\ forallb lock_neutral evs = true.

(** ** A registry with two entries *)

Definition entry_2 : entry_t :=
  {| tracker := 4096; it := 2; agent := {| agent_handle := 7 |};
     orig := {| handle := 0 |}; signal := {| handle := 66 |}; record := 2;
     handler := 600; arg := 88; context_active := false |}.

(** Two armed dispatches: the later one (entry 2, proxy 66, no original
    signal) has completed, the earlier one (entry 1, proxy 65) has not. *)
Definition state_two : state :=
  {| this := 4096;
     self := {| sig_list_ := [(2, 2); (1, 1)]; mutex_ := false; outstanding_ := 0 |};
     entries := <[ 2 := entry_2 ]> {[ 1 := entry_1_armed ]};
     records := <[ 2 := {| dispatch := 1100; begin := 0; end_ := 0; complete := 0 |} ]>
                  {[ 1 := {| dispatch := 1000; begin := 0; end_ := 0; complete := 0 |} ]};
     hsa := {| signals :=
                 <[ 66 := {| value := 0; start_ts := 33; end_ts := 44 |} ]>
                   (<[ 65 := proxy_initial ]>
                      {[ 64 := {| value := 1; start_ts := 0; end_ts := 0 |} ]});
               async_handlers :=
                 [ {| reg_signal := 65; reg_cond := HSA_SIGNAL_CONDITION_LT;
                      reg_value := 1; reg_arg := 1 |};
                   {| reg_signal := 66; reg_cond := HSA_SIGNAL_CONDITION_LT;
                      reg_value := 1; reg_arg := 2 |} ];
               host_clock := 1300 |};
     log := [] |}.

(** ** A destructor that meets a pending dispatch *)

(** The entries of [done] have reached their threshold, the entry [e]
    has not, and every entry of the list has a proxy signal of its own. *)
Record drains_until (s : state) (done : sig_list_t) (e : Z) : Prop := {
  du_done : forall n' e' x', (n', e') ∈ done -> entries s !! e' = Some x' ->
            exists sg, signals (hsa s) !! handle (signal x') = Some sg /\ value sg < 1;
  du_pending : exists x sg, entries s !! e = Some x /\
               signals (hsa s) !! handle (signal x) = Some sg /\ 1 <= value sg;
  du_own : forall n1 e1 x1 n2 e2 x2,
           (n1, e1) ∈ sig_list_ (self s) -> (n2, e2) ∈ sig_list_ (self s) ->
           entries s !! e1 = Some x1 -> entries s !! e2 = Some x2 ->
           e1 <> e2 -> handle (signal x1) <> handle (signal x2)
}.

(** ** Points of the race between [Enable] and [Handler] *)

(** The configuration after the first [n] actions of a script. *)
Definition race_after (acts : list action) : config :=
  match exec (RT := rt_nominal) 1 500 77 acts race_start with
  | Some c => c
  | None => race_start
  end.

(** [Handler] polls while [Enable] has not begun. *)
Definition race_waiting : config := race_after (firstn 3 race_script).

(** [Enable] has stored the handler, [Handler] has not polled again. *)
Definition race_published : config := race_after (firstn 6 race_script).

(** [Handler] has returned and the entry is freed; [Enable] stands
    before its debug trace. *)
Definition race_freed : config := race_after (race_script ++ [A_callback; A_callback]).

(** ** More states of the registry with one and two entries *)

(** [state_after_Alloc] after a second successful [Alloc]. *)
Definition state_after_two_Allocs : state :=
  match Alloc (RT := rt_nominal) {| agent_handle := 8 |} {| handle := 0 |}
              state_after_Alloc with
  | Ok _ s => s
  | _ => state_after_Alloc
  end.

(** [state_after_Alloc] armed with the simple handler 500 and the
    argument 77. *)
Definition state_armed : state :=
  match Enable_rocprofiler_handler_t 1 500 77 state_after_Alloc with
  | Ok _ s => s
  | _ => state_after_Alloc
  end.

(** [state_allocated] after [Delete] of its entry. *)
Definition state_deleted : state :=
  match Delete 1 state_allocated with
  | Ok _ s => s
  | _ => state_allocated
  end.

(** ** Symbolic execution *)

Ltac unfold_prims :=
  unfold debug_trace, trace_on_;
  unfold call_hsa_amd_signal_handler, call_rocprofiler_handler_t, sched_yield,
    fprintf_trace;
  unfold entry_store, entry_load, handler_store, handler_load, delete_entry,
    new_entry_t, new_record_t, record_store, TimestampNs, SignalWait,
    amd_signal_load, amd_signal_store, hsa_signal_destroy,
    hsa_signal_load_relaxed, hsa_signal_store_screlease, mutex_lock,
    mutex_unlock, sig_list_begin, sig_list_insert_begin, sig_list_erase,
    sig_list_deref, sig_list_next, tell, EXC_RAISING, undefined, on_tracker,
    hsa_signal_create, hsa_amd_signal_async_handler,
    hsa_amd_profiling_get_dispatch_time, outstanding_fetch_add.

(** One step: the binds are opened, and the state is brought back to a
    record whose fields are written over those of the initial state. *)
Ltac sim :=
  unfold bind, ret; cbv beta iota;
  unfold emit, set_entries, set_self, set_hsa, set_records, set_log,
    set_sig_list, set_mutex, set_outstanding, set_signals, set_async_handlers;
  cbn [this self entries records hsa log sig_list_ mutex_ outstanding_
       signals async_handlers host_clock fst snd negb];
  rewrite ?insert_insert_eq.

Lemma state_ext s1 s2 :
  this s1 = this s2 -> self s1 = self s2 -> entries s1 = entries s2 ->
  records s1 = records s2 -> hsa s1 = hsa s2 -> log s1 = log s2 -> s1 = s2.
Proof. destruct s1, s2. cbn. intros. subst. reflexivity. Qed.

Lemma Tracker_ext t1 t2 :
  sig_list_ t1 = sig_list_ t2 -> mutex_ t1 = mutex_ t2 ->
  outstanding_ t1 = outstanding_ t2 -> t1 = t2.
Proof. destruct t1, t2. cbn. intros. subst. reflexivity. Qed.

Lemma hsa_ext w1 w2 :
  signals w1 = signals w2 -> async_handlers w1 = async_handlers w2 ->
  host_clock w1 = host_clock w2 -> w1 = w2.
Proof. destruct w1, w2. cbn. intros. subst. reflexivity. Qed.

Ltac proj_norm :=
  cbn [emit set_entries set_self set_hsa set_records set_log set_sig_list
       set_mutex set_outstanding set_signals set_async_handlers
       this self entries records hsa log sig_list_ mutex_ outstanding_
       signals async_handlers host_clock fst snd].

Ltac fold_hsa_created s :=
  change {| signals := <[next_signal (hsa s) := {| value := 1; start_ts := 0; end_ts := 0 |}]>
                         (signals (hsa s));
            async_handlers := async_handlers (hsa s);
            host_clock := host_clock (hsa s) |} with (hsa_created (hsa s)).

Ltac fin_field :=
  proj_norm; rewrite ?insert_insert_eq, <- ?app_assoc; reflexivity.

(** Closes [Ok a s1 = Ok a s2] and [Raised st w s1 = Raised st w s2] by
    comparing the two states field by field. *)
Ltac fin :=
  f_equal;
  apply state_ext;
  [ fin_field
  | first [ fin_field | apply Tracker_ext; fin_field ]
  | fin_field
  | fin_field
  | first [ fin_field | apply hsa_ext; fin_field ]
  | fin_field ].

Ltac look := first
  [ rewrite lookup_insert_eq
  | rewrite lookup_insert_ne by congruence
  | rewrite lookup_delete_eq
  | rewrite lookup_delete_ne by congruence ].

Lemma wrap64_id z :
  min_signal_value <= z <= max_signal_value -> wrap64 z = z.
Proof.
  unfold wrap64, min_signal_value, max_signal_value. intros Hz.
  rewrite Z.mod_small; lia.
Qed.

Lemma wrap64_range z : min_signal_value <= wrap64 z <= max_signal_value.
Proof.
  unfold wrap64, min_signal_value, max_signal_value.
  pose proof (Z.mod_pos_bound (z + 2 ^ 63) (2 ^ 64) ltac:(lia)). lia.
Qed.

Section CompleteFacts.

Context {RT : HsaRuntime}.

Lemma Complete_run_null s e x rc dt :
  entries s !! e = Some x ->
  records s !! record x = Some rc ->
  profiling_get_dispatch_time (hsa s) (agent x) (signal x) = (HSA_STATUS_SUCCESS, dt) ->
  handle (orig x) = 0 ->
  Complete e s =
  Ok tt (set_records (<[record x := stamped rc dt (host_clock (hsa s))]> (records s))
           (set_log (log s ++ record_events x (host_clock (hsa s))) s)).
Proof.
  intros He Hr Hq Ho.
  unfold Complete. unfold_prims. sim.
  repeat (first [rewrite He | rewrite Hq | rewrite Hr | rewrite Ho | look
                | rewrite Z.eqb_refl]; sim).
  unfold stamped, record_events. fin.
Qed.

Lemma Complete_run_forward s e x rc dt pg og :
  entries s !! e = Some x ->
  records s !! record x = Some rc ->
  profiling_get_dispatch_time (hsa s) (agent x) (signal x) = (HSA_STATUS_SUCCESS, dt) ->
  handle (orig x) <> 0 ->
  signals (hsa s) !! handle (signal x) = Some pg ->
  signals (hsa s) !! handle (orig x) = Some og ->
  Complete e s =
  Ok tt (set_hsa (set_signals (<[handle (orig x) := forwarded og pg]> (signals (hsa s))) (hsa s))
          (set_records (<[record x := stamped rc dt (host_clock (hsa s))]> (records s))
             (set_log (log s ++ record_events x (host_clock (hsa s))
                         ++ forward_events x (value og)) s))).
Proof.
  intros He Hr Hq Ho Hp Hg.
  unfold Complete. unfold_prims. sim.
  repeat (first [rewrite He | rewrite Hq | rewrite Hr | look
                | rewrite Z.eqb_refl]; sim).
  destruct (handle (orig x) =? 0) eqn:E; [apply Z.eqb_eq in E; contradiction|].
  sim. rewrite Hp. sim. rewrite Hg. sim.
  destruct (decide (handle (orig x) = handle (signal x))) as [Heq|Hne].
  - unfold stamped, forwarded, record_events, forward_events.
    rewrite <- Heq in *. repeat (look; sim).
    assert (pg = og) by congruence. subst pg. fin.
  - repeat (look; sim). rewrite Hp. sim. repeat (look; sim).
    unfold stamped, forwarded, record_events, forward_events. fin.
Qed.

End CompleteFacts.

Section MethodFacts.

Context {RT : HsaRuntime}.

Lemma Complete_run_raise s e x :
  entries s !! e = Some x ->
  fst (profiling_get_dispatch_time (hsa s) (agent x) (signal x)) <> HSA_STATUS_SUCCESS ->
  Complete e s =
  Raised (fst (profiling_get_dispatch_time (hsa s) (agent x) (signal x)))
    "hsa_amd_profiling_get_dispatch_time"
    (emit (E_hsa_amd_profiling_get_dispatch_time (agent_handle (agent x))
             (handle (signal x))
             (fst (profiling_get_dispatch_time (hsa s) (agent x) (signal x)))) s).
Proof.
  intros He Hq.
  unfold Complete. unfold_prims. sim.
  repeat (rewrite He; sim).
  apply Z.eqb_neq in Hq. rewrite Hq. sim. reflexivity.
Qed.

Lemma Delete_run s e x l' :
  entries s !! e = Some x ->
  mutex_ (self s) = false ->
  list_erase (sig_list_ (self s)) (it x) = Some l' ->
  Delete e s =
  Ok tt (set_entries (delete e (entries s))
          (set_hsa (set_signals (delete (handle (signal x)) (signals (hsa s))) (hsa s))
             (set_self (set_mutex false (set_sig_list l' (self s)))
                (set_log (log s ++ delete_events e x) s)))).
Proof.
  intros He Hm Hl.
  unfold Delete. unfold_prims. sim.
  repeat (first [rewrite He | rewrite Hm | rewrite Hl]; sim).
  unfold delete_events. fin.
Qed.

Lemma Handler_call_run s e x :
  entries s !! e = Some x ->
  handler x <> NULL ->
  Handler_call e s =
  Ok tt (set_log (log s ++ [E_handler_load e (handler x) memory_order_seq_cst;
                            call_event x]) s).
Proof.
  intros He Hh. apply Z.eqb_neq in Hh.
  unfold Handler_call, call_event. unfold_prims. sim.
  repeat (rewrite He; sim).
  destruct (context_active x); sim; repeat (rewrite He; sim);
    rewrite Hh; sim; fin.
Qed.

Lemma Handler_wait_armed fuel s e x :
  entries s !! e = Some x ->
  handler x <> NULL ->
  Handler_wait (S fuel) e s =
  Ok tt (emit (E_handler_load e (handler x) memory_order_acquire) s).
Proof.
  intros He Hh. apply Z.eqb_neq in Hh.
  cbn [Handler_wait]. unfold_prims. sim. rewrite He. sim. rewrite Hh. reflexivity.
Qed.

(** With nothing else running, the wait on an unarmed entry only ever
    repeats the load. *)
Lemma Handler_wait_unarmed fuel : forall s e x,
  entries s !! e = Some x ->
  handler x = NULL ->
  Handler_wait fuel e s = OutOfFuel.
Proof.
  induction fuel as [|fuel IH]; intros s e x He Hh; [reflexivity|].
  cbn [Handler_wait]. unfold handler_load, sched_yield, tell. sim. rewrite He. sim.
  rewrite Hh. change (NULL =? NULL) with true. sim.
  apply (IH _ e x); [exact He | exact Hh].
Qed.

Lemma Enable_run s e x h a :
  entries s !! e = Some x ->
  Enable e h a s =
  Ok tt (set_entries (<[e := set_handler h (set_arg a x)]> (entries s))
          (set_log (log s ++ [E_entry_write e f_arg;
                              E_handler_store e h memory_order_release]) s)).
Proof.
  intros He. unfold Enable. unfold_prims. sim.
  rewrite He. sim. look. sim. fin.
Qed.

Lemma Enable_context_run s e x h a :
  entries s !! e = Some x ->
  Enable_hsa_amd_signal_handler e h a s =
  Ok tt (set_entries
           (<[e := set_handler h (set_arg a (set_context_active true x))]> (entries s))
          (set_log (log s ++ [E_entry_write e f_context_active;
                              E_entry_write e f_arg;
                              E_handler_store e h memory_order_release]) s)).
Proof.
  intros He. unfold Enable_hsa_amd_signal_handler.
  unfold entry_store at 1. sim. rewrite He.
  erewrite Enable_run by (sim; look; reflexivity). fin.
Qed.

Lemma Alloc_run s ag og :
  signal_create_status (hsa s) = HSA_STATUS_SUCCESS ->
  async_handler_status (hsa_created (hsa s)) {| handle := next_signal (hsa s) |}
    = HSA_STATUS_SUCCESS ->
  mutex_ (self s) = false ->
  Alloc ag og s =
  Ok (next_entry s)
     (set_entries (<[next_entry s := alloc_entry s ag og]> (entries s))
        (set_records (<[next_record s := alloc_record s]> (records s))
           (set_hsa (hsa_registered (hsa s) (next_entry s))
              (set_self (set_mutex false
                           (set_sig_list ((next_node s, next_entry s) :: sig_list_ (self s))
                              (self s)))
                 (set_log (log s ++ alloc_events s) s))))).
Proof.
  intros Hc Ha Hm.
  unfold Alloc. unfold_prims. sim.
  fold (next_entry s). fold (next_record s).
  repeat (first [look | rewrite Hc | rewrite Z.eqb_refl]; sim).
  fold (next_signal (hsa s)).
  cbn [signal set_signal handle].
  fold_hsa_created s.
  repeat (first [rewrite Ha | rewrite Z.eqb_refl | rewrite Hm | look]; sim).
  unfold alloc_entry, alloc_record, alloc_events, alloc_prefix, hsa_registered,
    hsa_created, next_node. fin.
Qed.

Lemma Alloc_run_create_fails s ag og :
  signal_create_status (hsa s) <> HSA_STATUS_SUCCESS ->
  Alloc ag og s =
  Raised (signal_create_status (hsa s)) "hsa_signal_create"
    (set_entries (<[next_entry s :=
                      set_record (next_record s)
                        (set_orig og (set_agent ag (set_tracker (this s) entry_zero)))]>
                    (entries s))
       (set_records (<[next_record s := alloc_record s]> (records s))
          (set_log (log s ++ alloc_prefix s ++
                      [E_hsa_signal_create 1 (signal_create_status (hsa s)) NULL]) s))).
Proof.
  intros Hc. apply Z.eqb_neq in Hc.
  unfold Alloc. unfold_prims. sim.
  fold (next_entry s). fold (next_record s).
  repeat (first [look | rewrite Hc]; sim).
  unfold alloc_record, alloc_prefix. fin.
Qed.

Lemma Alloc_run_register_fails s ag og :
  signal_create_status (hsa s) = HSA_STATUS_SUCCESS ->
  async_handler_status (hsa_created (hsa s)) {| handle := next_signal (hsa s) |}
    <> HSA_STATUS_SUCCESS ->
  Alloc ag og s =
  Raised (async_handler_status (hsa_created (hsa s)) {| handle := next_signal (hsa s) |})
    "hsa_amd_signal_async_handler"
    (set_entries (<[next_entry s := set_it list_end (alloc_entry s ag og)]> (entries s))
       (set_records (<[next_record s := alloc_record s]> (records s))
          (set_hsa (hsa_created (hsa s))
             (set_log (log s ++ alloc_prefix s ++
                [E_hsa_signal_create 1 HSA_STATUS_SUCCESS (next_signal (hsa s));
                 E_hsa_amd_signal_async_handler (next_signal (hsa s))
                   HSA_SIGNAL_CONDITION_LT 1 (next_entry s)
                   (async_handler_status (hsa_created (hsa s))
                      {| handle := next_signal (hsa s) |})]) s)))).
Proof.
  intros Hc Ha. apply Z.eqb_neq in Ha.
  unfold Alloc. unfold_prims. sim.
  fold (next_entry s). fold (next_record s).
  repeat (first [look | rewrite Hc | rewrite Z.eqb_refl]; sim).
  fold (next_signal (hsa s)).
  cbn [signal set_signal handle].
  fold_hsa_created s.
  repeat (rewrite Ha; sim).
  unfold alloc_entry, alloc_record, alloc_prefix, set_it. fin.
Qed.

End MethodFacts.

(** ** Fresh addresses and list nodes *)

Lemma fresh_above_gt ks k : k ∈ ks -> k < fresh_above ks.
Proof.
  unfold fresh_above. induction ks as [|a ks IH]; intros Hk.
  - inversion Hk.
  - cbn [foldr]. apply elem_of_cons in Hk as [->|Hk]; [lia|].
    specialize (IH Hk). lia.
Qed.

Lemma fresh_above_pos ks : 0 < fresh_above ks.
Proof.
  unfold fresh_above. induction ks as [|a ks IH]; cbn [foldr]; lia.
Qed.

Lemma fresh_above_dom {A} (m : gmap Z A) :
  m !! fresh_above (elements (dom m)) = None.
Proof.
  destruct (m !! fresh_above (elements (dom m))) eqn:E; [|reflexivity].
  assert (fresh_above (elements (dom m)) ∈ elements (dom m)) as Hin.
  { apply elem_of_elements, elem_of_dom. eauto. }
  apply fresh_above_gt in Hin. lia.
Qed.

Lemma next_entry_fresh s : entries s !! next_entry s = None.
Proof. apply fresh_above_dom. Qed.

Lemma next_signal_fresh w : signals w !! next_signal w = None.
Proof. apply fresh_above_dom. Qed.

Lemma next_node_fresh s e : (next_node s, e) ∉ sig_list_ (self s).
Proof.
  intros Hin. unfold next_node in Hin.
  assert (fresh_above (map fst (sig_list_ (self s))) ∈ map fst (sig_list_ (self s))) as H.
  { apply (list_elem_of_fmap_2 fst) in Hin. exact Hin. }
  apply fresh_above_gt in H. lia.
Qed.

Lemma next_node_not_end s : next_node s <> list_end.
Proof. unfold next_node, list_end. pose proof (fresh_above_pos (map fst (sig_list_ (self s)))). lia. Qed.

Lemma elem_of_without_node n l p :
  p ∈ without_node n l <-> p ∈ l /\ fst p <> n.
Proof.
  unfold without_node. rewrite !list_elem_of_In, filter_In.
  rewrite negb_true_iff, Z.eqb_neq. reflexivity.
Qed.

Lemma without_node_absent n l :
  n ∉ map fst l -> without_node n l = l.
Proof.
  induction l as [|[m e] l IH]; intros Hn; [reflexivity|].
  cbn [map fst] in Hn. apply not_elem_of_cons in Hn as [Hne Hn].
  unfold without_node in *. cbn [List.filter fst].
  destruct (m =? n) eqn:E; [apply Z.eqb_eq in E; congruence|].
  cbn [negb]. rewrite IH by exact Hn. reflexivity.
Qed.

Lemma list_erase_spec l n :
  NoDup (map fst l) ->
  n ∈ map fst l ->
  list_erase l n = Some (without_node n l).
Proof.
  induction l as [|[m e] l IH]; intros Hnd Hin.
  - inversion Hin.
  - cbn [map fst] in Hnd, Hin. apply NoDup_cons in Hnd as [Hm Hnd].
    cbn [list_erase]. unfold without_node. cbn [List.filter fst].
    destruct (m =? n) eqn:E.
    + apply Z.eqb_eq in E. subst m. cbn [negb].
      fold (without_node n l). rewrite without_node_absent by exact Hm. reflexivity.
    + apply Z.eqb_neq in E. cbn [negb].
      apply elem_of_cons in Hin as [Hin|Hin]; [congruence|].
      fold (without_node n l). rewrite IH by assumption. reflexivity.
Qed.

Lemma list_erase_Some l n l' :
  list_erase l n = Some l' -> n ∈ map fst l.
Proof.
  revert l'. induction l as [|[m e] l IH]; intros l' H; [discriminate|].
  cbn [list_erase] in H. cbn [map fst].
  destruct (m =? n) eqn:E.
  - apply Z.eqb_eq in E. subst. apply elem_of_cons. left. reflexivity.
  - destruct (list_erase l n) eqn:E2; [|discriminate].
    apply elem_of_cons. right. eapply IH. reflexivity.
Qed.

Lemma list_deref_spec l n e :
  NoDup (map fst l) -> (n, e) ∈ l -> list_deref l n = Some e.
Proof.
  induction l as [|[m e'] l IH]; intros Hnd Hin.
  - inversion Hin.
  - cbn [map fst] in Hnd. apply NoDup_cons in Hnd as [Hm Hnd].
    cbn [list_deref]. destruct (m =? n) eqn:E.
    + apply Z.eqb_eq in E. subst m.
      apply elem_of_cons in Hin as [Hin|Hin]; [congruence|].
      exfalso. apply Hm. apply (list_elem_of_fmap_2 fst) in Hin. exact Hin.
    + apply Z.eqb_neq in E.
      apply elem_of_cons in Hin as [Hin|Hin]; [congruence|]. auto.
Qed.

Lemma NoDup_without_node n l :
  NoDup (map fst l) -> NoDup (map fst (without_node n l)).
Proof.
  induction l as [|[m e] l IH]; intros Hnd; [constructor|].
  cbn [map fst] in Hnd. apply NoDup_cons in Hnd as [Hm Hnd].
  unfold without_node. cbn [List.filter fst].
  destruct (negb (m =? n)); [|apply IH; exact Hnd].
  cbn [map fst]. apply NoDup_cons. split; [|apply IH; exact Hnd].
  intros Hin. apply Hm.
  apply list_elem_of_fmap in Hin as [[m' e'] [-> Hin]].
  apply elem_of_without_node in Hin as [Hin _].
  apply (list_elem_of_fmap_2 fst) in Hin. exact Hin.
Qed.

(** ** Outcomes *)

Lemma bind_Ok_inv {A B} (c : M A) (k : A -> M B) s b s' :
  bind c k s = Ok b s' -> exists a s1, c s = Ok a s1 /\ k a s1 = Ok b s'.
Proof. unfold bind. destruct (c s); try discriminate. eauto. Qed.

Lemma bind_Raised_inv {A B} (c : M A) (k : A -> M B) s st w s' :
  bind c k s = Raised st w s' ->
  c s = Raised st w s' \/ exists a s1, c s = Ok a s1 /\ k a s1 = Raised st w s'.
Proof.
  unfold bind. destruct (c s) as [a s1|st' w' s1| |s1|]; try discriminate; intros H.
  - right. eauto.
  - left. inversion H; subst. reflexivity.
Qed.

Lemma lift_bind {A B} (P : state -> Prop) (c : M A) (k : A -> M B) s :
  lift P (c s) ->
  (forall a s1, c s = Ok a s1 -> lift P (k a s1)) ->
  lift P (bind c k s).
Proof. unfold bind. destruct (c s); cbn [lift]; auto. Qed.

Lemma keeps_bind {A B} (R : state -> state -> Prop) (c : M A) (k : A -> M B) :
  (forall s, R s s) ->
  (forall s1 s2 s3, R s1 s2 -> R s2 s3 -> R s1 s3) ->
  keeps R c -> (forall a, keeps R (k a)) -> keeps R (bind c k).
Proof.
  intros Hrefl Htrans Hc Hk s. unfold bind. specialize (Hc s).
  destruct (c s) as [a s1| | | |]; cbn [lift] in *; auto.
  specialize (Hk a s1). destruct (k a s1); cbn [lift] in *; eauto.
Qed.

Lemma log_extends_refl s : log_extends s s.
Proof. exists []. rewrite app_nil_r. reflexivity. Qed.

Lemma log_extends_trans s1 s2 s3 :
  log_extends s1 s2 -> log_extends s2 s3 -> log_extends s1 s3.
Proof.
  intros [l1 H1] [l2 H2]. exists (l1 ++ l2). rewrite H2, H1, app_assoc. reflexivity.
Qed.

Lemma same_registry_refl s : same_registry s s.
Proof. repeat split. Qed.

Lemma same_registry_trans s1 s2 s3 :
  same_registry s1 s2 -> same_registry s2 s3 -> same_registry s1 s3.
Proof. unfold same_registry. intros (?&?&?) (?&?&?). repeat split; congruence. Qed.

Lemma registry_wf_same s s' : same_registry s s' -> registry_wf s -> registry_wf s'.
Proof.
  intros (_ & Hs & He) [H1 H2 H3 H4 H5].
  split; rewrite ?Hs, ?He; auto.
Qed.

Lemma quiet_refl s : quiet s s.
Proof. split; [apply same_registry_refl | apply log_extends_refl]. Qed.

Lemma quiet_trans s1 s2 s3 : quiet s1 s2 -> quiet s2 s3 -> quiet s1 s3.
Proof.
  intros [A1 B1] [A2 B2].
  split; [eapply same_registry_trans | eapply log_extends_trans]; eassumption.
Qed.

Lemma log_extends_emit ev s : log_extends s (emit ev s).
Proof. exists [ev]. reflexivity. Qed.

Create HintDb frame.

#[local] Hint Resolve log_extends_refl log_extends_trans quiet_refl quiet_trans
  same_registry_refl log_extends_emit : frame.

Ltac frame_prim :=
  intros s; unfold_prims; cbv beta;
  repeat match goal with
         | |- context [match ?o with Some _ => _ | None => _ end] => destruct o
         | |- context [if ?b then _ else _] => destruct b
         end;
  cbn [lift]; try exact I;
  try solve [ apply log_extends_refl | apply quiet_refl
            | eexists; cbn [log emit set_entries set_self set_hsa set_records];
              reflexivity
            | split; [repeat split | eexists;
                cbn [log emit set_entries set_self set_hsa set_records]; reflexivity] ].

Ltac frame_bind R_refl R_trans :=
  repeat first
    [ apply keeps_bind; [exact R_refl | exact R_trans | | intros ?]
    | match goal with
      | |- keeps _ (if ?b then _ else _) => destruct b
      | |- keeps _ (let _ := _ in _) => cbv zeta
      end ].

Section Frames.

Context {RT : HsaRuntime}.

Lemma keeps_ret {A} R (a : A) : (forall s, R s s) -> keeps R (ret a).
Proof. intros H s. apply H. Qed.

Lemma keeps_on_tracker {A} R t (c : M A) : keeps R c -> keeps R (on_tracker t c).
Proof.
  intros H s. unfold on_tracker. destruct (t =? this s); [apply H | exact I].
Qed.

Lemma entry_load_quiet {A} e (proj : entry_t -> A) : keeps quiet (entry_load e proj).
Proof. frame_prim. Qed.
Lemma handler_load_quiet e mo : keeps quiet (handler_load e mo).
Proof. frame_prim. Qed.
Lemma sched_yield_quiet : keeps quiet sched_yield.
Proof. frame_prim. Qed.
Lemma record_store_quiet r upd : keeps quiet (record_store r upd).
Proof. frame_prim. Qed.
Lemma TimestampNs_quiet : keeps quiet TimestampNs.
Proof. frame_prim. Qed.
Lemma amd_signal_load_quiet {A} p (proj : amd_signal_t -> A) :
  keeps quiet (amd_signal_load p proj).
Proof. frame_prim. Qed.
Lemma amd_signal_store_quiet p upd : keeps quiet (amd_signal_store p upd).
Proof. frame_prim. Qed.
Lemma hsa_signal_load_relaxed_quiet sig : keeps quiet (hsa_signal_load_relaxed sig).
Proof. frame_prim. Qed.
Lemma hsa_signal_store_screlease_quiet sig v :
  keeps quiet (hsa_signal_store_screlease sig v).
Proof. frame_prim. Qed.
Lemma get_dispatch_time_quiet ag sig :
  keeps quiet (hsa_amd_profiling_get_dispatch_time ag sig).
Proof. frame_prim. Qed.
Lemma EXC_RAISING_quiet {A} st w : keeps quiet (@EXC_RAISING A st w).
Proof. frame_prim. Qed.
Lemma call_context_quiet h v a : keeps quiet (call_hsa_amd_signal_handler h v a).
Proof. frame_prim. Qed.
Lemma call_simple_quiet h g a : keeps quiet (call_rocprofiler_handler_t h g a).
Proof. frame_prim. Qed.
Lemma debug_trace_quiet e d : keeps quiet (debug_trace e d).
Proof. frame_prim. Qed.

#[local] Hint Resolve entry_load_quiet handler_load_quiet sched_yield_quiet
  record_store_quiet TimestampNs_quiet amd_signal_load_quiet
  amd_signal_store_quiet hsa_signal_load_relaxed_quiet
  hsa_signal_store_screlease_quiet get_dispatch_time_quiet EXC_RAISING_quiet
  call_context_quiet call_simple_quiet debug_trace_quiet : frame.

Lemma Complete_quiet e : keeps quiet (Complete e).
Proof.
  unfold Complete. frame_bind quiet_refl quiet_trans;
    auto using keeps_ret with frame.
Qed.

Lemma Handler_call_quiet e : keeps quiet (Handler_call e).
Proof.
  unfold Handler_call. frame_bind quiet_refl quiet_trans;
    auto using keeps_ret with frame.
Qed.

Lemma Handler_wait_quiet fuel e : keeps quiet (Handler_wait fuel e).
Proof.
  induction fuel as [|fuel IH]; cbn [Handler_wait]; [intros s; exact I|].
  frame_bind quiet_refl quiet_trans; auto using keeps_ret with frame.
Qed.

Lemma entry_store_log e f upd : keeps log_extends (entry_store e f upd).
Proof. frame_prim. Qed.
Lemma handler_store_log e h mo : keeps log_extends (handler_store e h mo).
Proof. frame_prim. Qed.
Lemma hsa_signal_destroy_log sig : keeps log_extends (hsa_signal_destroy sig).
Proof. frame_prim. Qed.
Lemma mutex_lock_log : keeps log_extends mutex_lock.
Proof. frame_prim. Qed.
Lemma mutex_unlock_log : keeps log_extends mutex_unlock.
Proof. frame_prim. Qed.
Lemma sig_list_erase_log i : keeps log_extends (sig_list_erase i).
Proof. frame_prim. Qed.
Lemma delete_entry_log e : keeps log_extends (delete_entry e).
Proof. frame_prim. Qed.

Lemma keeps_quiet_log {A} (c : M A) : keeps quiet c -> keeps log_extends c.
Proof.
  intros H s. specialize (H s). destruct (c s); cbn [lift] in *; try exact I; apply H.
Qed.

#[local] Hint Resolve entry_store_log handler_store_log hsa_signal_destroy_log
  mutex_lock_log mutex_unlock_log sig_list_erase_log delete_entry_log : frame.

Lemma Delete_log e : keeps log_extends (Delete e).
Proof.
  unfold Delete. frame_bind log_extends_refl log_extends_trans;
    auto using keeps_quiet_log with frame.
Qed.

End Frames.

#[local] Hint Resolve entry_load_quiet handler_load_quiet sched_yield_quiet
  call_context_quiet call_simple_quiet
  Complete_quiet Handler_call_quiet Delete_log keeps_on_tracker keeps_quiet_log
  entry_store_log handler_store_log : frame.

(** ** The registry invariant is kept by every member function *)

Lemma node_unique (l : sig_list_t) n e1 e2 :
  NoDup (map fst l) -> (n, e1) ∈ l -> (n, e2) ∈ l -> e1 = e2.
Proof.
  intros Hnd H1 H2.
  apply (list_deref_spec _ _ _ Hnd) in H1.
  apply (list_deref_spec _ _ _ Hnd) in H2. congruence.
Qed.

Lemma registry_wf_runtime s w : registry_wf s -> registry_wf (set_hsa w s).
Proof. intros [H1 H2 H3 H4 H5]. split; assumption. Qed.

Lemma registry_wf_ctor s : self s = Tracker_ctor -> entries s = ∅ -> registry_wf s.
Proof.
  intros Hs He. split; rewrite ?Hs, ?He; cbn [sig_list_ mutex_ Tracker_ctor map].
  - constructor.
  - intros n e H. inversion H.
  - intros n e H. inversion H.
  - intros e x H. rewrite lookup_empty in H. discriminate.
  - reflexivity.
Qed.

(** In a well-formed registry the entry [e] is in the list exactly when
    its [it] is the address of a node. *)
Lemma wf_erasable s e x l' :
  registry_wf s ->
  entries s !! e = Some x ->
  list_erase (sig_list_ (self s)) (it x) = Some l' ->
  (it x, e) ∈ sig_list_ (self s) /\ l' = without_node (it x) (sig_list_ (self s)).
Proof.
  intros Hwf He Hl.
  pose proof (list_erase_Some _ _ _ Hl) as Hin.
  rewrite (list_erase_spec _ _ (wf_nodes _ Hwf) Hin) in Hl.
  split; [|congruence].
  destruct (wf_listed _ Hwf _ _ He) as [H0|H]; [|exact H].
  apply list_elem_of_fmap in Hin as [[n e'] [Hn Hin]]. cbn [fst] in Hn. subst n.
  exfalso. eapply wf_not_end; [exact Hwf | exact Hin | exact H0].
Qed.

Lemma registry_wf_erase s e x w lg :
  registry_wf s ->
  entries s !! e = Some x ->
  (it x, e) ∈ sig_list_ (self s) ->
  registry_wf
    (set_entries (delete e (entries s))
       (set_hsa w
          (set_self (set_mutex false
                       (set_sig_list (without_node (it x) (sig_list_ (self s))) (self s)))
             (set_log lg s)))).
Proof.
  intros Hwf He Hin.
  split; cbn [set_entries set_hsa set_self set_log set_mutex set_sig_list
              self entries sig_list_ mutex_].
  - apply NoDup_without_node, Hwf.
  - intros n e' H. apply elem_of_without_node in H as [H _].
    eapply wf_not_end; eassumption.
  - intros n e' H. apply elem_of_without_node in H as [H Hn]. cbn [fst] in Hn.
    destruct (wf_position _ Hwf _ _ H) as (x' & Hx' & Hit).
    exists x'. split; [|exact Hit].
    rewrite lookup_delete_ne; [exact Hx'|]. intros ->.
    assert (x' = x) by congruence. subst x'. congruence.
  - intros e' x' H.
    destruct (decide (e = e')) as [->|Hne]; [rewrite lookup_delete_eq in H; discriminate|].
    rewrite lookup_delete_ne in H by exact Hne.
    destruct (wf_listed _ Hwf _ _ H) as [H0|Hl]; [left; exact H0|].
    right. apply elem_of_without_node. split; [exact Hl|]. cbn [fst].
    intros Heq. rewrite Heq in Hl.
    apply Hne. symmetry. eapply node_unique; [apply Hwf | exact Hl | exact Hin].
  - reflexivity.
Qed.

Lemma registry_wf_update s e x y lg :
  registry_wf s ->
  entries s !! e = Some x ->
  it y = it x ->
  registry_wf (set_entries (<[e := y]> (entries s)) (set_log lg s)).
Proof.
  intros Hwf He Hit.
  split; cbn [set_entries set_log self entries]; try apply Hwf.
  - intros n e' H. destruct (wf_position _ Hwf _ _ H) as (x' & Hx' & Hn).
    destruct (decide (e = e')) as [->|Hne].
    + exists y. rewrite lookup_insert_eq. split; [reflexivity|]. congruence.
    + exists x'. rewrite lookup_insert_ne by exact Hne. auto.
  - intros e' x' H. destruct (decide (e = e')) as [->|Hne].
    + rewrite lookup_insert_eq in H. inversion H; subst x'. rewrite Hit.
      eapply wf_listed; eassumption.
    + rewrite lookup_insert_ne in H by exact Hne. eapply wf_listed; eassumption.
Qed.

Lemma registry_wf_unlisted s y m w lg :
  registry_wf s ->
  it y = list_end ->
  registry_wf
    (set_entries (<[next_entry s := y]> (entries s))
       (set_records m (set_hsa w (set_log lg s)))).
Proof.
  intros Hwf Hit.
  split; cbn [set_entries set_records set_hsa set_log self entries]; try apply Hwf.
  - intros n e H. destruct (wf_position _ Hwf _ _ H) as (x & Hx & Hn).
    exists x. split; [|exact Hn].
    rewrite lookup_insert_ne; [exact Hx|]. intros Heq.
    rewrite <- Heq, next_entry_fresh in Hx. discriminate.
  - intros e x H. destruct (decide (next_entry s = e)) as [<-|Hne].
    + rewrite lookup_insert_eq in H. inversion H; subst. left. exact Hit.
    + rewrite lookup_insert_ne in H by exact Hne. eapply wf_listed; eassumption.
Qed.

Lemma registry_wf_insert s y m w lg :
  registry_wf s ->
  it y = next_node s ->
  registry_wf
    (set_entries (<[next_entry s := y]> (entries s))
       (set_records m
          (set_hsa w
             (set_self (set_mutex false
                          (set_sig_list ((next_node s, next_entry s) :: sig_list_ (self s))
                             (self s)))
                (set_log lg s))))).
Proof.
  intros Hwf Hit.
  split; cbn [set_entries set_records set_hsa set_self set_log set_mutex
              set_sig_list self entries sig_list_ mutex_].
  - cbn [map fst]. apply NoDup_cons. split; [|apply Hwf].
    intros Hin. apply list_elem_of_fmap in Hin as [[n e] [Hn Hin]].
    cbn [fst] in Hn. subst n. eapply next_node_fresh. exact Hin.
  - intros n e H. apply elem_of_cons in H as [H|H].
    + inversion H; subst. apply next_node_not_end.
    + eapply wf_not_end; eassumption.
  - intros n e H. apply elem_of_cons in H as [H|H].
    + inversion H; subst. exists y. rewrite lookup_insert_eq. auto.
    + destruct (wf_position _ Hwf _ _ H) as (x & Hx & Hn).
      exists x. split; [|exact Hn].
      rewrite lookup_insert_ne; [exact Hx|]. intros Heq.
      rewrite <- Heq, next_entry_fresh in Hx. discriminate.
  - intros e x H. destruct (decide (next_entry s = e)) as [<-|Hne].
    + rewrite lookup_insert_eq in H. inversion H; subst. right. rewrite Hit.
      apply elem_of_cons. left. reflexivity.
    + rewrite lookup_insert_ne in H by exact Hne.
      destruct (wf_listed _ Hwf _ _ H) as [H0|Hl]; [left; exact H0|].
      right. apply elem_of_cons. right. exact Hl.
  - reflexivity.
Qed.

Section Invariant.

Context {RT : HsaRuntime}.

Lemma Alloc_wf s ag og : registry_wf s -> lift registry_wf (Alloc ag og s).
Proof.
  intros Hwf.
  destruct (decide (signal_create_status (hsa s) = HSA_STATUS_SUCCESS)) as [Hc|Hc].
  - destruct (decide (async_handler_status (hsa_created (hsa s))
                        {| handle := next_signal (hsa s) |} = HSA_STATUS_SUCCESS))
      as [Ha|Ha].
    + rewrite (Alloc_run _ _ _ Hc Ha (wf_mutex _ Hwf)). cbn [lift].
      apply registry_wf_insert; [exact Hwf | reflexivity].
    + rewrite (Alloc_run_register_fails _ _ _ Hc Ha). cbn [lift].
      apply registry_wf_unlisted; [exact Hwf | reflexivity].
  - rewrite (Alloc_run_create_fails _ _ _ Hc). cbn [lift].
    apply (registry_wf_unlisted s _ _ (hsa s)); [exact Hwf | reflexivity].
Qed.

Lemma Delete_Undefined_dead s e : entries s !! e = None -> Delete e s = Undefined.
Proof. intros He. unfold Delete. unfold_prims. sim. rewrite He. reflexivity. Qed.

Lemma Delete_Undefined_unlisted s e x :
  entries s !! e = Some x ->
  mutex_ (self s) = false ->
  list_erase (sig_list_ (self s)) (it x) = None ->
  Delete e s = Undefined.
Proof.
  intros He Hm Hl. unfold Delete. unfold_prims. sim.
  repeat (first [rewrite He | rewrite Hm | rewrite Hl]; sim). reflexivity.
Qed.

Lemma Delete_wf s e : registry_wf s -> lift registry_wf (Delete e s).
Proof.
  intros Hwf.
  destruct (entries s !! e) as [x|] eqn:He;
    [|rewrite Delete_Undefined_dead by exact He; exact I].
  destruct (list_erase (sig_list_ (self s)) (it x)) as [l'|] eqn:Hl;
    [|rewrite (Delete_Undefined_unlisted _ _ _ He (wf_mutex _ Hwf) Hl); exact I].
  rewrite (Delete_run _ _ _ _ He (wf_mutex _ Hwf) Hl). cbn [lift].
  destruct (wf_erasable _ _ _ _ Hwf He Hl) as [Hin ->].
  apply registry_wf_erase; assumption.
Qed.

Lemma Enable_wf s e h a : registry_wf s -> lift registry_wf (Enable e h a s).
Proof.
  intros Hwf. destruct (entries s !! e) as [x|] eqn:He.
  - rewrite (Enable_run _ _ _ _ _ He). cbn [lift].
    eapply registry_wf_update; [exact Hwf | exact He | reflexivity].
  - unfold Enable. unfold_prims. sim. rewrite He. exact I.
Qed.

Lemma Enable_context_wf s e h a :
  registry_wf s -> lift registry_wf (Enable_hsa_amd_signal_handler e h a s).
Proof.
  intros Hwf. destruct (entries s !! e) as [x|] eqn:He.
  - rewrite (Enable_context_run _ _ _ _ _ He). cbn [lift].
    eapply registry_wf_update; [exact Hwf | exact He | reflexivity].
  - unfold Enable_hsa_amd_signal_handler. unfold_prims. sim. rewrite He. exact I.
Qed.

Lemma keeps_quiet_wf {A} (c : M A) s :
  keeps quiet c -> registry_wf s -> lift registry_wf (c s).
Proof.
  intros H Hwf. specialize (H s).
  destruct (c s); cbn [lift] in *; try exact I;
    (eapply registry_wf_same; [apply H | exact Hwf]).
Qed.

Lemma Handler_wf s fuel v e : registry_wf s -> lift registry_wf (Handler fuel v e s).
Proof.
  intros Hwf. unfold Handler. cbv zeta.
  apply lift_bind; [apply keeps_quiet_wf; [apply Handler_wait_quiet | exact Hwf]|].
  intros [] s1 H1.
  assert (registry_wf s1) as Hwf1.
  { pose proof (Handler_wait_quiet fuel e s) as Hq. rewrite H1 in Hq.
    eapply registry_wf_same; [apply Hq | exact Hwf]. }
  apply lift_bind; [apply keeps_quiet_wf; [apply entry_load_quiet | exact Hwf1]|].
  intros t s2 H2.
  assert (s2 = s1) as ->.
  { unfold entry_load in H2. destruct (entries s1 !! e); congruence. }
  apply lift_bind;
    [apply keeps_quiet_wf; [apply keeps_on_tracker, Complete_quiet | exact Hwf1]|].
  intros [] s3 H3.
  assert (registry_wf s3) as Hwf3.
  { pose proof (keeps_on_tracker quiet t _ (Complete_quiet e) s1) as Hq.
    rewrite H3 in Hq. eapply registry_wf_same; [apply Hq | exact Hwf1]. }
  apply lift_bind; [apply keeps_quiet_wf; [apply Handler_call_quiet | exact Hwf3]|].
  intros [] s4 H4.
  assert (registry_wf s4) as Hwf4.
  { pose proof (Handler_call_quiet e s3) as Hq. rewrite H4 in Hq.
    eapply registry_wf_same; [apply Hq | exact Hwf3]. }
  apply lift_bind; [apply keeps_quiet_wf; [apply entry_load_quiet | exact Hwf4]|].
  intros t' s5 H5.
  assert (s5 = s4) as ->.
  { unfold entry_load in H5. destruct (entries s4 !! e); congruence. }
  apply lift_bind.
  - unfold on_tracker. destruct (t' =? this s4); [apply Delete_wf; exact Hwf4 | exact I].
  - intros [] s6 H6. cbn [ret lift].
    unfold on_tracker in H6. destruct (t' =? this s4); [|discriminate].
    pose proof (Delete_wf s4 e Hwf4) as Hd. rewrite H6 in Hd. exact Hd.
Qed.

Lemma reachable_wf s : reachable s -> registry_wf s.
Proof.
  induction 1 as [s Hs He | s w _ IH | s ag og e s' _ IH Hr | s ag og st what s' _ IH Hr
                 | s e h a s' _ IH Hr | s e h a s' _ IH Hr | s fuel v e r s' _ IH Hr
                 | s fuel v e st what s' _ IH Hr | s e s' _ IH Hr].
  - apply registry_wf_ctor; assumption.
  - apply registry_wf_runtime, IH.
  - pose proof (Alloc_wf s ag og IH) as H. rewrite Hr in H. exact H.
  - pose proof (Alloc_wf s ag og IH) as H. rewrite Hr in H. exact H.
  - pose proof (Enable_context_wf s e h a IH) as H. rewrite Hr in H. exact H.
  - pose proof (Enable_wf s e h a IH) as H.
    unfold Enable_rocprofiler_handler_t in Hr. rewrite Hr in H. exact H.
  - pose proof (Handler_wf s fuel v e IH) as H. rewrite Hr in H. exact H.
  - pose proof (Handler_wf s fuel v e IH) as H. rewrite Hr in H. exact H.
  - pose proof (Delete_wf s e IH) as H. rewrite Hr in H. exact H.
Qed.

End Invariant.

(** ** Arming *)

(** C6.  [Enable] writes the argument, and the context-style overload the
    discriminator before it, and only then stores the handler pointer with
    release order; that store is the last write of arming to the entry.
    Up to it an unarmed entry stays unarmed: the wait of [Handler] does not
    end in the state in which only the store is missing, and ends at its
    first load once a non-null pointer is stored. *)
Theorem Enable_publishes_last (s : state) (e : Z) (x : entry_t) (h a : Z)
    (He : entries s !! e = Some x) :
  (exists s0 s1,
      (entry_store e f_context_active (set_context_active true) ;;;
       entry_store e f_arg (set_arg a)) s = Ok tt s0 /\
      handler_store e h memory_order_release s0 = Ok tt s1 /\
      Enable_hsa_amd_signal_handler e h a s = Ok tt s1 /\
      log s1 = log s ++ [E_entry_write e f_context_active; E_entry_write e f_arg;
                         E_handler_store e h memory_order_release] /\
      entries s1 =
        <[e := set_handler h (set_arg a (set_context_active true x))]> (entries s) /\
      (handler x = NULL -> forall fuel, Handler_wait fuel e s0 = OutOfFuel) /\
      (h <> NULL -> forall fuel, exists s2, Handler_wait (S fuel) e s1 = Ok tt s2))
  /\
  (exists s0 s1,
      entry_store e f_arg (set_arg a) s = Ok tt s0 /\
      handler_store e h memory_order_release s0 = Ok tt s1 /\
      Enable_rocprofiler_handler_t e h a s = Ok tt s1 /\
      log s1 = log s ++ [E_entry_write e f_arg;
                         E_handler_store e h memory_order_release] /\
      entries s1 = <[e := set_handler h (set_arg a x)]> (entries s) /\
      (handler x = NULL -> forall fuel, Handler_wait fuel e s0 = OutOfFuel) /\
      (h <> NULL -> forall fuel, exists s2, Handler_wait (S fuel) e s1 = Ok tt s2)).
Proof.
  split.
  - eexists _, _. split; [|split; [|split; [|split; [|split; [|split]]]]].
    + unfold_prims. sim. rewrite He. sim. look. sim. reflexivity.
    + unfold_prims. sim. look. sim. reflexivity.
    + rewrite (Enable_context_run _ _ _ _ _ He). fin.
    + proj_norm. rewrite <- !app_assoc. reflexivity.
    + reflexivity.
    + intros Hx fuel. eapply Handler_wait_unarmed; [cbn [entries]; apply lookup_insert_eq|].
      exact Hx.
    + intros Hh fuel. eexists. eapply Handler_wait_armed; [cbn [entries]; apply lookup_insert_eq|].
      exact Hh.
  - eexists _, _. split; [|split; [|split; [|split; [|split; [|split]]]]].
    + unfold_prims. sim. rewrite He. sim. reflexivity.
    + unfold_prims. sim. look. sim. reflexivity.
    + unfold Enable_rocprofiler_handler_t. rewrite (Enable_run _ _ _ _ _ He). fin.
    + proj_norm. rewrite <- !app_assoc. reflexivity.
    + reflexivity.
    + intros Hx fuel. eapply Handler_wait_unarmed; [cbn [entries]; apply lookup_insert_eq|].
      exact Hx.
    + intros Hh fuel. eexists. eapply Handler_wait_armed; [cbn [entries]; apply lookup_insert_eq|].
      exact Hh.
Qed.

Lemma Enable_publishes_last_witness :
  exists s1, Enable_hsa_amd_signal_handler 1 500 77 state_allocated
             = Ok tt s1 /\
             entries s1 !! 1 = Some entry_1_armed.
Proof.
  destruct (Enable_publishes_last state_allocated 1 entry_1 500 77
              ltac:(vm_compute; reflexivity))
    as [(s0 & s1 & _ & _ & H & _ & He & _) _].
  exists s1. split; [exact H|]. rewrite He. apply lookup_insert_eq.
Defined.

(** ** Completion *)

Section Completion.

Context {RT : HsaRuntime}.

(** C2.  For an entry with a non-null original signal, [Complete] copies
    the begin and end timestamps of the proxy signal into the original
    signal and lowers the value of the original signal by one, by a relaxed
    load followed by a release store of the loaded value minus one, the
    only two accesses to a signal value.  Nothing else runs between the
    load and the store; the value is an [int64] above the least one, so
    that the subtraction is defined. *)
Theorem Complete_forwards_completion
    (s : state) (e : Z) (x : entry_t) (rc : record_t) (og pg : amd_signal_t)
    (He : entries s !! e = Some x)
    (Hr : records s !! record x = Some rc)
    (Hq : fst (profiling_get_dispatch_time (hsa s) (agent x) (signal x))
          = HSA_STATUS_SUCCESS)
    (Ho : handle (orig x) <> 0)
    (Hog : signals (hsa s) !! handle (orig x) = Some og)
    (Hpg : signals (hsa s) !! handle (signal x) = Some pg)
    (Hv : min_signal_value < value og <= max_signal_value) :
  exists s' og' pg' evs,
    Complete e s = Ok tt s' /\
    signals (hsa s') !! handle (orig x) = Some og' /\
    signals (hsa s') !! handle (signal x) = Some pg' /\
    start_ts og' = start_ts pg /\ end_ts og' = end_ts pg /\
    start_ts og' = start_ts pg' /\ end_ts og' = end_ts pg' /\
    value og' = value og - 1 /\
    log s' = log s ++ evs /\
    List.filter is_value_access evs =
      [ E_hsa_signal_load_relaxed (handle (orig x)) (value og);
        E_hsa_signal_store_screlease (handle (orig x)) (value og - 1) ].
Proof.
  destruct (profiling_get_dispatch_time (hsa s) (agent x) (signal x)) as [st dt] eqn:Hd.
  cbn [fst] in Hq. subst st.
  rewrite (Complete_run_forward _ _ _ _ _ _ _ He Hr Hd Ho Hpg Hog).
  assert (wrap64 (value og - 1) = value og - 1) as Hw.
  { apply wrap64_id. unfold min_signal_value, max_signal_value in *. lia. }
  destruct (decide (handle (orig x) = handle (signal x))) as [Heq|Hne].
  - assert (pg = og) by congruence. subst pg.
    eexists _, (forwarded og og), (forwarded og og), _.
    split; [reflexivity|]. proj_norm.
    rewrite <- Heq, lookup_insert_eq.
    repeat split; try reflexivity; [exact Hw|].
    unfold record_events, forward_events. cbn. rewrite Hw. reflexivity.
  - eexists _, (forwarded og pg), pg, _.
    split; [reflexivity|]. proj_norm.
    rewrite lookup_insert_eq, lookup_insert_ne by exact Hne.
    repeat split; try reflexivity; [exact Hpg | exact Hw|].
    unfold record_events, forward_events. cbn. rewrite Hw. reflexivity.
Qed.

Lemma Complete_run s e x :
  completable s e x ->
  exists sc,
    Complete e s = Ok tt sc /\ same_registry s sc /\
    log sc = log s ++ complete_events s x /\
    (handle (orig x) = 0 -> hsa sc = hsa s).
Proof.
  intros [He [rc Hr] Hq Ho Hp].
  destruct (profiling_get_dispatch_time (hsa s) (agent x) (signal x)) as [st dt] eqn:Hd.
  cbn [fst] in Hq. subst st. unfold complete_events.
  destruct (handle (orig x) =? 0) eqn:E.
  - apply Z.eqb_eq in E.
    rewrite (Complete_run_null _ _ _ _ _ He Hr Hd E).
    eexists. split; [reflexivity|]. proj_norm.
    rewrite app_nil_r. repeat split.
  - apply Z.eqb_neq in E.
    destruct (Ho E) as [og Hog]. destruct (Hp E) as [pg Hpg].
    rewrite (Complete_run_forward _ _ _ _ _ _ _ He Hr Hd E Hpg Hog).
    eexists. split; [reflexivity|]. proj_norm. rewrite Hog.
    repeat split. intros; contradiction.
Qed.

(** C4.  When the runtime creates the signal and accepts the handler,
    [Alloc] returns a new entry for the agent and the original signal:
    its record carries the clock reading of the call as dispatch time, its
    proxy signal is new and has the value 1, [Handler] is registered on
    the proxy signal for "value < 1" with the entry as argument, and the
    entry is put at the front of the list between [lock] and [unlock]. *)
Theorem Alloc_creates_entry (s : state) (ag : hsa_agent_t) (og : hsa_signal_t)
    (Hc : signal_create_status (hsa s) = HSA_STATUS_SUCCESS)
    (Ha : async_handler_status (hsa_created (hsa s))
            {| handle := next_signal (hsa s) |} = HSA_STATUS_SUCCESS)
    (Hm : mutex_ (self s) = false) :
  exists e s' x pre,
    Alloc ag og s = Ok e s' /\
    e <> NULL /\ entries s !! e = None /\
    entries s' = <[e := x]> (entries s) /\
    tracker x = this s /\ agent x = ag /\ orig x = og /\
    handler x = NULL /\ arg x = NULL /\ context_active x = false /\
    records s !! record x = None /\
    records s' !! record x =
      Some {| dispatch := host_clock (hsa s); begin := 0; end_ := 0; complete := 0 |} /\
    signals (hsa s) !! handle (signal x) = None /\
    signals (hsa s') =
      <[handle (signal x) := {| value := 1; start_ts := 0; end_ts := 0 |}]>
        (signals (hsa s)) /\
    async_handlers (hsa s') =
      async_handlers (hsa s) ++
      [ {| reg_signal := handle (signal x); reg_cond := HSA_SIGNAL_CONDITION_LT;
           reg_value := 1; reg_arg := e |} ] /\
    sig_list_ (self s') = (it x, e) :: sig_list_ (self s) /\
    mutex_ (self s') = false /\
    log s' = log s ++ pre ++
             [E_lock; E_list_insert (it x) e; E_entry_write e f_it; E_unlock] /\
    Forall (fun ev => ev <> E_lock /\ ev <> E_unlock) pre.
Proof.
  eexists (next_entry s), _, (alloc_entry s ag og),
    (alloc_prefix s ++
     [ E_hsa_signal_create 1 HSA_STATUS_SUCCESS (next_signal (hsa s));
       E_hsa_amd_signal_async_handler (next_signal (hsa s)) HSA_SIGNAL_CONDITION_LT 1
         (next_entry s) HSA_STATUS_SUCCESS ]).
  split; [apply Alloc_run; assumption|]. proj_norm.
  unfold alloc_entry, hsa_registered, hsa_created. proj_norm.
  cbn [tracker it agent orig signal record handler arg context_active handle].
  assert (next_entry s <> NULL) as Hnn.
  { pose proof (fresh_above_pos (elements (dom (entries s)))).
    unfold next_entry, NULL. lia. }
  assert (Forall (fun ev => ev <> E_lock /\ ev <> E_unlock)
            (alloc_prefix s ++
             [ E_hsa_signal_create 1 HSA_STATUS_SUCCESS (next_signal (hsa s));
               E_hsa_amd_signal_async_handler (next_signal (hsa s))
                 HSA_SIGNAL_CONDITION_LT 1 (next_entry s) HSA_STATUS_SUCCESS ])) as Hpre.
  { unfold alloc_prefix. cbn [app].
    repeat (apply Forall_cons; split; [split; discriminate|]). apply Forall_nil. exact I. }
  assert (log s ++ alloc_events s =
          log s ++ (alloc_prefix s ++
             [ E_hsa_signal_create 1 HSA_STATUS_SUCCESS (next_signal (hsa s));
               E_hsa_amd_signal_async_handler (next_signal (hsa s))
                 HSA_SIGNAL_CONDITION_LT 1 (next_entry s) HSA_STATUS_SUCCESS ]) ++
             [E_lock; E_list_insert (next_node s) (next_entry s);
              E_entry_write (next_entry s) f_it; E_unlock]) as Hlog.
  { unfold alloc_events. rewrite <- !app_assoc. reflexivity. }
  pose proof (next_entry_fresh s) as Hfe.
  pose proof (next_signal_fresh (hsa s)) as Hfs.
  pose proof (fresh_above_dom (records s)) as Hfr.
  pose proof (lookup_insert_eq (records s) (next_record s) (alloc_record s)) as Hlr.
  repeat split; assumption.
Qed.

(** C5.  When the runtime refuses to create the signal, or creates it and
    refuses the handler, [Alloc] raises the status at once: the refused
    call is the last operation, it is made once, and the list of the
    registry is the one before the call. *)
Theorem Alloc_failure_leaves_registry (s : state) (ag : hsa_agent_t) (og : hsa_signal_t)
    (Hf : signal_create_status (hsa s) <> HSA_STATUS_SUCCESS \/
          async_handler_status (hsa_created (hsa s))
            {| handle := next_signal (hsa s) |} <> HSA_STATUS_SUCCESS) :
  exists st what s' evs,
    Alloc ag og s = Raised st what s' /\
    st <> HSA_STATUS_SUCCESS /\
    sig_list_ (self s') = sig_list_ (self s) /\
    log s' = log s ++ alloc_prefix s ++ evs /\
    (evs = [E_hsa_signal_create 1 st NULL]
     \/ evs = [E_hsa_signal_create 1 HSA_STATUS_SUCCESS (next_signal (hsa s));
               E_hsa_amd_signal_async_handler (next_signal (hsa s))
                 HSA_SIGNAL_CONDITION_LT 1 (next_entry s) st]).
Proof.
  destruct (decide (signal_create_status (hsa s) = HSA_STATUS_SUCCESS)) as [Hc|Hc].
  - destruct Hf as [Hf|Hf]; [contradiction|].
    eexists _, _, _, _. split; [apply Alloc_run_register_fails; assumption|].
    proj_norm. split; [exact Hf|]. split; [reflexivity|].
    split; [reflexivity|]. right. reflexivity.
  - eexists _, _, _, _. split; [apply Alloc_run_create_fails; assumption|].
    proj_norm. split; [exact Hc|]. split; [reflexivity|].
    split; [reflexivity|]. left. reflexivity.
Qed.

End Completion.

(** ** The completion callback *)

Lemma bind_run {A B} (c : M A) (k : A -> M B) s a s1 :
  c s = Ok a s1 -> bind c k s = k a s1.
Proof. intros H. unfold bind. rewrite H. reflexivity. Qed.

Lemma entry_load_run {A} s e x (proj : entry_t -> A) :
  entries s !! e = Some x -> entry_load e proj s = Ok (proj x) s.
Proof. intros H. unfold entry_load. rewrite H. reflexivity. Qed.

Lemma on_tracker_run {A} (c : M A) t s : t = this s -> on_tracker t c s = c s.
Proof. intros ->. unfold on_tracker. rewrite Z.eqb_refl. reflexivity. Qed.

Lemma filter_user_call_app l1 l2 :
  List.filter is_user_call (l1 ++ l2) =
  List.filter is_user_call l1 ++ List.filter is_user_call l2.
Proof. apply List.filter_app. Qed.

Lemma complete_events_no_call s x :
  List.filter is_user_call (complete_events s x) = [].
Proof.
  unfold complete_events. rewrite List.filter_app.
  destruct (handle (orig x) =? 0); [reflexivity|].
  destruct (signals (hsa s) !! handle (orig x)); reflexivity.
Qed.

Lemma call_event_is_call x : is_user_call (call_event x) = true.
Proof. unfold call_event. destruct (context_active x); reflexivity. Qed.

Lemma handler_events_one_call s e x :
  List.filter is_user_call (handler_events s e x) = [call_event x].
Proof.
  unfold handler_events. rewrite !List.filter_app, complete_events_no_call.
  cbn [List.filter is_user_call app]. rewrite call_event_is_call. reflexivity.
Qed.

Section Callback.

Context {RT : HsaRuntime}.

Lemma completable_same s s' e x :
  entries s' = entries s -> records s' = records s -> hsa s' = hsa s ->
  completable s e x -> completable s' e x.
Proof.
  intros He Hr Hh [H1 H2 H3 H4 H5]. split; rewrite ?He, ?Hr, ?Hh; assumption.
Qed.

(** A whole run of [Handler] on an armed entry of the list. *)
Lemma Handler_run s e x fuel v :
  completable s e x -> registered s e x -> handler x <> NULL ->
  exists s3 s',
    (Handler_wait (S fuel) e ;;;
     t <- entry_load e tracker ;;
     on_tracker t (Complete e) ;;;
     Handler_call e) s = Ok tt s3 /\
    entries s3 = entries s /\ self s3 = self s /\
    Delete e s3 = Ok tt s' /\
    Handler (S fuel) v e s = Ok false s' /\
    log s' = log s ++ handler_events s e x /\
    this s' = this s /\
    entries s' = delete e (entries s) /\
    sig_list_ (self s') = without_node (it x) (sig_list_ (self s)) /\
    mutex_ (self s') = false /\
    (handle (orig x) = 0 ->
     signals (hsa s') = delete (handle (signal x)) (signals (hsa s))).
Proof.
  intros Hc [Hwf Ht Hl] Hh.
  pose proof (cp_entry _ _ _ Hc) as He.
  set (s1 := emit (E_handler_load e (handler x) memory_order_acquire) s).
  assert (completable s1 e x) as Hc1 by (eapply completable_same; [| | |exact Hc]; reflexivity).
  destruct (Complete_run s1 e x Hc1) as (sc & Hrun & (Hthis & Hself & Hent) & Hlog & Hnull).
  assert (entries sc !! e = Some x) as Hec by (rewrite Hent; exact He).
  set (s3 := set_log (log sc ++ [E_handler_load e (handler x) memory_order_seq_cst;
                                 call_event x]) sc).
  assert (tracker x = this s3) as Ht3.
  { cbn [s3 set_log this]. rewrite Hthis. exact Ht. }
  assert (list_erase (sig_list_ (self s3)) (it x) =
          Some (without_node (it x) (sig_list_ (self s)))) as Hle.
  { cbn [s3 set_log self]. rewrite Hself. cbn [s1 emit self].
    apply list_erase_spec; [apply Hwf|].
    apply (list_elem_of_fmap_2 fst) in Hl. exact Hl. }
  assert (mutex_ (self s3) = false) as Hm3.
  { cbn [s3 set_log self]. rewrite Hself. apply Hwf. }
  pose proof (Delete_run s3 e x _ Hec Hm3 Hle) as Hdel.
  assert ((Handler_wait (S fuel) e ;;;
           t <- entry_load e tracker ;;
           on_tracker t (Complete e) ;;;
           Handler_call e) s = Ok tt s3) as Hpre.
  { rewrite (bind_run _ _ _ _ _ (Handler_wait_armed fuel _ _ _ He Hh)).
    rewrite (bind_run _ _ _ _ _ (entry_load_run s1 e x tracker He)).
    rewrite (bind_run _ _ _ _ _
               (eq_trans (on_tracker_run (Complete e) (tracker x) s1 Ht) Hrun)).
    apply (Handler_call_run sc e x Hec Hh). }
  eexists s3, _. split; [exact Hpre|].
  split; [cbn [s3 set_log entries]; exact Hent|].
  split; [cbn [s3 set_log self]; exact Hself|].
  split; [exact Hdel|]. split.
  { unfold Handler. cbv zeta.
    rewrite (bind_run _ _ _ _ _ (Handler_wait_armed fuel _ _ _ He Hh)).
    rewrite (bind_run _ _ _ _ _ (entry_load_run s1 e x tracker He)).
    rewrite (bind_run _ _ _ _ _
               (eq_trans (on_tracker_run (Complete e) (tracker x) s1 Ht) Hrun)).
    rewrite (bind_run _ _ _ _ _ (Handler_call_run sc e x Hec Hh)).
    rewrite (bind_run _ _ _ _ _ (entry_load_run s3 e x tracker Hec)).
    rewrite (bind_run _ _ _ _ _
               (eq_trans (on_tracker_run (Delete e) (tracker x) s3 Ht3) Hdel)).
    reflexivity. }
  proj_norm. subst s3. proj_norm.
  rewrite Hlog, Hent, Hthis. subst s1. proj_norm.
  split; [|repeat split].
  - unfold handler_events, complete_events. proj_norm.
    rewrite <- !app_assoc. reflexivity.
  - intros H0. rewrite (Hnull H0). reflexivity.
Qed.

(** When the runtime refuses the dispatch-time query, [Handler] raises out
    of [Complete]: the user's handler is not called and the entry stays in
    the registry. *)
Lemma Handler_raises_on_query_failure s e x fuel v :
  entries s !! e = Some x -> handler x <> NULL -> tracker x = this s ->
  fst (profiling_get_dispatch_time (hsa s) (agent x) (signal x)) <> HSA_STATUS_SUCCESS ->
  exists s',
    Handler (S fuel) v e s =
      Raised (fst (profiling_get_dispatch_time (hsa s) (agent x) (signal x)))
        "hsa_amd_profiling_get_dispatch_time" s' /\
    log s' = log s ++
      [ E_handler_load e (handler x) memory_order_acquire;
        E_hsa_amd_profiling_get_dispatch_time (agent_handle (agent x))
          (handle (signal x))
          (fst (profiling_get_dispatch_time (hsa s) (agent x) (signal x))) ] /\
    entries s' = entries s /\ self s' = self s.
Proof.
  intros He Hh Ht Hq.
  unfold Handler. cbv zeta.
  rewrite (bind_run _ _ _ _ _ (Handler_wait_armed fuel _ _ _ He Hh)).
  set (s1 := emit (E_handler_load e (handler x) memory_order_acquire) s).
  rewrite (bind_run _ _ _ _ _ (entry_load_run s1 e x tracker He)).
  unfold bind. rewrite (on_tracker_run (Complete e) (tracker x) s1 Ht).
  rewrite (Complete_run_raise s1 e x He Hq).
  eexists. split; [reflexivity|]. subst s1. proj_norm.
  rewrite <- app_assoc. auto.
Qed.

(** C3.  On an armed entry of the list [Handler] returns false after the
    operations of [Complete], then one call of the stored handler, then
    the operations of [Delete], in this order.  In the state [s3] reached
    when the call of the user's handler has returned the entry is still
    alive and in the list; [Delete] runs from there, and after it the
    entry is neither.  Whenever [Handler] returns at all, it returns
    false. *)
Theorem Handler_order (s : state) (e : Z) (x : entry_t) (fuel : nat)
    (v : hsa_signal_value_t)
    (Hc : completable s e x) (Hr : registered s e x) (Hh : handler x <> NULL) :
  (exists s3 s',
      (Handler_wait (S fuel) e ;;;
       t <- entry_load e tracker ;;
       on_tracker t (Complete e) ;;;
       Handler_call e) s = Ok tt s3 /\
      entries s3 !! e = Some x /\
      (it x, e) ∈ sig_list_ (self s3) /\
      Delete e s3 = Ok tt s' /\
      Handler (S fuel) v e s = Ok false s' /\
      log s' = log s
               ++ [E_handler_load e (handler x) memory_order_acquire]
               ++ complete_events s x
               ++ [E_handler_load e (handler x) memory_order_seq_cst; call_event x]
               ++ delete_events e x /\
      List.filter is_user_call (complete_events s x) = [] /\
      List.filter is_user_call (delete_events e x) = [] /\
      is_user_call (call_event x) = true /\
      entries s' !! e = None /\
      (it x, e) ∉ sig_list_ (self s'))
  /\
  (forall s0 fuel0 v0 e0 r s1, Handler fuel0 v0 e0 s0 = Ok r s1 -> r = false).
Proof.
  split.
  - destruct (Handler_run s e x fuel v Hc Hr Hh)
      as (s3 & s' & Hpre & Hent3 & Hself3 & Hdel & Hrun & Hlog & _ & Hent & Hlist & _).
    exists s3, s'. split; [exact Hpre|].
    split; [rewrite Hent3; exact (cp_entry _ _ _ Hc)|].
    split; [rewrite Hself3; exact (rg_listed _ _ _ Hr)|].
    split; [exact Hdel|].
    split; [exact Hrun|]. split; [exact Hlog|].
    split; [apply complete_events_no_call|]. split; [reflexivity|].
    split; [apply call_event_is_call|]. split.
    + rewrite Hent. apply lookup_delete_eq.
    + rewrite Hlist. intros Hin. apply elem_of_without_node in Hin as [_ Hne].
      apply Hne. reflexivity.
  - intros s0 fuel0 v0 e0 r s1 H. unfold Handler in H. cbv zeta in H.
    repeat (apply bind_Ok_inv in H as (? & ? & _ & H)).
    unfold ret in H. congruence.
Qed.

(** C7.  An entry that still has the discriminator and the null handler of
    its allocation is armed and completed: after the context-style
    [Enable] the only call is that of the context-style handler with the
    value 0 and the argument given; after the simple [Enable] it is that
    of the simple handler with the value-initialised group and the
    argument given. *)
Theorem Handler_calls_one_convention (s : state) (e : Z) (x : entry_t) (h a : Z)
    (fuel : nat) (v : hsa_signal_value_t)
    (Hc : completable s e x) (Hr : registered s e x)
    (Hx : context_active x = false) (Hh : h <> NULL) :
  (exists s1 s2 evs,
      Enable_hsa_amd_signal_handler e h a s = Ok tt s1 /\
      Handler (S fuel) v e s1 = Ok false s2 /\
      log s2 = log s1 ++ evs /\
      List.filter is_user_call evs = [E_call_context h 0 a])
  /\
  (exists s1 s2 evs,
      Enable_rocprofiler_handler_t e h a s = Ok tt s1 /\
      Handler (S fuel) v e s1 = Ok false s2 /\
      log s2 = log s1 ++ evs /\
      List.filter is_user_call evs = [E_call_simple h group_default a]).
Proof.
  pose proof (cp_entry _ _ _ Hc) as He.
  destruct Hr as [Hwf Ht Hl].
  split.
  - set (x1 := set_handler h (set_arg a (set_context_active true x))).
    pose proof (Enable_context_run s e x h a He) as Hen.
    set (s1 := set_entries _ _) in Hen.
    assert (completable s1 e x1) as Hc1.
    { destruct Hc as [H1 H2 H3 H4 H5]. split; try assumption.
      cbn [s1 set_entries set_log entries]. apply lookup_insert_eq. }
    assert (registered s1 e x1) as Hr1.
    { split; [|exact Ht|exact Hl].
      eapply registry_wf_update; [exact Hwf | exact He | reflexivity]. }
    destruct (Handler_run s1 e x1 fuel v Hc1 Hr1 Hh) as (_ & s2 & _ & _ & _ & _ & Hrun & Hlog & _).
    exists s1, s2, (handler_events s1 e x1).
    repeat split; try assumption. apply handler_events_one_call.
  - set (x1 := set_handler h (set_arg a x)).
    pose proof (Enable_run s e x h a He) as Hen.
    set (s1 := set_entries _ _) in Hen.
    assert (completable s1 e x1) as Hc1.
    { destruct Hc as [H1 H2 H3 H4 H5]. split; try assumption.
      cbn [s1 set_entries set_log entries]. apply lookup_insert_eq. }
    assert (registered s1 e x1) as Hr1.
    { split; [|exact Ht|exact Hl].
      eapply registry_wf_update; [exact Hwf | exact He | reflexivity]. }
    destruct (Handler_run s1 e x1 fuel v Hc1 Hr1 Hh) as (_ & s2 & _ & _ & _ & _ & Hrun & Hlog & _).
    exists s1, s2, (handler_events s1 e x1).
    repeat split; try assumption.
    rewrite handler_events_one_call. unfold call_event, x1.
    cbn [context_active set_handler set_arg handler arg]. rewrite Hx. reflexivity.
Qed.

(** C9.  For an entry whose original signal is null, [Complete] stamps the
    record and stops: it makes no access to the memory of any signal and
    leaves the runtime's memory as it is, whether or not the address 0
    holds a signal.  [Handler] then calls the stored handler once with the
    stored argument and removes the entry; apart from the destruction of
    the proxy signal the signals are untouched. *)
Theorem Complete_skips_null_original (s : state) (e : Z) (x : entry_t)
    (fuel : nat) (v : hsa_signal_value_t)
    (Hc : completable s e x) (Hr : registered s e x) (Hh : handler x <> NULL)
    (Ho : handle (orig x) = 0) :
  (exists s1,
      Complete e s = Ok tt s1 /\ hsa s1 = hsa s /\
      log s1 = log s ++ record_events x (host_clock (hsa s)) /\
      Forall (fun ev => is_signal_access ev = false)
        (record_events x (host_clock (hsa s))))
  /\
  (exists s2 evs,
      Handler (S fuel) v e s = Ok false s2 /\
      log s2 = log s ++ evs /\
      Forall (fun ev => is_signal_access ev = false) evs /\
      List.filter is_user_call evs = [call_event x] /\
      (call_event x = E_call_context (handler x) 0 (arg x) \/
       call_event x = E_call_simple (handler x) group_default (arg x)) /\
      entries s2 !! e = None /\
      ((it x, e) ∉ sig_list_ (self s2)) /\
      signals (hsa s2) = delete (handle (signal x)) (signals (hsa s))).
Proof.
  assert (complete_events s x = record_events x (host_clock (hsa s))) as Hce.
  { unfold complete_events. rewrite Ho. apply app_nil_r. }
  assert (Forall (fun ev => is_signal_access ev = false)
            (record_events x (host_clock (hsa s)))) as Hrec.
  { unfold record_events. repeat (apply Forall_cons; split; [reflexivity|]).
    apply Forall_nil. exact I. }
  split.
  - destruct (Complete_run s e x Hc) as (s1 & Hrun & _ & Hlog & Hnull).
    exists s1. rewrite Hce in Hlog. auto.
  - destruct (Handler_run s e x fuel v Hc Hr Hh)
      as (_ & s2 & _ & _ & _ & _ & Hrun & Hlog & _ & Hent & Hlist & _ & Hsig).
    exists s2, (handler_events s e x).
    split; [exact Hrun|]. split; [exact Hlog|]. split.
    { unfold handler_events. rewrite Hce.
      apply Forall_app. split; [repeat constructor|].
      apply Forall_app. split; [exact Hrec|].
      apply Forall_app. split.
      - unfold call_event. destruct (context_active x); repeat constructor.
      - unfold delete_events. repeat constructor. }
    split; [apply handler_events_one_call|]. split.
    { unfold call_event. destruct (context_active x); auto. }
    split; [rewrite Hent; apply lookup_delete_eq|]. split; [|exact (Hsig Ho)].
    rewrite Hlist. intros Hin. apply elem_of_without_node in Hin as [_ Hne].
    apply Hne. reflexivity.
Qed.

End Callback.

(** ** The destructor *)

Lemma sig_list_next_head s n e rest :
  sig_list_ (self s) = (n, e) :: rest ->
  sig_list_next n s = Ok (list_begin rest) s.
Proof.
  intros H. unfold sig_list_next. rewrite H. cbn [list_next].
  rewrite Z.eqb_refl. reflexivity.
Qed.

Lemma sig_list_deref_head s n e rest :
  sig_list_ (self s) = (n, e) :: rest ->
  sig_list_deref n s = Ok e s.
Proof.
  intros H. unfold sig_list_deref. rewrite H. cbn [list_deref].
  rewrite Z.eqb_refl. reflexivity.
Qed.

Lemma SignalWait_run s sig sg :
  signals (hsa s) !! handle sig = Some sg -> value sg < 1 ->
  SignalWait sig s = Ok tt (emit (E_SignalWait (handle sig)) s).
Proof.
  intros H Hv. unfold SignalWait. rewrite H. cbn [condition_holds].
  apply Z.ltb_lt in Hv. rewrite Hv. reflexivity.
Qed.

Lemma SignalWait_blocks s sig sg :
  signals (hsa s) !! handle sig = Some sg -> 1 <= value sg ->
  SignalWait sig s = Blocked s.
Proof.
  intros H Hv. unfold SignalWait. rewrite H. cbn [condition_holds].
  apply Z.ltb_ge in Hv. rewrite Hv. reflexivity.
Qed.

Lemma drain_events_ext s s' (l : sig_list_t) :
  (forall p, p ∈ l -> entries s' !! snd p = entries s !! snd p) ->
  drain_events s' l = drain_events s l.
Proof.
  induction l as [|p l IH]; intros H; [reflexivity|].
  unfold drain_events in *. cbn [flat_map].
  rewrite (H p) by (apply elem_of_cons; left; reflexivity).
  rewrite IH; [reflexivity|].
  intros q Hq. apply H. apply elem_of_cons. right. exact Hq.
Qed.

Lemma drainable_erase s e x lg :
  registry_wf s -> drainable s ->
  entries s !! e = Some x ->
  (it x, e) ∈ sig_list_ (self s) ->
  drainable
    (set_entries (delete e (entries s))
       (set_hsa (set_signals (delete (handle (signal x)) (signals (hsa s))) (hsa s))
          (set_self (set_mutex false
                       (set_sig_list (without_node (it x) (sig_list_ (self s))) (self s)))
             (set_log lg s)))).
Proof.
  intros Hwf [Hd Ho] He Hin.
  split; cbn [set_entries set_hsa set_self set_log set_mutex set_sig_list set_signals
              self entries sig_list_ hsa signals].
  - intros n e' x' Hl Hx'. apply elem_of_without_node in Hl as [Hl Hn].
    destruct (decide (e = e')) as [->|Hne]; [rewrite lookup_delete_eq in Hx'; discriminate|].
    rewrite lookup_delete_ne in Hx' by exact Hne.
    destruct (Hd _ _ _ Hl Hx') as (sg & Hsg & Hv).
    exists sg. split; [|exact Hv].
    rewrite lookup_delete_ne; [exact Hsg|].
    exact (Ho (it x) e x n e' x' Hin Hl He Hx' Hne).
  - intros n1 e1 x1 n2 e2 x2 H1 H2 Hx1 Hx2 Hne.
    apply elem_of_without_node in H1 as [H1 _].
    apply elem_of_without_node in H2 as [H2 _].
    destruct (decide (e = e1)) as [->|Hne1]; [rewrite lookup_delete_eq in Hx1; discriminate|].
    destruct (decide (e = e2)) as [->|Hne2]; [rewrite lookup_delete_eq in Hx2; discriminate|].
    rewrite lookup_delete_ne in Hx1 by exact Hne1.
    rewrite lookup_delete_ne in Hx2 by exact Hne2.
    exact (Ho n1 e1 x1 n2 e2 x2 H1 H2 Hx1 Hx2 Hne).
Qed.

Lemma dtor_loop_run (l : sig_list_t) : forall s fuel,
  sig_list_ (self s) = l ->
  registry_wf s -> drainable s ->
  (length l <= fuel)%nat ->
  exists s',
    dtor_loop fuel (list_begin l) list_end s = Ok tt s' /\
    sig_list_ (self s') = [] /\
    log s' = log s ++ drain_events s l /\
    (forall e0, entries s !! e0 = None -> entries s' !! e0 = None) /\
    (forall n e, (n, e) ∈ l -> entries s' !! e = None).
Proof.
  induction l as [|[n e] rest IH]; intros s fuel Hl Hwf Hdr Hfuel.
  - exists s. cbn [list_begin].
    assert (dtor_loop fuel list_end list_end s = Ok tt s) as ->
      by (destruct fuel; reflexivity).
    split; [reflexivity|]. split; [exact Hl|].
    split; [cbn; rewrite app_nil_r; reflexivity|].
    split; [auto|]. intros n e H. inversion H.
  - assert ((n, e) ∈ sig_list_ (self s)) as Hin
      by (rewrite Hl; apply elem_of_cons; left; reflexivity).
    pose proof (wf_not_end _ Hwf _ _ Hin) as Hne.
    destruct (wf_position _ Hwf _ _ Hin) as (x & He & Hit).
    destruct (dr_done _ Hdr _ _ _ Hin He) as (sg & Hsg & Hv).
    destruct fuel as [|fuel]; [cbn [length] in Hfuel; lia|].
    cbn [list_begin dtor_loop].
    apply Z.eqb_neq in Hne. rewrite Hne.
    rewrite (bind_run _ _ _ _ _ (sig_list_next_head _ _ _ _ Hl)).
    rewrite (bind_run _ _ _ _ _ (sig_list_deref_head _ _ _ _ Hl)).
    rewrite (bind_run _ _ _ _ _ (entry_load_run s e x signal He)).
    rewrite (bind_run _ _ _ _ _ (SignalWait_run _ _ _ Hsg Hv)).
    set (s1 := emit (E_SignalWait (handle (signal x))) s).
    assert (list_erase (sig_list_ (self s1)) (it x) = Some rest) as Hle.
    { cbn [s1 emit self]. rewrite Hl, Hit. cbn [list_erase].
      rewrite Z.eqb_refl. reflexivity. }
    assert (without_node (it x) (sig_list_ (self s)) = rest) as Hwo.
    { assert (it x ∈ map fst (sig_list_ (self s))) as Hm.
      { rewrite Hit. apply (list_elem_of_fmap_2 fst) in Hin. exact Hin. }
      pose proof (list_erase_spec _ _ (wf_nodes _ Hwf) Hm) as Hs.
      cbn [s1 emit self] in Hle. congruence. }
    assert (Erase n s1 =
            Ok tt (set_entries (delete e (entries s))
                    (set_hsa (set_signals (delete (handle (signal x)) (signals (hsa s)))
                                (hsa s))
                       (set_self (set_mutex false
                                    (set_sig_list (without_node (it x) (sig_list_ (self s)))
                                       (self s)))
                          (set_log (log s1 ++ delete_events e x) s))))) as Her.
    { unfold Erase.
      rewrite (bind_run _ _ _ _ _ (sig_list_deref_head s1 n e rest Hl)).
      rewrite (Delete_run s1 e x rest He (wf_mutex _ Hwf) Hle).
      rewrite Hwo. reflexivity. }
    rewrite (bind_run _ _ _ _ _ Her).
    set (s2 := set_entries _ _).
    assert ((it x, e) ∈ sig_list_ (self s)) as Hin' by (rewrite Hit; exact Hin).
    assert (registry_wf s2) as Hwf2 by (apply registry_wf_erase; assumption).
    assert (drainable s2) as Hdr2 by (apply drainable_erase; assumption).
    assert (sig_list_ (self s2) = rest) as Hl2 by exact Hwo.
    destruct (IH s2 fuel Hl2 Hwf2 Hdr2 ltac:(cbn [length] in Hfuel; lia))
      as (s' & Hrun & Hnil & Hlog & Hkeep & Hgone).
    exists s'. split; [exact Hrun|]. split; [exact Hnil|].
    assert (forall p, p ∈ rest -> entries s2 !! snd p = entries s !! snd p) as Hsame.
    { intros [n' e'] Hp. cbn [snd s2 set_entries entries].
      apply lookup_delete_ne. intros <-.
      assert ((n', e) ∈ sig_list_ (self s)) as Hp'
        by (rewrite Hl; apply elem_of_cons; right; exact Hp).
      destruct (wf_position _ Hwf _ _ Hp') as (x' & Hx' & Hit').
      assert (x' = x) by congruence. subst x'.
      rewrite <- Hwo in Hp. apply elem_of_without_node in Hp as [_ Hp].
      apply Hp. cbn [fst]. congruence. }
    split; [|split].
    + rewrite Hlog, (drain_events_ext _ _ _ Hsame).
      unfold drain_events at 2. cbn [flat_map snd]. rewrite He.
      fold (drain_events s rest).
      cbn [s2 s1 set_entries set_hsa set_self set_log emit log].
      rewrite <- !app_assoc. reflexivity.
    + intros e0 H0. apply Hkeep. cbn [s2 set_entries entries].
      destruct (decide (e = e0)) as [->|Hd]; [apply lookup_delete_eq|].
      rewrite lookup_delete_ne by exact Hd. exact H0.
    + intros n' e' Hp. apply elem_of_cons in Hp as [Hp|Hp].
      * inversion Hp; subst. apply Hkeep. cbn [s2 set_entries entries].
        apply lookup_delete_eq.
      * eapply Hgone. exact Hp.
Qed.

(** C8.  On a well-formed registry whose entries have live proxy signals
    of their own, the destructor takes the nodes in list order and for
    each waits on the proxy signal of its entry, then destroys the signal,
    erases the node and frees the entry; when it returns the list is
    empty and every entry that was in it is freed.  It does so as soon as
    every proxy signal has reached its threshold; while the signal of the
    first entry has not, the destructor stays in the wait and nothing is
    removed. *)
Theorem Tracker_dtor_drains (s : state) (Hwf : registry_wf s) :
  (forall fuel,
      drainable s ->
      (length (sig_list_ (self s)) <= fuel)%nat ->
      exists s',
        Tracker_dtor fuel s = Ok tt s' /\
        sig_list_ (self s') = [] /\
        log s' = log s ++ drain_events s (sig_list_ (self s)) /\
        (forall n e, (n, e) ∈ sig_list_ (self s) -> entries s' !! e = None))
  /\
  (forall fuel n e rest x sg,
      sig_list_ (self s) = (n, e) :: rest ->
      entries s !! e = Some x ->
      signals (hsa s) !! handle (signal x) = Some sg ->
      1 <= value sg ->
      Tracker_dtor (S fuel) s = Blocked s).
Proof.
  split.
  - intros fuel Hdr Hfuel.
    destruct (dtor_loop_run (sig_list_ (self s)) s fuel eq_refl Hwf Hdr Hfuel)
      as (s' & Hrun & Hnil & Hlog & _ & Hgone).
    exists s'. unfold Tracker_dtor, sig_list_begin. unfold bind. cbv zeta.
    auto.
  - intros fuel n e rest x sg Hl He Hsg Hv.
    assert ((n, e) ∈ sig_list_ (self s)) as Hin
      by (rewrite Hl; apply elem_of_cons; left; reflexivity).
    pose proof (wf_not_end _ Hwf _ _ Hin) as Hne. apply Z.eqb_neq in Hne.
    unfold Tracker_dtor, sig_list_begin. unfold bind at 1. cbv zeta.
    rewrite Hl. cbn [list_begin dtor_loop]. rewrite Hne.
    rewrite (bind_run _ _ _ _ _ (sig_list_next_head _ _ _ _ Hl)).
    rewrite (bind_run _ _ _ _ _ (sig_list_deref_head _ _ _ _ Hl)).
    rewrite (bind_run _ _ _ _ _ (entry_load_run s e x signal He)).
    unfold bind. rewrite (SignalWait_blocks _ _ _ Hsg Hv). reflexivity.
Qed.

(** ** The race between arming and completion *)

Lemma app_cons_split {A} (L evs l1 l2 : list A) (ev : A) :
  L ++ evs = l1 ++ ev :: l2 ->
  (exists l2', L = l1 ++ ev :: l2') \/
  (exists k1, l1 = L ++ k1 /\ evs = k1 ++ ev :: l2).
Proof.
  intros H. apply app_eq_app in H as [l [[H1 H2]|[H1 H2]]].
  - destruct l as [|b l].
    + right. exists []. rewrite app_nil_r in H1. cbn [app] in H2.
      split; [rewrite app_nil_r; congruence | cbn [app]; congruence].
    + left. cbn [app] in H2. inversion H2; subst. eauto.
  - right. eauto.
Qed.

Lemma guarded_nil e h : guarded e h [].
Proof. intros l1 ev l2 H. destruct l1; discriminate. Qed.

Lemma guarded_app_quiet e h L evs :
  guarded e h L ->
  Forall (fun ev => is_completion_event ev = false) evs ->
  guarded e h (L ++ evs).
Proof.
  intros HL Hq l1 ev l2 Heq Hc.
  apply app_cons_split in Heq as [[l2' ->]|[k1 [-> ->]]].
  - eapply HL; [reflexivity | exact Hc].
  - rewrite Forall_app in Hq. destruct Hq as [_ Hq].
    apply Forall_cons in Hq as [Hq _]. congruence.
Qed.

Lemma guarded_app_observed e h L evs la lb lc :
  guarded e h L -> h <> NULL ->
  L = la ++ E_handler_store e h memory_order_release
         :: lb ++ E_handler_load e h memory_order_acquire :: lc ->
  guarded e h (L ++ evs).
Proof.
  intros HL Hh HLeq l1 ev l2 Heq Hc.
  apply app_cons_split in Heq as [[l2' Heq]|[k1 [-> _]]].
  - eapply HL; [exact Heq | exact Hc].
  - split; [exact Hh|]. exists la, lb, (lc ++ k1).
    rewrite HLeq, <- !app_assoc. cbn [app]. rewrite <- !app_assoc. reflexivity.
Qed.

Lemma bind_assoc {A B C} (c : M A) (k : A -> M B) (k' : B -> M C) s :
  bind (bind c k) k' s = bind c (fun a => bind (k a) k') s.
Proof. unfold bind. destruct (c s); reflexivity. Qed.

Lemma bind_ret {A B} (a : A) (k : A -> M B) s : bind (ret a) k s = k a s.
Proof. reflexivity. Qed.

Lemma bind_ext {A B} (c : M A) (k k' : A -> M B) s :
  (forall a s', k a s' = k' a s') -> bind c k s = bind c k' s.
Proof. intros H. unfold bind. destruct (c s); auto. Qed.

Section Race.

Context {RT : HsaRuntime}.

(** The steps of the arming thread are the statements of [Enable], in
    order ... *)
Lemma Enable_is_its_steps e h a s :
  Enable_hsa_amd_signal_handler e h a s =
    (pc1 <- Enable_step e h a (arm_entry true) ;;
     pc2 <- Enable_step e h a pc1 ;;
     pc3 <- Enable_step e h a pc2 ;;
     Enable_step e h a pc3 ;;; ret tt) s
  /\
  Enable_rocprofiler_handler_t e h a s =
    (pc2 <- Enable_step e h a (arm_entry false) ;;
     pc3 <- Enable_step e h a pc2 ;;
     Enable_step e h a pc3 ;;; ret tt) s.
Proof.
  unfold arm_entry. destruct (entries s !! e) as [x|] eqn:He.
  - rewrite (Enable_context_run _ _ _ _ _ He).
    unfold Enable_rocprofiler_handler_t. rewrite (Enable_run _ _ _ _ _ He).
    split;
      repeat (cbn [Enable_step]; unfold_prims; sim; rewrite ?He; repeat look);
      fin.
  - unfold Enable_hsa_amd_signal_handler, Enable_rocprofiler_handler_t, Enable.
    cbn [Enable_step]. unfold_prims. sim. rewrite He. split; reflexivity.
Qed.

(** ... and those of the callback thread are the statements of [Handler]. *)
Lemma Handler_is_its_steps fuel v e s :
  Handler_wait (S fuel) e s =
    (pc <- Handler_step e CB_wait ;;
     match pc with CB_wait => Handler_wait fuel e | _ => ret tt end) s
  /\
  Handler fuel v e s =
    (Handler_wait fuel e ;;;
     pc1 <- Handler_step e CB_complete ;;
     pc2 <- Handler_step e pc1 ;;
     pc3 <- Handler_step e pc2 ;;
     match pc3 with CB_returned r => ret r | _ => undefined end) s.
Proof.
  split.
  - cbn [Handler_wait Handler_step]. rewrite bind_assoc.
    apply bind_ext. intros h s1. cbv beta.
    destruct (h =? NULL); [|reflexivity].
    rewrite bind_assoc. apply bind_ext. intros [] s2. reflexivity.
  - unfold Handler. cbv zeta.
    apply bind_ext. intros [] s1. cbv beta.
    cbn [Handler_step]. rewrite !bind_assoc. apply bind_ext. intros t s2. cbv beta.
    rewrite !bind_assoc. apply bind_ext. intros [] s3. cbv beta.
    rewrite bind_ret. cbn [Handler_step].
    rewrite !bind_assoc. apply bind_ext. intros [] s4. cbv beta.
    rewrite bind_ret. cbn [Handler_step].
    rewrite !bind_assoc. apply bind_ext. intros t' s5. cbv beta.
    rewrite !bind_assoc. apply bind_ext. intros [] s6. cbv beta.
    rewrite bind_ret. reflexivity.
Qed.

End Race.

Section RaceInvariant.

Context {RT : HsaRuntime}.

Lemma Handler_step_log e pc : keeps log_extends (Handler_step e pc).
Proof.
  destruct pc; cbn [Handler_step];
    try (intros s; exact I);
    frame_bind log_extends_refl log_extends_trans;
    auto 6 using keeps_ret with frame.
Qed.

Lemma Handler_step_leaves e pc s pc' s' :
  left_wait pc = true ->
  Handler_step e pc s = Ok pc' s' -> left_wait pc' = true.
Proof.
  intros Hpc H. destruct pc; try discriminate; cbn [Handler_step] in H;
    repeat (apply bind_Ok_inv in H as (? & ? & _ & H));
    inversion H; reflexivity.
Qed.

Lemma Handler_step_wait e s pc' s' :
  Handler_step e CB_wait s = Ok pc' s' ->
  exists y,
    entries s !! e = Some y /\ entries s' = entries s /\
    ((handler y = NULL /\ pc' = CB_wait /\
      log s' = log s ++ [E_handler_load e NULL memory_order_acquire; E_sched_yield])
     \/
     (handler y <> NULL /\ pc' = CB_complete /\
      log s' = log s ++ [E_handler_load e (handler y) memory_order_acquire])).
Proof.
  cbn [Handler_step]. unfold_prims. sim.
  destruct (entries s !! e) as [y|] eqn:He; [|discriminate]. sim.
  destruct (handler y =? NULL) eqn:Hy; sim; intros H; inversion H; subst; clear H.
  - apply Z.eqb_eq in Hy. exists y. split; [reflexivity|]. split; [reflexivity|].
    left. rewrite Hy. proj_norm. rewrite <- app_assoc. auto.
  - apply Z.eqb_neq in Hy. exists y. split; [reflexivity|]. split; [reflexivity|].
    right. auto.
Qed.

Lemma Handler_step_wait_returns e s st what s' :
  Handler_step e CB_wait s <> Raised st what s'.
Proof.
  cbn [Handler_step]. unfold_prims. sim.
  destruct (entries s !! e) as [y|]; [|discriminate]. sim.
  destruct (handler y =? NULL); discriminate.
Qed.

Lemma Enable_step_cases e h a pc s pc' s' :
  Enable_step e h a pc s = Ok pc' s' ->
  (exists y f upd,
      entries s !! e = Some y /\ handler (upd y) = handler y /\
      published pc = false /\ published pc' = false /\
      s' = emit (E_entry_write e f) (set_entries (<[e := upd y]> (entries s)) s))
  \/
  (exists y,
      entries s !! e = Some y /\ pc = ARM_store /\ pc' = ARM_trace /\
      s' = emit (E_handler_store e h memory_order_release)
             (set_entries (<[e := set_handler h y]> (entries s)) s))
  \/
  (pc = ARM_trace /\ pc' = ARM_done /\ s' = s).
Proof.
  destruct pc; cbn [Enable_step]; unfold_prims; sim;
    try discriminate;
    try (destruct (entries s !! e) as [y|] eqn:He; [|discriminate]; sim);
    intros H; inversion H; subst; clear H.
  - left. exists y, f_context_active, (set_context_active true). auto.
  - left. exists y, f_arg, (set_arg a). auto.
  - right. left. exists y. auto.
  - right. right. auto.
Qed.

Lemma race_inv_step e h a s0 c c' :
  race_inv e h s0 c -> step e h a c c' -> race_inv e h s0 c'.
Proof.
  intros (L & Hlog & Hg & Hinv) Hstep.
  destruct Hstep as [c pc' s' Harm | c reg sg Hidle _ _ _ _ | c pc' s' Hcb
                    | c status what s' Hcb | c w _];
    unfold race_inv; cbn [arm cb st].
  - (* a statement of [Enable] *)
    apply Enable_step_cases in Harm
      as [(y & f & upd & He & Hupd & Hp & Hp' & ->)|[(y & He & Hpc & -> & ->)|(Hpc & -> & ->)]].
    + exists (L ++ [E_entry_write e f]). proj_norm. rewrite Hlog, <- app_assoc.
      split; [reflexivity|].
      split; [apply guarded_app_quiet; [exact Hg | repeat constructor]|].
      rewrite Hp in Hinv. rewrite Hp'.
      destruct (left_wait (cb c)).
      * destruct Hinv as (_ & Hf & _). discriminate.
      * destruct Hinv as (y' & He' & Hy'). assert (y' = y) by congruence. subst y'.
        exists (upd y). rewrite lookup_insert_eq. split; [reflexivity|]. congruence.
    + exists (L ++ [E_handler_store e h memory_order_release]).
      proj_norm. rewrite Hlog, <- app_assoc.
      split; [reflexivity|].
      split; [apply guarded_app_quiet; [exact Hg | repeat constructor]|].
      rewrite Hpc in Hinv. cbn [published] in *.
      destruct (left_wait (cb c)).
      * destruct Hinv as (_ & Hf & _). discriminate.
      * exists (set_handler h y). rewrite lookup_insert_eq.
        split; [reflexivity|]. split; [reflexivity|].
        exists L, []. reflexivity.
    + exists L. split; [exact Hlog|]. split; [exact Hg|].
      rewrite Hpc in Hinv. cbn [published] in *. exact Hinv.
  - (* the runtime calls [Handler] *)
    exists L. split; [exact Hlog|]. split; [exact Hg|].
    rewrite Hidle in Hinv. exact Hinv.
  - (* a statement of [Handler] that returns *)
    destruct (left_wait (cb c)) eqn:Hlw.
    + pose proof (Handler_step_leaves _ _ _ _ _ Hlw Hcb) as Hlw'.
      pose proof (Handler_step_log e (cb c) (st c)) as Hext.
      rewrite Hcb in Hext. destruct Hext as [evs Hevs].
      destruct Hinv as (Hh & Hp & la & lb & lc & HL).
      exists (L ++ evs). rewrite Hevs, Hlog, <- app_assoc.
      split; [reflexivity|].
      split; [eapply guarded_app_observed; eassumption|].
      rewrite Hlw'. split; [exact Hh|]. split; [exact Hp|].
      exists la, lb, (lc ++ evs). rewrite HL, <- !app_assoc. cbn [app].
      rewrite <- !app_assoc. reflexivity.
    + destruct (cb c) eqn:Hpc; cbn [left_wait] in Hlw; try discriminate.
      apply Handler_step_wait in Hcb
          as (y & He & Hent & [(Hy & -> & Hl)|(Hy & -> & Hl)]).
      * exists (L ++ [E_handler_load e NULL memory_order_acquire; E_sched_yield]).
        rewrite Hl, Hlog, <- app_assoc.
        split; [reflexivity|].
        split; [apply guarded_app_quiet; [exact Hg | repeat constructor]|].
        cbn [left_wait]. rewrite Hent.
        destruct Hinv as (y' & He' & Hy'). exists y'. split; [exact He'|].
        destruct (published (arm c)); [|exact Hy'].
        destruct Hy' as (Hh & la & lb & HL). split; [exact Hh|].
        exists la, (lb ++ [E_handler_load e NULL memory_order_acquire; E_sched_yield]).
        rewrite HL, <- app_assoc. reflexivity.
      * destruct Hinv as (y' & He' & Hy'). assert (y' = y) by congruence. subst y'.
        destruct (published (arm c)) eqn:Hp; [|congruence].
        destruct Hy' as (Hh & la & lb & HL).
        exists (L ++ [E_handler_load e (handler y) memory_order_acquire]).
        rewrite Hl, Hlog, <- app_assoc.
        split; [reflexivity|].
        split; [apply guarded_app_quiet; [exact Hg | repeat constructor]|].
        cbn [left_wait]. split; [congruence|]. split; [reflexivity|].
        exists la, lb, []. rewrite HL, Hh, <- app_assoc. reflexivity.
  - (* a statement of [Handler] that raises *)
    destruct (left_wait (cb c)) eqn:Hlw.
    + pose proof (Handler_step_log e (cb c) (st c)) as Hext.
      rewrite Hcb in Hext. destruct Hext as [evs Hevs].
      destruct Hinv as (Hh & Hp & la & lb & lc & HL).
      exists (L ++ evs). rewrite Hevs, Hlog, <- app_assoc.
      split; [reflexivity|].
      split; [eapply guarded_app_observed; eassumption|].
      cbn [left_wait]. split; [exact Hh|]. split; [exact Hp|].
      exists la, lb, (lc ++ evs). rewrite HL, <- !app_assoc. cbn [app].
      rewrite <- !app_assoc. reflexivity.
    + destruct (cb c) eqn:Hpc; cbn [left_wait] in Hlw; try discriminate.
      exfalso. eapply Handler_step_wait_returns. exact Hcb.
  - (* the runtime changes its own memory *)
    exists L. split; [exact Hlog|]. split; [exact Hg|]. exact Hinv.
Qed.

Lemma race_inv_runs e h a s0 c0 c :
  race_inv e h s0 c0 -> runs e h a c0 c -> race_inv e h s0 c.
Proof.
  intros H0 Hr. induction Hr as [|c1 c2 c3 _ IH Hs]; [exact H0|].
  eapply race_inv_step; [apply IH; exact H0 | exact Hs].
Qed.

(** C1.  Let the entry be allocated and not armed, and let [Enable], the
    runtime and [Handler] run in any interleaving, the call of [Handler]
    included before [Enable] has begun.  Then [Handler] leaves its wait
    loop only when the store of [Enable] has been executed and the
    pointer [h] it stored is not null; and every operation of the
    completion logic, the call of the user's handler among them, comes
    after an acquire load of the handler field that returned [h], which
    comes after the release store of [h]. *)
Theorem Handler_waits_for_publication
    (e h a : Z) (context_style : bool) (s0 : state) (x : entry_t) (c : config)
    (He : entries s0 !! e = Some x)
    (Hx : handler x = NULL)
    (Hr : runs e h a {| arm := arm_entry context_style; cb := CB_idle; st := s0 |} c) :
  exists L,
    log (st c) = log s0 ++ L /\
    (left_wait (cb c) = true -> h <> NULL /\ published (arm c) = true) /\
    (forall l1 ev l2,
        L = l1 ++ ev :: l2 -> is_completion_event ev = true ->
        h <> NULL /\
        exists la lb lc,
          l1 = la ++ E_handler_store e h memory_order_release
                  :: lb ++ E_handler_load e h memory_order_acquire :: lc).
Proof.
  assert (race_inv e h s0 {| arm := arm_entry context_style; cb := CB_idle; st := s0 |})
    as H0.
  { exists []. cbn [st cb arm left_wait]. rewrite app_nil_r.
    split; [reflexivity|]. split; [apply guarded_nil|].
    exists x. split; [exact He|].
    destruct context_style; cbn [arm_entry published]; exact Hx. }
  destruct (race_inv_runs _ _ _ _ _ _ H0 Hr) as (L & Hlog & Hg & Hinv).
  exists L. split; [exact Hlog|]. split; [|exact Hg].
  intros Hlw. rewrite Hlw in Hinv. destruct Hinv as (Hh & Hp & _). auto.
Qed.

End RaceInvariant.

Section Scheduler.

Context {RT : HsaRuntime}.

Lemma can_fire_spec e s :
  can_fire e s = true ->
  exists reg sg,
    reg ∈ async_handlers (hsa s) /\ reg_arg reg = e /\
    signals (hsa s) !! reg_signal reg = Some sg /\
    condition_holds (reg_cond reg) (value sg) (reg_value reg) = true.
Proof.
  unfold can_fire. intros H. apply existsb_exists in H as (reg & Hin & H).
  apply andb_true_iff in H as [Ha Hc]. apply Z.eqb_eq in Ha.
  destruct (signals (hsa s) !! reg_signal reg) as [sg|] eqn:Hs; [|discriminate].
  exists reg, sg. rewrite list_elem_of_In. auto.
Qed.

Lemma exec1_step e h a act c c' : exec1 e h a act c = Some c' -> step e h a c c'.
Proof.
  destruct act as [| | |m t]; cbn [exec1].
  - destruct (Enable_step e h a (arm c) (st c)) eqn:E; try discriminate.
    intros H. inversion H. apply step_arm. exact E.
  - destruct (cb c) eqn:Hc; try discriminate.
    destruct (can_fire e (st c)) eqn:Hf; [|discriminate].
    intros H. inversion H.
    apply can_fire_spec in Hf as (reg & sg & Hf1 & Hf2 & Hf3 & Hf4).
    eapply step_fire; eassumption.
  - destruct (Handler_step e (cb c) (st c)) eqn:E; try discriminate;
      intros H; inversion H.
    + apply step_callback. exact E.
    + eapply step_callback_raised. exact E.
  - intros H. inversion H. apply step_runtime. reflexivity.
Qed.

Lemma runs_first e h a c1 c2 c3 :
  step e h a c1 c2 -> runs e h a c2 c3 -> runs e h a c1 c3.
Proof.
  intros Hs Hr. induction Hr as [c|c2 c3 c4 _ IH Hs'].
  - eapply runs_step; [apply runs_refl | exact Hs].
  - eapply runs_step; [apply IH; exact Hs | exact Hs'].
Qed.

Lemma exec_runs e h a acts : forall c c',
  exec e h a acts c = Some c' -> runs e h a c c'.
Proof.
  induction acts as [|act acts IH]; intros c c' H; cbn [exec] in H.
  - inversion H. apply runs_refl.
  - destruct (exec1 e h a act c) as [c1|] eqn:E; [|discriminate].
    eapply runs_first; [eapply exec1_step; exact E | apply IH; exact H].
Qed.

(** C10.  In every state the tracker reaches, each node of the list holds
    a live entry whose [it] is that node, so that [*entry->it] is the
    entry itself.  [Alloc] sets it up: the iterator it stores is the one
    of the node it has put in front, a node that was not in the list.
    [Delete] relies on it: it erases the node [entry->it] between [lock]
    and [unlock], which removes the entry's node and no other, and every
    other entry stays in the list with its fields, [it] included, as they
    were. *)
Theorem registry_self_position (s : state) (Hr : reachable s) :
  (forall n e, (n, e) ∈ sig_list_ (self s) ->
     exists x, entries s !! e = Some x /\ it x = n /\
               list_deref (sig_list_ (self s)) (it x) = Some e)
  /\
  (forall ag og e s', Alloc ag og s = Ok e s' ->
     exists x, entries s' !! e = Some x /\
               sig_list_ (self s') = (it x, e) :: sig_list_ (self s) /\
               it x ∉ map fst (sig_list_ (self s)))
  /\
  (forall n e, (n, e) ∈ sig_list_ (self s) ->
     exists x s',
       entries s !! e = Some x /\
       Delete e s = Ok tt s' /\
       log s' = log s ++ [E_hsa_signal_destroy (handle (signal x)); E_lock;
                          E_list_erase (it x); E_unlock; E_delete_entry e] /\
       sig_list_ (self s') = without_node n (sig_list_ (self s)) /\
       (forall n' e', (n', e') ∈ sig_list_ (self s') <->
                      (n', e') ∈ sig_list_ (self s) /\ e' <> e) /\
       (forall e', e' <> e -> entries s' !! e' = entries s !! e') /\
       reachable s').
Proof.
  pose proof (reachable_wf s Hr) as Hwf.
  split; [|split].
  - intros n e Hin. destruct (wf_position _ Hwf _ _ Hin) as (x & He & Hit).
    exists x. split; [exact He|]. split; [exact Hit|].
    rewrite Hit. apply list_deref_spec; [apply Hwf | exact Hin].
  - intros ag og e s' Ha.
    destruct (decide (signal_create_status (hsa s) = HSA_STATUS_SUCCESS)) as [Hc|Hc];
      [|rewrite (Alloc_run_create_fails _ _ _ Hc) in Ha; discriminate].
    destruct (decide (async_handler_status (hsa_created (hsa s))
                        {| handle := next_signal (hsa s) |} = HSA_STATUS_SUCCESS))
      as [Hs|Hs];
      [|rewrite (Alloc_run_register_fails _ _ _ Hc Hs) in Ha; discriminate].
    rewrite (Alloc_run _ _ _ Hc Hs (wf_mutex _ Hwf)) in Ha.
    inversion Ha; subst; clear Ha.
    exists (alloc_entry s ag og). proj_norm.
    split; [apply lookup_insert_eq|]. split; [reflexivity|].
    cbn [alloc_entry it]. intros Hin.
    apply list_elem_of_fmap in Hin as [[n e] [Hn Hin]]. cbn [fst] in Hn. subst n.
    eapply next_node_fresh. exact Hin.
  - intros n e Hin. destruct (wf_position _ Hwf _ _ Hin) as (x & He & Hit).
    assert (list_erase (sig_list_ (self s)) (it x) =
            Some (without_node n (sig_list_ (self s)))) as Hle.
    { rewrite Hit. apply list_erase_spec; [apply Hwf|].
      apply (list_elem_of_fmap_2 fst) in Hin. exact Hin. }
    pose proof (Delete_run s e x _ He (wf_mutex _ Hwf) Hle) as Hd.
    eexists x, _. split; [exact He|]. split; [exact Hd|]. proj_norm.
    split; [reflexivity|]. split; [reflexivity|]. split; [|split].
    + intros n' e'. rewrite elem_of_without_node. cbn [fst].
      split; intros [H1 H2]; (split; [exact H1|]).
      * intros ->. apply H2.
        destruct (wf_position _ Hwf _ _ H1) as (x' & Hx' & Hit').
        congruence.
      * intros ->. apply H2.
        eapply node_unique; [apply Hwf | exact H1 | exact Hin].
    + intros e' Hne. apply lookup_delete_ne. congruence.
    + eapply reach_Delete; [exact Hr | exact Hd].
Qed.

End Scheduler.

(** ** The theorems at work on concrete states *)

Lemma registry_wf_single s n e x :
  sig_list_ (self s) = [(n, e)] -> n <> list_end ->
  entries s = {[ e := x ]} -> it x = n -> mutex_ (self s) = false ->
  registry_wf s.
Proof.
  intros Hl Hn He Hit Hm. split; rewrite ?Hl, ?He; [| | | |exact Hm].
  - cbn [map fst]. apply NoDup_singleton.
  - intros n' e' H. apply list_elem_of_singleton in H. congruence.
  - intros n' e' H. apply list_elem_of_singleton in H. inversion H; subst.
    exists x. rewrite lookup_singleton_eq. auto.
  - intros e' x' H. apply lookup_singleton_Some in H as [-> ->].
    right. rewrite Hit. apply list_elem_of_singleton. reflexivity.
Qed.

Lemma completable_state_fired :
  completable (RT := rt_nominal) state_fired 1 entry_1_armed.
Proof.
  split.
  - vm_compute. reflexivity.
  - eexists. vm_compute. reflexivity.
  - vm_compute. reflexivity.
  - intros _. eexists. vm_compute. reflexivity.
  - intros _. eexists. vm_compute. reflexivity.
Qed.

Lemma registered_state_fired : registered state_fired 1 entry_1_armed.
Proof.
  split.
  - apply (registry_wf_single _ 1 1 entry_1_armed); try reflexivity. discriminate.
  - reflexivity.
  - apply list_elem_of_singleton. reflexivity.
Qed.

Lemma completable_state_allocated :
  completable (RT := rt_nominal) state_allocated 1 entry_1.
Proof.
  split.
  - vm_compute. reflexivity.
  - eexists. vm_compute. reflexivity.
  - vm_compute. reflexivity.
  - intros _. eexists. vm_compute. reflexivity.
  - intros _. eexists. vm_compute. reflexivity.
Qed.

Lemma registered_state_allocated : registered state_allocated 1 entry_1.
Proof.
  split.
  - apply (registry_wf_single _ 1 1 entry_1); try reflexivity. discriminate.
  - reflexivity.
  - apply list_elem_of_singleton. reflexivity.
Qed.

Lemma completable_state_fired_null :
  completable (RT := rt_nominal) state_fired_null 1 entry_1_null.
Proof.
  split.
  - vm_compute. reflexivity.
  - eexists. vm_compute. reflexivity.
  - vm_compute. reflexivity.
  - intros H. exfalso. apply H. reflexivity.
  - intros H. exfalso. apply H. reflexivity.
Qed.

Lemma registered_state_fired_null : registered state_fired_null 1 entry_1_null.
Proof.
  split.
  - apply (registry_wf_single _ 1 1 entry_1_null); try reflexivity. discriminate.
  - reflexivity.
  - apply list_elem_of_singleton. reflexivity.
Qed.

Lemma drainable_state_fired : drainable state_fired.
Proof.
  split.
  - intros n e x Hin Hx. apply list_elem_of_singleton in Hin. inversion Hin; subst.
    cbn [state_fired entries] in Hx. apply lookup_singleton_Some in Hx as [_ <-].
    exists {| value := 0; start_ts := 11; end_ts := 22 |}.
    split; [vm_compute; reflexivity | cbn [value]; lia].
  - intros n1 e1 x1 n2 e2 x2 H1 H2 _ _ Hne.
    apply list_elem_of_singleton in H1. apply list_elem_of_singleton in H2. congruence.
Qed.

Lemma reachable_state_after_Alloc : reachable (RT := rt_nominal) state_after_Alloc.
Proof.
  eapply (reach_Alloc state_init {| agent_handle := 7 |} {| handle := 64 |} 1).
  - apply reach_ctor; reflexivity.
  - vm_compute. reflexivity.
Qed.

Example Handler_raises_without_times :
  exists s',
    Handler (RT := rt_no_times) 1 0 1 state_fired =
      Raised HSA_STATUS_ERROR "hsa_amd_profiling_get_dispatch_time" s' /\
    List.filter is_user_call (log s') = [] /\
    sig_list_ (self s') = [(1, 1)].
Proof. eexists. vm_compute. auto. Qed.

Lemma Handler_waits_for_publication_witness :
  runs (RT := rt_nominal) 1 500 77 race_start race_end /\
  cb race_end = CB_call /\
  500 <> NULL /\ published (arm race_end) = true.
Proof.
  assert (runs (RT := rt_nominal) 1 500 77 race_start race_end) as Hruns.
  { apply (exec_runs 1 500 77 race_script). vm_compute. reflexivity. }
  destruct (Handler_waits_for_publication (RT := rt_nominal)
              1 500 77 true state_allocated entry_1 race_end
              ltac:(vm_compute; reflexivity) ltac:(reflexivity) Hruns)
    as (L & _ & Hlw & _).
  split; [exact Hruns|]. split; [vm_compute; reflexivity|].
  apply Hlw. vm_compute. reflexivity.
Defined.

Lemma Complete_forwards_completion_witness :
  exists s' og',
    Complete (RT := rt_nominal) 1 state_fired = Ok tt s' /\
    signals (hsa s') !! 64 = Some og' /\
    value og' = 0 /\ start_ts og' = 11 /\ end_ts og' = 22.
Proof.
  destruct (Complete_forwards_completion (RT := rt_nominal) state_fired 1 entry_1_armed
              {| dispatch := 1000; begin := 0; end_ := 0; complete := 0 |}
              {| value := 1; start_ts := 0; end_ts := 0 |}
              {| value := 0; start_ts := 11; end_ts := 22 |}
              ltac:(vm_compute; reflexivity) ltac:(vm_compute; reflexivity)
              ltac:(vm_compute; reflexivity) ltac:(discriminate)
              ltac:(vm_compute; reflexivity) ltac:(vm_compute; reflexivity)
              ltac:(vm_compute; split; [reflexivity | discriminate]))
    as (s' & og' & pg' & evs & Hrun & Ho & _ & Hs & He & _ & _ & Hv & _).
  exists s', og'. auto.
Defined.

Lemma Handler_order_witness :
  exists s',
    Handler (RT := rt_nominal) 1 0 1 state_fired = Ok false s' /\
    entries s' !! 1 = None.
Proof.
  destruct (Handler_order (RT := rt_nominal) state_fired 1 entry_1_armed 0 0
              completable_state_fired registered_state_fired ltac:(discriminate))
    as [(s3 & s' & _ & _ & _ & _ & Hrun & _ & _ & _ & _ & Hgone & _) _].
  exists s'. auto.
Defined.

Lemma Alloc_creates_entry_witness :
  exists e s' x,
    Alloc (RT := rt_nominal) {| agent_handle := 7 |} {| handle := 64 |} state_init
      = Ok e s' /\
    sig_list_ (self s') = [(it x, e)] /\ handler x = NULL.
Proof.
  destruct (Alloc_creates_entry (RT := rt_nominal) state_init
              {| agent_handle := 7 |} {| handle := 64 |}
              ltac:(reflexivity) ltac:(reflexivity) ltac:(reflexivity))
    as (e & s' & x & pre & Hrun & _ & _ & _ & _ & _ & _ & Hh & _ & _ & _ & _ & _ & _
        & _ & Hl & _).
  exists e, s', x. auto.
Defined.

Lemma Alloc_failure_leaves_registry_witness :
  exists st what s',
    Alloc (RT := rt_no_signal) {| agent_handle := 7 |} {| handle := 64 |} state_init
      = Raised st what s' /\
    sig_list_ (self s') = [].
Proof.
  destruct (Alloc_failure_leaves_registry (RT := rt_no_signal) state_init
              {| agent_handle := 7 |} {| handle := 64 |}
              ltac:(left; discriminate))
    as (st & what & s' & evs & Hrun & _ & Hl & _).
  exists st, what, s'. auto.
Defined.

Lemma Handler_calls_one_convention_witness :
  exists s1 s2 evs,
    Enable_hsa_amd_signal_handler 1 500 77 state_allocated = Ok tt s1 /\
    Handler (RT := rt_nominal) 1 0 1 s1 = Ok false s2 /\
    log s2 = log s1 ++ evs /\
    List.filter is_user_call evs = [E_call_context 500 0 77].
Proof.
  destruct (Handler_calls_one_convention (RT := rt_nominal) state_allocated 1 entry_1
              500 77 0 0 completable_state_allocated registered_state_allocated
              ltac:(reflexivity) ltac:(discriminate))
    as [H _].
  exact H.
Defined.

Lemma Tracker_dtor_drains_witness :
  exists s', Tracker_dtor 1 state_fired = Ok tt s' /\ sig_list_ (self s') = [].
Proof.
  destruct (Tracker_dtor_drains state_fired (rg_wf _ _ _ registered_state_fired))
    as [H _].
  destruct (H 1%nat drainable_state_fired ltac:(cbn; lia)) as (s' & Hrun & Hl & _).
  exists s'. auto.
Defined.

Lemma Complete_skips_null_original_witness :
  exists s1,
    Complete (RT := rt_nominal) 1 state_fired_null = Ok tt s1 /\
    hsa s1 = hsa state_fired_null.
Proof.
  destruct (Complete_skips_null_original (RT := rt_nominal) state_fired_null 1
              entry_1_null 0 0 completable_state_fired_null
              registered_state_fired_null ltac:(discriminate) ltac:(reflexivity))
    as [(s1 & Hrun & Hh & _) _].
  exists s1. auto.
Defined.

Lemma registry_self_position_witness :
  exists x, entries state_after_Alloc !! 1 = Some x /\ it x = 1.
Proof.
  destruct (registry_self_position (RT := rt_nominal) state_after_Alloc
              reachable_state_after_Alloc) as [H _].
  destruct (H 1 1 ltac:(vm_compute; apply list_elem_of_here)) as (x & Hx & Hit & _).
  exists x. auto.
Defined.

(** * Further properties of the member functions *)

(** ** Allocation *)

Section AllocFacts.

Context {RT : HsaRuntime}.

(** A successful [Alloc] is the one described by [Alloc_run]. *)
Lemma Alloc_Ok_inv s ag og e s' :
  mutex_ (self s) = false ->
  Alloc ag og s = Ok e s' ->
  e = next_entry s /\
  s' = set_entries (<[next_entry s := alloc_entry s ag og]> (entries s))
         (set_records (<[next_record s := alloc_record s]> (records s))
            (set_hsa (hsa_registered (hsa s) (next_entry s))
               (set_self (set_mutex false
                            (set_sig_list ((next_node s, next_entry s) :: sig_list_ (self s))
                               (self s)))
                  (set_log (log s ++ alloc_events s) s)))).
Proof.
  intros Hm Ha.
  destruct (decide (signal_create_status (hsa s) = HSA_STATUS_SUCCESS)) as [Hc|Hc];
    [|rewrite (Alloc_run_create_fails _ _ _ Hc) in Ha; discriminate].
  destruct (decide (async_handler_status (hsa_created (hsa s))
                      {| handle := next_signal (hsa s) |} = HSA_STATUS_SUCCESS))
    as [Hs|Hs];
    [|rewrite (Alloc_run_register_fails _ _ _ Hc Hs) in Ha; discriminate].
  rewrite (Alloc_run _ _ _ Hc Hs Hm) in Ha. inversion Ha. auto.
Qed.

(** X1.  Two successive allocations give two entries that share nothing:
    the entries, their records, their proxy signals and their list nodes
    are pairwise different, the second allocation leaves the first entry,
    its record and its proxy signal as they were, and the later entry
    stands in front of the earlier one in the list. *)
Theorem Alloc_twice_distinct
    (s s1 s2 : state) (ag1 ag2 : hsa_agent_t) (og1 og2 : hsa_signal_t) (e1 e2 : Z)
    (Hm : mutex_ (self s) = false)
    (H1 : Alloc ag1 og1 s = Ok e1 s1)
    (H2 : Alloc ag2 og2 s1 = Ok e2 s2) :
  exists x1 x2,
    entries s1 !! e1 = Some x1 /\
    entries s2 !! e1 = Some x1 /\ entries s2 !! e2 = Some x2 /\
    e1 <> e2 /\ record x1 <> record x2 /\
    handle (signal x1) <> handle (signal x2) /\ it x1 <> it x2 /\
    records s2 !! record x1 = records s1 !! record x1 /\
    signals (hsa s2) !! handle (signal x1) = signals (hsa s1) !! handle (signal x1) /\
    is_Some (records s2 !! record x1) /\ is_Some (records s2 !! record x2) /\
    is_Some (signals (hsa s2) !! handle (signal x1)) /\
    is_Some (signals (hsa s2) !! handle (signal x2)) /\
    sig_list_ (self s2) = (it x2, e2) :: (it x1, e1) :: sig_list_ (self s).
Proof.
  destruct (Alloc_Ok_inv _ _ _ _ _ Hm H1) as [-> ->].
  set (s1 := set_entries _ _) in *.
  assert (mutex_ (self s1) = false) as Hm1 by reflexivity.
  destruct (Alloc_Ok_inv _ _ _ _ _ Hm1 H2) as [-> ->].
  exists (alloc_entry s ag1 og1), (alloc_entry s1 ag2 og2).
  pose proof (next_entry_fresh s1) as Fe.
  pose proof (fresh_above_dom (records s1)) as Fr. fold (next_record s1) in Fr.
  pose proof (next_signal_fresh (hsa s1)) as Fs.
  pose proof (next_node_fresh s1 (next_entry s)) as Fn.
  assert (entries s1 !! next_entry s = Some (alloc_entry s ag1 og1)) as L1
    by (cbn [s1 set_entries entries]; apply lookup_insert_eq).
  assert (records s1 !! next_record s = Some (alloc_record s)) as L2
    by (cbn [s1 set_entries set_records records]; apply lookup_insert_eq).
  assert (signals (hsa s1) !! next_signal (hsa s) = Some proxy_initial) as L3.
  { cbn [s1 set_entries set_records set_hsa hsa hsa_registered hsa_created
         set_async_handlers set_signals signals]. apply lookup_insert_eq. }
  assert (next_entry s <> next_entry s1) as D1 by congruence.
  assert (next_record s <> next_record s1) as D2 by congruence.
  assert (next_signal (hsa s) <> next_signal (hsa s1)) as D3 by congruence.
  assert (next_node s <> next_node s1) as D4.
  { intros Heq. apply Fn. rewrite <- Heq.
    cbn [s1 set_entries set_records set_hsa set_self set_mutex set_sig_list
         self sig_list_]. apply elem_of_cons. left. reflexivity. }
  proj_norm. cbn [alloc_entry it record signal handle].
  unfold hsa_registered, hsa_created. proj_norm.
  rewrite !(lookup_insert_ne _ (next_entry s1)) by congruence.
  rewrite !(lookup_insert_ne _ (next_record s1)) by congruence.
  rewrite !(lookup_insert_ne _ (next_signal (hsa s1))) by congruence.
  rewrite !lookup_insert_eq.
  split; [exact L1|]. split; [exact L1|].
  repeat split; try assumption; try reflexivity; eauto.
Qed.

(** X2.  [Delete] undoes what [Alloc] did to the registry: the list, the
    entries and the signals are those before the allocation.  The record
    is not freed: it stays allocated with its dispatch time. *)
Theorem Alloc_then_Delete (s s1 : state) (ag : hsa_agent_t) (og : hsa_signal_t) (e : Z)
    (Hm : mutex_ (self s) = false)
    (Ha : Alloc ag og s = Ok e s1) :
  exists s2 x,
    entries s1 !! e = Some x /\
    Delete e s1 = Ok tt s2 /\
    sig_list_ (self s2) = sig_list_ (self s) /\
    entries s2 = entries s /\
    signals (hsa s2) = signals (hsa s) /\
    records s !! record x = None /\
    records s2 !! record x = Some (alloc_record s) /\
    mutex_ (self s2) = false.
Proof.
  destruct (Alloc_Ok_inv _ _ _ _ _ Hm Ha) as [-> ->].
  set (s1 := set_entries _ _).
  assert (entries s1 !! next_entry s = Some (alloc_entry s ag og)) as L1
    by (cbn [s1 set_entries entries]; apply lookup_insert_eq).
  assert (list_erase (sig_list_ (self s1)) (it (alloc_entry s ag og)) =
          Some (sig_list_ (self s))) as Hle.
  { cbn [s1 set_entries set_records set_hsa set_self set_mutex set_sig_list
         self sig_list_ alloc_entry it list_erase]. rewrite Z.eqb_refl. reflexivity. }
  pose proof (Delete_run s1 _ _ _ L1 eq_refl Hle) as Hd.
  eexists _, (alloc_entry s ag og). split; [exact L1|]. split; [exact Hd|].
  subst s1. proj_norm. unfold hsa_registered, hsa_created. proj_norm.
  cbn [alloc_entry signal handle record].
  split; [reflexivity|].
  split; [apply delete_insert_id, next_entry_fresh|].
  split; [apply delete_insert_id, next_signal_fresh|].
  split; [apply fresh_above_dom|].
  split; [apply lookup_insert_eq | reflexivity].
Qed.

(** X3.  A failed [Alloc] releases nothing: the entry and the record it
    has allocated stay allocated, the entry outside the list; and when it
    is the registration that fails, the proxy signal created just before
    stays alive.  No operation of the failed call destroys a signal or
    frees an entry. *)
Theorem Alloc_failure_releases_nothing
    (s : state) (ag : hsa_agent_t) (og : hsa_signal_t)
    (Hf : signal_create_status (hsa s) <> HSA_STATUS_SUCCESS \/
          async_handler_status (hsa_created (hsa s))
            {| handle := next_signal (hsa s) |} <> HSA_STATUS_SUCCESS) :
  exists st what s' x evs,
    Alloc ag og s = Raised st what s' /\
    entries s !! next_entry s = None /\
    entries s' !! next_entry s = Some x /\
    it x = list_end /\ agent x = ag /\ orig x = og /\
    records s' !! record x = Some (alloc_record s) /\
    (signal_create_status (hsa s) = HSA_STATUS_SUCCESS ->
     signals (hsa s) !! handle (signal x) = None /\
     signals (hsa s') !! handle (signal x) = Some proxy_initial) /\
    log s' = log s ++ evs /\
    Forall (fun ev => forall h e, ev <> E_hsa_signal_destroy h /\ ev <> E_delete_entry e) evs.
Proof.
  destruct (decide (signal_create_status (hsa s) = HSA_STATUS_SUCCESS)) as [Hc|Hc].
  - destruct Hf as [Hf|Hf]; [contradiction|].
    eexists _, _, _, _, _. split; [apply Alloc_run_register_fails; assumption|].
    proj_norm. rewrite lookup_insert_eq.
    split; [apply next_entry_fresh|]. split; [reflexivity|].
    cbn [set_it alloc_entry it agent orig record signal handle].
    split; [reflexivity|]. split; [reflexivity|]. split; [reflexivity|].
    split; [apply lookup_insert_eq|]. split.
    { intros _. split; [apply next_signal_fresh|].
      unfold hsa_created. proj_norm. apply lookup_insert_eq. }
    split; [reflexivity|].
    unfold alloc_prefix. cbn [app].
    repeat (apply Forall_cons; split; [intros ? ?; split; discriminate|]).
    apply Forall_nil. exact I.
  - eexists _, _, _, _, _. split; [apply Alloc_run_create_fails; assumption|].
    proj_norm. rewrite lookup_insert_eq.
    split; [apply next_entry_fresh|]. split; [reflexivity|].
    cbn [set_record set_orig set_agent set_tracker entry_zero it agent orig record].
    split; [reflexivity|]. split; [reflexivity|]. split; [reflexivity|].
    split; [apply lookup_insert_eq|]. split; [intros; contradiction|].
    split; [reflexivity|].
    unfold alloc_prefix. cbn [app].
    repeat (apply Forall_cons; split; [intros ? ?; split; discriminate|]).
    apply Forall_nil. exact I.
Qed.

End AllocFacts.

(** ** Completion: the record, the failure of the query, other entries *)

Lemma Delete_Ok_entries s e s' :
  Delete e s = Ok tt s' -> entries s' = delete e (entries s).
Proof.
  unfold Delete. unfold_prims. sim.
  destruct (entries s !! e) as [x|] eqn:He; [|discriminate]. sim.
  destruct (mutex_ (self s)); [discriminate|]. sim. rewrite He. sim.
  destruct (list_erase (sig_list_ (self s)) (it x)); [|discriminate]. sim.
  rewrite He. sim. intros H. inversion H. reflexivity.
Qed.

Lemma Enable_Undefined_dead s e h a :
  entries s !! e = None ->
  Enable e h a s = Undefined /\ Enable_hsa_amd_signal_handler e h a s = Undefined.
Proof.
  intros He. unfold Enable_hsa_amd_signal_handler, Enable. unfold_prims. sim.
  rewrite He. auto.
Qed.

Section CompletionFacts.

Context {RT : HsaRuntime}.

Lemma Handler_Undefined_dead s e fuel v :
  entries s !! e = None -> Handler (S fuel) v e s = Undefined.
Proof.
  intros He. unfold Handler. cbv zeta. cbn [Handler_wait]. unfold_prims. sim.
  rewrite He. reflexivity.
Qed.

Lemma Handler_Ok_entries s e fuel v r s' :
  Handler fuel v e s = Ok r s' -> entries s' !! e = None.
Proof.
  intros H. unfold Handler in H. cbv zeta in H.
  apply bind_Ok_inv in H as (? & s1 & _ & H).
  apply bind_Ok_inv in H as (? & s2 & _ & H).
  apply bind_Ok_inv in H as (? & s3 & _ & H).
  apply bind_Ok_inv in H as (? & s4 & _ & H).
  apply bind_Ok_inv in H as (t & s5 & _ & H).
  apply bind_Ok_inv in H as ([] & s6 & Hd & H).
  unfold ret in H. inversion H; subst.
  unfold on_tracker in Hd. destruct (t =? this s5); [|discriminate].
  rewrite (Delete_Ok_entries _ _ _ Hd). apply lookup_delete_eq.
Qed.

(** The state [Complete] ends in: the record is stamped, a non-null
    original signal is the only signal written, nothing else moves. *)
Lemma Complete_state s e x rc :
  completable s e x -> records s !! record x = Some rc ->
  exists sc,
    Complete e s = Ok tt sc /\ same_registry s sc /\
    log sc = log s ++ complete_events s x /\
    records sc =
      <[record x := stamped rc (snd (profiling_get_dispatch_time (hsa s) (agent x) (signal x)))
                      (host_clock (hsa s))]> (records s) /\
    (forall h, h <> handle (orig x) -> signals (hsa sc) !! h = signals (hsa s) !! h) /\
    (handle (orig x) = 0 -> hsa sc = hsa s).
Proof.
  intros [He _ Hq Ho Hp] Hr.
  destruct (profiling_get_dispatch_time (hsa s) (agent x) (signal x)) as [st dt] eqn:Hd.
  cbn [fst snd] in *. subst st. unfold complete_events.
  destruct (handle (orig x) =? 0) eqn:E.
  - apply Z.eqb_eq in E.
    rewrite (Complete_run_null _ _ _ _ _ He Hr Hd E).
    eexists. split; [reflexivity|]. proj_norm. rewrite app_nil_r.
    repeat split.
  - apply Z.eqb_neq in E.
    destruct (Ho E) as [og Hog]. destruct (Hp E) as [pg Hpg].
    rewrite (Complete_run_forward _ _ _ _ _ _ _ He Hr Hd E Hpg Hog).
    eexists. split; [reflexivity|]. proj_norm. rewrite Hog.
    repeat split.
    + intros h Hh. apply lookup_insert_ne. congruence.
    + intros; contradiction.
Qed.

(** The state a whole run of [Handler] ends in. *)
Lemma Handler_state s e x rc fuel v :
  completable s e x -> registered s e x -> handler x <> NULL ->
  records s !! record x = Some rc ->
  exists s',
    Handler (S fuel) v e s = Ok false s' /\
    entries s' = delete e (entries s) /\
    sig_list_ (self s') = without_node (it x) (sig_list_ (self s)) /\
    records s' =
      <[record x := stamped rc (snd (profiling_get_dispatch_time (hsa s) (agent x) (signal x)))
                      (host_clock (hsa s))]> (records s) /\
    (forall h, h <> handle (orig x) -> h <> handle (signal x) ->
               signals (hsa s') !! h = signals (hsa s) !! h) /\
    signals (hsa s') !! handle (signal x) = None /\
    log s' = log s ++ handler_events s e x.
Proof.
  intros Hc Hr Hh Hrc.
  pose proof (cp_entry _ _ _ Hc) as He.
  destruct (Handler_run s e x fuel v Hc Hr Hh)
    as (s3 & s' & Hpre & Hent3 & Hself3 & Hdel & Hrun & Hlog & _ & Hent & Hlist & _).
  exists s'. split; [exact Hrun|]. split; [exact Hent|]. split; [exact Hlist|].
  set (s1 := emit (E_handler_load e (handler x) memory_order_acquire) s).
  assert (completable s1 e x) as Hc1 by (eapply completable_same; [| | |exact Hc]; reflexivity).
  destruct (Complete_state s1 e x rc Hc1 Hrc)
    as (sc & Hcomp & (Hthis & Hself & Hentc) & _ & Hrec & Hsig & _).
  assert (entries sc !! e = Some x) as Hec by (rewrite Hentc; exact He).
  set (s3' := set_log (log sc ++ [E_handler_load e (handler x) memory_order_seq_cst;
                                  call_event x]) sc).
  assert (s3 = s3') as ->.
  { rewrite (bind_run _ _ _ _ _ (Handler_wait_armed fuel _ _ _ He Hh)) in Hpre.
    rewrite (bind_run _ _ _ _ _ (entry_load_run s1 e x tracker He)) in Hpre.
    rewrite (bind_run _ _ _ _ _
               (eq_trans (on_tracker_run (Complete e) (tracker x) s1 (rg_tracker _ _ _ Hr))
                  Hcomp)) in Hpre.
    rewrite (Handler_call_run sc e x Hec Hh) in Hpre. inversion Hpre. reflexivity. }
  assert (mutex_ (self s3') = false) as Hm3.
  { cbn [s3' set_log self]. rewrite Hself. apply (rg_wf _ _ _ Hr). }
  assert (list_erase (sig_list_ (self s3')) (it x)
          = Some (without_node (it x) (sig_list_ (self s)))) as Hle.
  { cbn [s3' set_log self]. rewrite Hself. cbn [s1 emit self].
    apply list_erase_spec; [apply (rg_wf _ _ _ Hr)|].
    pose proof (rg_listed _ _ _ Hr) as Hl.
    apply (list_elem_of_fmap_2 fst) in Hl. exact Hl. }
  rewrite (Delete_run s3' e x _ Hec Hm3 Hle) in Hdel. injection Hdel as Hs'.
  split; [|split; [|split; [|exact Hlog]]]; subst s' s3'; proj_norm.
  - rewrite Hrec. reflexivity.
  - intros h H1 H2. rewrite lookup_delete_ne by congruence.
    rewrite (Hsig h H1). reflexivity.
  - apply lookup_delete_eq.
Qed.

(** X4.  A completed dispatch leaves its record behind: after [Handler]
    the entry is freed, while its record is still allocated and holds the
    dispatch time set by [Alloc], the begin and end times the runtime
    reports for the proxy signal, converted to nanoseconds, and the clock
    reading of the completion. *)
Theorem Handler_leaves_stamped_record
    (s : state) (e : Z) (x : entry_t) (rc : record_t) (fuel : nat)
    (v : hsa_signal_value_t)
    (Hc : completable s e x) (Hr : registered s e x) (Hh : handler x <> NULL)
    (Hrc : records s !! record x = Some rc) :
  exists s',
    Handler (S fuel) v e s = Ok false s' /\
    entries s' !! e = None /\
    records s' !! record x =
      Some {| dispatch := dispatch rc;
              begin := SysclockToNs
                         (dt_start (snd (profiling_get_dispatch_time (hsa s)
                                           (agent x) (signal x))));
              end_ := SysclockToNs
                        (dt_end (snd (profiling_get_dispatch_time (hsa s)
                                        (agent x) (signal x))));
              complete := host_clock (hsa s) |} /\
    (forall r, r <> record x -> records s' !! r = records s !! r).
Proof.
  destruct (Handler_state s e x rc fuel v Hc Hr Hh Hrc)
    as (s' & Hrun & Hent & _ & Hrec & _).
  exists s'. split; [exact Hrun|].
  split; [rewrite Hent; apply lookup_delete_eq|].
  rewrite Hrec. split; [apply lookup_insert_eq|].
  intros r Hne. apply lookup_insert_ne. congruence.
Qed.

(** X5.  Completing one entry does not disturb another: an entry [e'] with
    a record and a proxy signal of its own keeps all its fields, its
    record, its proxy signal and its place in the list through the whole
    run of [Handler] for [e]. *)
Theorem Handler_leaves_other_entries
    (s : state) (e e' : Z) (x x' : entry_t) (rc : record_t) (fuel : nat)
    (v : hsa_signal_value_t)
    (Hc : completable s e x) (Hr : registered s e x) (Hh : handler x <> NULL)
    (Hrc : records s !! record x = Some rc)
    (He' : entries s !! e' = Some x')
    (Hne : e' <> e)
    (Hrec : record x' <> record x)
    (Hsig : handle (signal x') <> handle (signal x))
    (Horig : handle (signal x') <> handle (orig x)) :
  exists s',
    Handler (S fuel) v e s = Ok false s' /\
    entries s' !! e' = Some x' /\
    records s' !! record x' = records s !! record x' /\
    signals (hsa s') !! handle (signal x') = signals (hsa s) !! handle (signal x') /\
    ((it x', e') ∈ sig_list_ (self s) -> (it x', e') ∈ sig_list_ (self s')).
Proof.
  destruct (Handler_state s e x rc fuel v Hc Hr Hh Hrc)
    as (s' & Hrun & Hent & Hlist & Hrecs & Hsigs & _).
  exists s'. split; [exact Hrun|].
  split; [rewrite Hent, lookup_delete_ne by congruence; exact He'|].
  split; [rewrite Hrecs; apply lookup_insert_ne; congruence|].
  split; [apply Hsigs; assumption|].
  intros Hin. rewrite Hlist. apply elem_of_without_node. split; [exact Hin|].
  cbn [fst]. intros Heq. apply Hne. rewrite Heq in Hin.
  eapply node_unique; [apply (rg_wf _ _ _ Hr) | exact Hin | apply (rg_listed _ _ _ Hr)].
Qed.

(** X6.  When the runtime refuses the dispatch-time query, [Handler]
    raises that status from [Complete] after two operations, the load
    that ends the wait and the query: the user's handler is not called,
    the record is not written, no signal is written or destroyed, and the
    entry stays alive, armed and in the list. *)
Theorem Handler_query_failure
    (s : state) (e : Z) (x : entry_t) (fuel : nat) (v : hsa_signal_value_t)
    (He : entries s !! e = Some x)
    (Hh : handler x <> NULL)
    (Ht : tracker x = this s)
    (Hq : fst (profiling_get_dispatch_time (hsa s) (agent x) (signal x))
          <> HSA_STATUS_SUCCESS) :
  exists s',
    Handler (S fuel) v e s =
      Raised (fst (profiling_get_dispatch_time (hsa s) (agent x) (signal x)))
        "hsa_amd_profiling_get_dispatch_time" s' /\
    log s' = log s ++
      [ E_handler_load e (handler x) memory_order_acquire;
        E_hsa_amd_profiling_get_dispatch_time (agent_handle (agent x))
          (handle (signal x))
          (fst (profiling_get_dispatch_time (hsa s) (agent x) (signal x))) ] /\
    entries s' = entries s /\ self s' = self s /\
    records s' = records s /\ hsa s' = hsa s.
Proof.
  unfold Handler. cbv zeta.
  rewrite (bind_run _ _ _ _ _ (Handler_wait_armed fuel _ _ _ He Hh)).
  set (s1 := emit (E_handler_load e (handler x) memory_order_acquire) s).
  rewrite (bind_run _ _ _ _ _ (entry_load_run s1 e x tracker He)).
  unfold bind. rewrite (on_tracker_run (Complete e) (tracker x) s1 Ht).
  rewrite (Complete_run_raise s1 e x He Hq).
  eexists. split; [reflexivity|]. subst s1. proj_norm.
  rewrite <- app_assoc. repeat split.
Qed.

(** X7.  An entry is removed once: when [Delete] or [Handler] has
    returned for an entry, the entry is freed, and a further [Delete],
    [Enable] or [Handler] on it is a use of a freed object. *)
Theorem removed_entry_is_gone (s s1 : state) (e : Z)
    (H : Delete e s = Ok tt s1 \/ exists fuel v r, Handler fuel v e s = Ok r s1) :
  entries s1 !! e = None /\
  Delete e s1 = Undefined /\
  (forall h a, Enable_hsa_amd_signal_handler e h a s1 = Undefined /\
               Enable_rocprofiler_handler_t e h a s1 = Undefined) /\
  (forall fuel v, Handler (S fuel) v e s1 = Undefined).
Proof.
  assert (entries s1 !! e = None) as Hgone.
  { destruct H as [H|(fuel & v & r & H)].
    - rewrite (Delete_Ok_entries _ _ _ H). apply lookup_delete_eq.
    - eapply Handler_Ok_entries. exact H. }
  split; [exact Hgone|]. split; [apply Delete_Undefined_dead; exact Hgone|].
  split.
  - intros h a. destruct (Enable_Undefined_dead s1 e h a Hgone) as [H1 H2].
    split; [exact H2 | exact H1].
  - intros fuel v. apply Handler_Undefined_dead. exact Hgone.
Qed.

(** X8.  Arming with a null handler does not arm: both overloads of
    [Enable] store the null pointer like any other, also over a handler
    stored before, and [Handler] then stays in its wait whatever the
    number of loads. *)
Theorem Enable_null_does_not_arm (s : state) (e : Z) (x : entry_t) (a : Z)
    (He : entries s !! e = Some x) :
  (exists s1,
      Enable_hsa_amd_signal_handler e NULL a s = Ok tt s1 /\
      forall fuel v, Handler fuel v e s1 = OutOfFuel)
  /\
  (exists s1,
      Enable_rocprofiler_handler_t e NULL a s = Ok tt s1 /\
      forall fuel v, Handler fuel v e s1 = OutOfFuel).
Proof.
  split.
  - eexists. split; [apply (Enable_context_run _ _ _ _ _ He)|].
    intros fuel v. unfold Handler. cbv zeta. unfold bind at 1.
    rewrite (Handler_wait_unarmed fuel _ e
               (set_handler NULL (set_arg a (set_context_active true x))));
      [reflexivity | | reflexivity].
    cbn [set_entries set_log entries]. apply lookup_insert_eq.
  - eexists. split; [apply (Enable_run _ _ _ _ _ He)|].
    intros fuel v. unfold Handler. cbv zeta. unfold bind at 1.
    rewrite (Handler_wait_unarmed fuel _ e (set_handler NULL (set_arg a x)));
      [reflexivity | | reflexivity].
    cbn [set_entries set_log entries]. apply lookup_insert_eq.
Qed.

(** X9.  The discriminator is set and never cleared: an entry armed with
    the context-style overload and armed again with the simple overload
    keeps [context_active], so that [Handler] calls the pointer and the
    argument of the second arming with the context-style convention. *)
Theorem Enable_keeps_discriminator
    (s : state) (e : Z) (x : entry_t) (h1 a1 h2 a2 : Z) (fuel : nat)
    (v : hsa_signal_value_t)
    (Hc : completable s e x) (Hr : registered s e x) (Hh : h2 <> NULL) :
  exists s1 s2 s3 evs,
    Enable_hsa_amd_signal_handler e h1 a1 s = Ok tt s1 /\
    Enable_rocprofiler_handler_t e h2 a2 s1 = Ok tt s2 /\
    Handler (S fuel) v e s2 = Ok false s3 /\
    log s3 = log s2 ++ evs /\
    List.filter is_user_call evs = [E_call_context h2 0 a2].
Proof.
  pose proof (cp_entry _ _ _ Hc) as He.
  destruct Hr as [Hwf Ht Hl].
  pose proof (Enable_context_run s e x h1 a1 He) as Hen1.
  set (x1 := set_handler h1 (set_arg a1 (set_context_active true x))) in *.
  set (s1 := set_entries _ _) in Hen1.
  assert (entries s1 !! e = Some x1) as He1
    by (cbn [s1 set_entries set_log entries]; apply lookup_insert_eq).
  assert (registry_wf s1) as Hwf1
    by (eapply registry_wf_update; [exact Hwf | exact He | reflexivity]).
  pose proof (Enable_run s1 e x1 h2 a2 He1) as Hen2.
  set (x2 := set_handler h2 (set_arg a2 x1)) in *.
  set (s2 := set_entries _ _) in Hen2.
  assert (completable s2 e x2) as Hc2.
  { destruct Hc as [H1 H2 H3 H4 H5]. split; try assumption.
    cbn [s2 set_entries set_log entries]. apply lookup_insert_eq. }
  assert (registered s2 e x2) as Hr2.
  { split; [|exact Ht|exact Hl].
    eapply registry_wf_update; [exact Hwf1 | exact He1 | reflexivity]. }
  destruct (Handler_run s2 e x2 fuel v Hc2 Hr2 Hh)
    as (_ & s3 & _ & _ & _ & _ & Hrun & Hlog & _).
  exists s1, s2, s3, (handler_events s2 e x2).
  split; [exact Hen1|]. split; [exact Hen2|]. split; [exact Hrun|].
  split; [exact Hlog|]. apply handler_events_one_call.
Qed.

End CompletionFacts.

(** ** The destructor in front of a pending dispatch *)

(** One turn of the loop of [~Tracker()] on a first entry whose proxy
    signal has reached the threshold. *)
Lemma dtor_loop_head s n e rest x sg fuel :
  sig_list_ (self s) = (n, e) :: rest ->
  registry_wf s ->
  entries s !! e = Some x ->
  signals (hsa s) !! handle (signal x) = Some sg -> value sg < 1 ->
  it x = n /\
  dtor_loop (S fuel) n list_end s =
  dtor_loop fuel (list_begin rest) list_end
    (set_entries (delete e (entries s))
       (set_hsa (set_signals (delete (handle (signal x)) (signals (hsa s))) (hsa s))
          (set_self (set_mutex false (set_sig_list rest (self s)))
             (set_log (log s ++ E_SignalWait (handle (signal x)) :: delete_events e x) s)))).
Proof.
  intros Hl Hwf He Hsg Hv.
  assert ((n, e) ∈ sig_list_ (self s)) as Hin
    by (rewrite Hl; apply elem_of_cons; left; reflexivity).
  pose proof (wf_not_end _ Hwf _ _ Hin) as Hne.
  destruct (wf_position _ Hwf _ _ Hin) as (x' & He' & Hit).
  assert (x' = x) by congruence. subst x'. split; [exact Hit|].
  cbn [dtor_loop]. apply Z.eqb_neq in Hne. rewrite Hne.
  rewrite (bind_run _ _ _ _ _ (sig_list_next_head _ _ _ _ Hl)).
  rewrite (bind_run _ _ _ _ _ (sig_list_deref_head _ _ _ _ Hl)).
  rewrite (bind_run _ _ _ _ _ (entry_load_run s e x signal He)).
  rewrite (bind_run _ _ _ _ _ (SignalWait_run _ _ _ Hsg Hv)).
  set (s1 := emit (E_SignalWait (handle (signal x))) s).
  assert (list_erase (sig_list_ (self s1)) (it x) = Some rest) as Hle.
  { cbn [s1 emit self]. rewrite Hl, Hit. cbn [list_erase].
    rewrite Z.eqb_refl. reflexivity. }
  assert (Erase n s1 = Delete e s1) as Her.
  { unfold Erase. apply (bind_run _ _ _ _ _ (sig_list_deref_head s1 n e rest Hl)). }
  unfold bind at 1. rewrite Her, (Delete_run s1 e x rest He (wf_mutex _ Hwf) Hle).
  subst s1. f_equal. apply state_ext; proj_norm; try reflexivity.
  rewrite <- app_assoc. reflexivity.
Qed.

Lemma dtor_loop_blocks (done : sig_list_t) : forall s fuel n e rest,
  sig_list_ (self s) = done ++ (n, e) :: rest ->
  registry_wf s -> drains_until s done e ->
  (length done < fuel)%nat ->
  exists sb,
    dtor_loop fuel (list_begin (sig_list_ (self s))) list_end s = Blocked sb /\
    sig_list_ (self sb) = (n, e) :: rest /\
    log sb = log s ++ drain_events s done /\
    entries sb !! e = entries s !! e /\
    (forall e0, entries s !! e0 = None -> entries sb !! e0 = None) /\
    (forall n' e', (n', e') ∈ done -> entries sb !! e' = None).
Proof.
  induction done as [|[n0 e0] done IH]; intros s fuel n e rest Hl Hwf Hdu Hfuel.
  - cbn [app] in Hl. destruct (du_pending _ _ _ Hdu) as (x & sg & He & Hsg & Hv).
    assert ((n, e) ∈ sig_list_ (self s)) as Hin
      by (rewrite Hl; apply elem_of_cons; left; reflexivity).
    pose proof (wf_not_end _ Hwf _ _ Hin) as Hne. apply Z.eqb_neq in Hne.
    destruct fuel as [|fuel]; [cbn [length] in Hfuel; lia|].
    exists s. rewrite Hl. cbn [list_begin dtor_loop]. rewrite Hne.
    rewrite (bind_run _ _ _ _ _ (sig_list_next_head _ _ _ _ Hl)).
    rewrite (bind_run _ _ _ _ _ (sig_list_deref_head _ _ _ _ Hl)).
    rewrite (bind_run _ _ _ _ _ (entry_load_run s e x signal He)).
    unfold bind at 1. rewrite (SignalWait_blocks _ _ _ Hsg Hv).
    split; [reflexivity|]. split; [reflexivity|].
    split; [cbn; rewrite app_nil_r; reflexivity|].
    split; [reflexivity|]. split; [auto|]. intros n' e' H. inversion H.
  - cbn [app] in Hl.
    assert ((n0, e0) ∈ sig_list_ (self s)) as Hin0
      by (rewrite Hl; apply elem_of_cons; left; reflexivity).
    assert ((n, e) ∈ sig_list_ (self s)) as Hin.
    { rewrite Hl. apply elem_of_cons. right. apply elem_of_app. right.
      apply elem_of_cons. left. reflexivity. }
    destruct (wf_position _ Hwf _ _ Hin0) as (x0 & He0 & Hit0).
    destruct (du_done _ _ _ Hdu n0 e0 x0 ltac:(apply elem_of_cons; left; reflexivity) He0)
      as (sg0 & Hsg0 & Hv0).
    destruct (du_pending _ _ _ Hdu) as (x & sg & He & Hsg & Hv).
    destruct fuel as [|fuel]; [cbn [length] in Hfuel; lia|].
    destruct (dtor_loop_head s n0 e0 _ x0 sg0 fuel Hl Hwf He0 Hsg0 Hv0) as [_ Hstep].
    assert (list_begin (sig_list_ (self s)) = n0) as Hb by (rewrite Hl; reflexivity).
    rewrite Hb, Hstep.
    set (s2 := set_entries _ _).
    assert (without_node (it x0) (sig_list_ (self s)) = done ++ (n, e) :: rest) as Hwo.
    { assert (it x0 ∈ map fst (sig_list_ (self s))) as Hm.
      { rewrite Hit0. apply (list_elem_of_fmap_2 fst) in Hin0. exact Hin0. }
      pose proof (list_erase_spec _ _ (wf_nodes _ Hwf) Hm) as Hs.
      assert (list_erase (sig_list_ (self s)) (it x0) = Some (done ++ (n, e) :: rest)) as Hs'.
      { rewrite Hl, Hit0. cbn [list_erase]. rewrite Z.eqb_refl. reflexivity. }
      congruence. }
    assert ((it x0, e0) ∈ sig_list_ (self s)) as Hin0' by (rewrite Hit0; exact Hin0).
    assert (registry_wf s2) as Hwf2.
    { pose proof (registry_wf_erase s e0 x0
                    (set_signals (delete (handle (signal x0)) (signals (hsa s))) (hsa s))
                    (log s ++ E_SignalWait (handle (signal x0)) :: delete_events e0 x0)
                    Hwf He0 Hin0') as H.
      rewrite Hwo in H. exact H. }
    assert (forall n' e', (n', e') ∈ done ++ (n, e) :: rest -> e' <> e0) as Hother.
    { intros n' e' Hp ->. rewrite <- Hwo in Hp.
      apply elem_of_without_node in Hp as [Hp Hn']. cbn [fst] in Hn'.
      destruct (wf_position _ Hwf _ _ Hp) as (x' & Hx' & Hit').
      assert (x' = x0) by congruence. subst x'. congruence. }
    assert (e <> e0) as Hee0.
    { apply (Hother n). apply elem_of_app. right. apply elem_of_cons. left. reflexivity. }
    assert (drains_until s2 done e) as Hdu2.
    { split; cbn [s2 set_entries set_hsa set_self set_log set_mutex set_sig_list
                  set_signals self entries sig_list_ hsa signals].
      - intros n' e' x' Hp Hx'.
        assert (e' <> e0) as Hd by (apply (Hother n'); apply elem_of_app; left; exact Hp).
        rewrite lookup_delete_ne in Hx' by congruence.
        destruct (du_done _ _ _ Hdu n' e' x' ltac:(apply elem_of_cons; right; exact Hp) Hx')
          as (sg' & Hsg' & Hv').
        exists sg'. split; [|exact Hv'].
        rewrite lookup_delete_ne; [exact Hsg'|].
        apply (du_own _ _ _ Hdu n0 e0 x0 n' e' x'); try assumption; [|congruence].
        rewrite Hl. apply elem_of_cons. right. apply elem_of_app. left. exact Hp.
      - exists x, sg. rewrite lookup_delete_ne by congruence.
        split; [exact He|]. split; [|exact Hv].
        rewrite lookup_delete_ne; [exact Hsg|].
        apply (du_own _ _ _ Hdu n0 e0 x0 n e x); try assumption. congruence.
      - intros n1 e1 x1 n2 e2 x2 H1 H2 Hx1 Hx2 Hne.
        assert (e1 <> e0) as D1 by (apply (Hother n1); exact H1).
        assert (e2 <> e0) as D2 by (apply (Hother n2); exact H2).
        rewrite lookup_delete_ne in Hx1 by congruence.
        rewrite lookup_delete_ne in Hx2 by congruence.
        apply (du_own _ _ _ Hdu n1 e1 x1 n2 e2 x2); try assumption;
          rewrite Hl; apply elem_of_cons; right; assumption. }
    assert (sig_list_ (self s2) = done ++ (n, e) :: rest) as Hl2 by reflexivity.
    destruct (IH s2 fuel n e rest Hl2 Hwf2 Hdu2 ltac:(cbn [length] in Hfuel; lia))
      as (sb & Hrun & Hlist & Hlog & Hkeep & Hnone & Hgone).
    rewrite Hl2 in Hrun.
    exists sb. split; [exact Hrun|]. split; [exact Hlist|].
    assert (forall p, p ∈ done -> entries s2 !! snd p = entries s !! snd p) as Hsame.
    { intros [n' e'] Hp. cbn [snd s2 set_entries entries].
      apply lookup_delete_ne. intros <-.
      apply (Hother n' e0); [apply elem_of_app; left; exact Hp | reflexivity]. }
    split; [|split; [|split]].
    + rewrite Hlog, (drain_events_ext _ _ _ Hsame).
      unfold drain_events at 2. cbn [flat_map snd]. rewrite He0.
      fold (drain_events s done).
      cbn [s2 set_entries set_hsa set_self set_log log].
      rewrite <- !app_assoc. reflexivity.
    + rewrite Hkeep. cbn [s2 set_entries entries]. apply lookup_delete_ne. congruence.
    + intros e1 H1. apply Hnone. cbn [s2 set_entries entries].
      destruct (decide (e0 = e1)) as [->|Hd]; [apply lookup_delete_eq|].
      rewrite lookup_delete_ne by exact Hd. exact H1.
    + intros n' e' Hp. apply elem_of_cons in Hp as [Hp|Hp].
      * inversion Hp; subst. apply Hnone. cbn [s2 set_entries entries].
        apply lookup_delete_eq.
      * eapply Hgone. exact Hp.
Qed.

(** X10.  The destructor removes the entries in list order, the latest
    allocation first, and stops at the first dispatch that has not
    completed: the entries in front of it are waited for, removed and
    freed, the pending entry and all entries behind it stay in the list
    untouched, and the destructor does not return. *)
Theorem Tracker_dtor_blocks_at_first_pending
    (s : state) (done rest : sig_list_t) (n e : Z) (fuel : nat)
    (Hl : sig_list_ (self s) = done ++ (n, e) :: rest)
    (Hwf : registry_wf s)
    (Hdu : drains_until s done e)
    (Hfuel : (length done < fuel)%nat) :
  exists sb,
    Tracker_dtor fuel s = Blocked sb /\
    sig_list_ (self sb) = (n, e) :: rest /\
    log sb = log s ++ drain_events s done /\
    entries sb !! e = entries s !! e /\
    (forall n' e', (n', e') ∈ done -> entries sb !! e' = None).
Proof.
  destruct (dtor_loop_blocks done s fuel n e rest Hl Hwf Hdu Hfuel)
    as (sb & Hrun & Hlist & Hlog & Hkeep & _ & Hgone).
  exists sb. unfold Tracker_dtor, sig_list_begin. unfold bind. cbv zeta. auto.
Qed.

(** ** The content of the list *)

Section RegistryContent.

Context {RT : HsaRuntime}.

(** X11.  In every state the tracker reaches no entry is in the list
    twice and no node address is used twice; a live entry is in the list
    exactly when its [it] is not the value-initialised iterator, that is,
    from the insertion by [Alloc] on; and the mutex is free between
    calls. *)
Theorem registry_lists_each_entry_once (s : state) (Hr : reachable s) :
  NoDup (map snd (sig_list_ (self s))) /\
  NoDup (map fst (sig_list_ (self s))) /\
  (forall e x, entries s !! e = Some x ->
     ((it x, e) ∈ sig_list_ (self s) <-> it x <> list_end)) /\
  (forall n e, (n, e) ∈ sig_list_ (self s) -> is_Some (entries s !! e)) /\
  mutex_ (self s) = false.
Proof.
  pose proof (reachable_wf s Hr) as Hwf.
  split; [|split; [apply Hwf|split; [|split; [|apply Hwf]]]].
  - apply (NoDup_fmap_2_strong snd).
    + intros [n1 e1] [n2 e2] H1 H2 Heq. cbn [snd] in Heq. subst e2.
      destruct (wf_position _ Hwf _ _ H1) as (x1 & Hx1 & Hit1).
      destruct (wf_position _ Hwf _ _ H2) as (x2 & Hx2 & Hit2).
      congruence.
    + apply (NoDup_fmap_1 fst). apply Hwf.
  - intros e x He. split.
    + intros Hin. eapply wf_not_end; [exact Hwf | exact Hin].
    + intros Hne. destruct (wf_listed _ Hwf _ _ He) as [H|H]; [contradiction | exact H].
  - intros n e Hin. destruct (wf_position _ Hwf _ _ Hin) as (x & Hx & _). eauto.
Qed.

End RegistryContent.

(** ** The mutex *)

Lemma lock_trace_app held l1 l2 :
  lock_trace held (l1 ++ l2) =
  match lock_trace held l1 with
  | Some held' => lock_trace held' l2
  | None => None
  end.
Proof.
  revert held. induction l1 as [|ev l1 IH]; intros held; [reflexivity|].
  cbn [app lock_trace]. destruct (lock_event held ev); [apply IH | reflexivity].
Qed.

Lemma lock_trace_neutral held evs :
  forallb lock_neutral evs = true -> lock_trace held evs = Some held.
Proof.
  induction evs as [|ev evs IH]; intros H; [reflexivity|].
  cbn [forallb] in H. apply andb_true_iff in H as [Hev H].
  cbn [lock_trace].
  assert (lock_event held ev = Some held) as -> by (destruct ev; try discriminate; reflexivity).
  apply IH. exact H.
Qed.

Lemma aside_refl s : aside s s.
Proof.
  split; [apply same_registry_refl|]. exists []. rewrite app_nil_r. auto.
Qed.

Lemma aside_trans s1 s2 s3 : aside s1 s2 -> aside s2 s3 -> aside s1 s3.
Proof.
  intros [A1 (l1 & H1 & F1)] [A2 (l2 & H2 & F2)].
  split; [eapply same_registry_trans; eassumption|].
  exists (l1 ++ l2). rewrite H2, H1, app_assoc, forallb_app, F1, F2. auto.
Qed.

Lemma disciplined_refl s : mutex_ (self s) = false -> disciplined s s.
Proof. intros H. exists []. rewrite app_nil_r. auto. Qed.

Lemma disciplined_trans s1 s2 s3 :
  disciplined s1 s2 -> disciplined s2 s3 -> disciplined s1 s3.
Proof.
  intros (l1 & H1 & T1 & _) (l2 & H2 & T2 & M).
  exists (l1 ++ l2). rewrite H2, H1, app_assoc, lock_trace_app, T1. auto.
Qed.

Lemma aside_disciplined s s' :
  mutex_ (self s) = false -> aside s s' -> disciplined s s'.
Proof.
  intros Hm [(_ & Hs & _) (evs & Hl & Hf)].
  exists evs. rewrite Hs. split; [exact Hl|]. split; [|exact Hm].
  apply lock_trace_neutral. exact Hf.
Qed.

Lemma disciplined_mutex s s' : disciplined s s' -> mutex_ (self s') = false.
Proof. intros (_ & _ & _ & H). exact H. Qed.

Ltac aside_prim :=
  intros s; unfold_prims; cbv beta;
  repeat match goal with
         | |- context [match ?o with Some _ => _ | None => _ end] => destruct o
         | |- context [if ?b then _ else _] => destruct b
         end;
  cbn [lift]; try exact I;
  try solve [ apply aside_refl
            | split; [repeat split
                     | eexists; split;
                       [cbn [log emit set_entries set_self set_hsa set_records]; reflexivity
                       | reflexivity]] ].

Create HintDb aside.

#[local] Hint Resolve aside_refl aside_trans : aside.

Section MutexFacts.

Context {RT : HsaRuntime}.

Lemma entry_load_aside {A} e (proj : entry_t -> A) : keeps aside (entry_load e proj).
Proof. aside_prim. Qed.
Lemma handler_load_aside e mo : keeps aside (handler_load e mo).
Proof. aside_prim. Qed.
Lemma sched_yield_aside : keeps aside sched_yield.
Proof. aside_prim. Qed.
Lemma record_store_aside r upd : keeps aside (record_store r upd).
Proof. aside_prim. Qed.
Lemma TimestampNs_aside : keeps aside TimestampNs.
Proof. aside_prim. Qed.
Lemma amd_signal_load_aside {A} p (proj : amd_signal_t -> A) :
  keeps aside (amd_signal_load p proj).
Proof. aside_prim. Qed.
Lemma amd_signal_store_aside p upd : keeps aside (amd_signal_store p upd).
Proof. aside_prim. Qed.
Lemma hsa_signal_load_relaxed_aside sig : keeps aside (hsa_signal_load_relaxed sig).
Proof. aside_prim. Qed.
Lemma hsa_signal_store_screlease_aside sig v :
  keeps aside (hsa_signal_store_screlease sig v).
Proof. aside_prim. Qed.
Lemma get_dispatch_time_aside ag sig :
  keeps aside (hsa_amd_profiling_get_dispatch_time ag sig).
Proof. aside_prim. Qed.
Lemma EXC_RAISING_aside {A} st w : keeps aside (@EXC_RAISING A st w).
Proof. aside_prim. Qed.
Lemma call_context_aside h v a : keeps aside (call_hsa_amd_signal_handler h v a).
Proof. aside_prim. Qed.
Lemma call_simple_aside h g a : keeps aside (call_rocprofiler_handler_t h g a).
Proof. aside_prim. Qed.
Lemma debug_trace_aside e d : keeps aside (debug_trace e d).
Proof. aside_prim. Qed.
Lemma SignalWait_aside sig : keeps aside (SignalWait sig).
Proof. aside_prim. Qed.
Lemma sig_list_next_aside i : keeps aside (sig_list_next i).
Proof. aside_prim. Qed.
Lemma sig_list_deref_aside i : keeps aside (sig_list_deref i).
Proof. aside_prim. Qed.

#[local] Hint Resolve entry_load_aside handler_load_aside sched_yield_aside
  record_store_aside TimestampNs_aside amd_signal_load_aside
  amd_signal_store_aside hsa_signal_load_relaxed_aside
  hsa_signal_store_screlease_aside get_dispatch_time_aside EXC_RAISING_aside
  call_context_aside call_simple_aside debug_trace_aside keeps_on_tracker : aside.

Lemma Complete_aside e : keeps aside (Complete e).
Proof.
  unfold Complete. frame_bind aside_refl aside_trans;
    auto using keeps_ret with aside.
Qed.

Lemma Handler_call_aside e : keeps aside (Handler_call e).
Proof.
  unfold Handler_call. frame_bind aside_refl aside_trans;
    auto using keeps_ret with aside.
Qed.

Lemma Handler_wait_aside fuel e : keeps aside (Handler_wait fuel e).
Proof.
  induction fuel as [|fuel IH]; cbn [Handler_wait]; [intros s; exact I|].
  frame_bind aside_refl aside_trans; auto using keeps_ret with aside.
Qed.

(** A step that leaves the mutex alone, then the rest. *)
Lemma lift_bind_aside {A B} s0 (c : M A) (k : A -> M B) s :
  disciplined s0 s -> keeps aside c ->
  (forall a s1, disciplined s0 s1 -> lift (disciplined s0) (k a s1)) ->
  lift (disciplined s0) (bind c k s).
Proof.
  intros Hd Hc Hk. unfold bind. specialize (Hc s).
  assert (forall s1, aside s s1 -> disciplined s0 s1) as Hstep.
  { intros s1 Ha. eapply disciplined_trans; [exact Hd|].
    apply aside_disciplined; [eapply disciplined_mutex; exact Hd | exact Ha]. }
  destruct (c s) as [a s1|st w s1| |s1|]; cbn [lift] in *; auto.
Qed.

(** A step that keeps the discipline, then the rest. *)
Lemma lift_bind_disciplined {A B} s0 (c : M A) (k : A -> M B) s :
  disciplined s0 s -> lift (disciplined s) (c s) ->
  (forall a s1, disciplined s0 s1 -> lift (disciplined s0) (k a s1)) ->
  lift (disciplined s0) (bind c k s).
Proof.
  intros Hd Hc Hk. unfold bind.
  destruct (c s) as [a s1|st w s1| |s1|]; cbn [lift] in *; auto;
    try (eapply disciplined_trans; eassumption).
  apply Hk. eapply disciplined_trans; eassumption.
Qed.

Lemma Alloc_disciplined s ag og :
  mutex_ (self s) = false -> lift (disciplined s) (Alloc ag og s).
Proof.
  intros Hm.
  destruct (decide (signal_create_status (hsa s) = HSA_STATUS_SUCCESS)) as [Hc|Hc].
  - destruct (decide (async_handler_status (hsa_created (hsa s))
                        {| handle := next_signal (hsa s) |} = HSA_STATUS_SUCCESS))
      as [Ha|Ha].
    + rewrite (Alloc_run _ _ _ Hc Ha Hm). cbn [lift].
      eexists. proj_norm. split; [reflexivity|]. split; reflexivity.
    + rewrite (Alloc_run_register_fails _ _ _ Hc Ha). cbn [lift].
      eexists. proj_norm. split; [reflexivity|]. split; [reflexivity | exact Hm].
  - rewrite (Alloc_run_create_fails _ _ _ Hc). cbn [lift].
    eexists. proj_norm. split; [reflexivity|]. split; [reflexivity | exact Hm].
Qed.

Lemma Delete_disciplined s e :
  mutex_ (self s) = false -> lift (disciplined s) (Delete e s).
Proof.
  intros Hm.
  destruct (entries s !! e) as [x|] eqn:He;
    [|rewrite Delete_Undefined_dead by exact He; exact I].
  destruct (list_erase (sig_list_ (self s)) (it x)) as [l'|] eqn:Hl;
    [|rewrite (Delete_Undefined_unlisted _ _ _ He Hm Hl); exact I].
  rewrite (Delete_run _ _ _ _ He Hm Hl). cbn [lift].
  eexists. proj_norm. split; [reflexivity|]. split; reflexivity.
Qed.

Lemma Enable_disciplined s e h a :
  mutex_ (self s) = false ->
  lift (disciplined s) (Enable e h a s) /\
  lift (disciplined s) (Enable_hsa_amd_signal_handler e h a s).
Proof.
  intros Hm. destruct (entries s !! e) as [x|] eqn:He.
  - rewrite (Enable_run _ _ _ _ _ He), (Enable_context_run _ _ _ _ _ He). cbn [lift].
    split; (eexists; proj_norm; split; [reflexivity|]; split; [reflexivity | exact Hm]).
  - destruct (Enable_Undefined_dead s e h a He) as [-> ->]. split; exact I.
Qed.

Lemma Handler_disciplined s fuel v e :
  mutex_ (self s) = false -> lift (disciplined s) (Handler fuel v e s).
Proof.
  intros Hm. pose proof (disciplined_refl s Hm) as Hd.
  unfold Handler. cbv zeta.
  apply lift_bind_aside; [exact Hd | apply Handler_wait_aside|]. intros [] s1 H1.
  apply lift_bind_aside; [exact H1 | apply entry_load_aside|]. intros t s2 H2.
  apply lift_bind_aside; [exact H2 | apply keeps_on_tracker, Complete_aside|].
  intros [] s3 H3.
  apply lift_bind_aside; [exact H3 | apply Handler_call_aside|]. intros [] s4 H4.
  apply lift_bind_aside; [exact H4 | apply entry_load_aside|]. intros t' s5 H5.
  apply lift_bind_disciplined; [exact H5| |].
  - unfold on_tracker. destruct (t' =? this s5); [|exact I].
    apply Delete_disciplined. eapply disciplined_mutex. exact H5.
  - intros [] s6 H6. exact H6.
Qed.

Lemma dtor_loop_disciplined s0 fuel : forall i s,
  disciplined s0 s -> lift (disciplined s0) (dtor_loop fuel i list_end s).
Proof.
  induction fuel as [|fuel IH]; intros i s Hd; cbn [dtor_loop];
    (destruct (i =? list_end); [exact Hd|]); [exact I|].
  apply lift_bind_aside; [exact Hd | apply sig_list_next_aside|]. intros i' s1 H1.
  apply lift_bind_aside; [exact H1 | apply sig_list_deref_aside|]. intros e s2 H2.
  apply lift_bind_aside; [exact H2 | apply entry_load_aside|]. intros sig s3 H3.
  apply lift_bind_aside; [exact H3 | apply SignalWait_aside|]. intros [] s4 H4.
  apply lift_bind_disciplined; [exact H4| |].
  - unfold Erase. apply lift_bind_aside;
      [apply disciplined_refl; eapply disciplined_mutex; exact H4
      | apply sig_list_deref_aside|].
    intros e' s5 H5.
    eapply (lift_bind_disciplined s4 (Delete e') (fun _ => ret tt)) in H5 as H6.
    + unfold bind in H6. destruct (Delete e' s5); exact H6.
    + apply Delete_disciplined. eapply disciplined_mutex. exact H5.
    + intros [] s6 H. exact H.
  - intros [] s5 H5. apply IH. exact H5.
Qed.

(** X12.  The list is changed under the mutex only.  Whatever a member
    function does when it is entered with the mutex free, and wherever a
    run of defined behaviour ends (it returns, raises, or stays in the
    wait of the destructor), its operations take and release the mutex in
    turn, insert into and erase from [sig_list_] only while it is held,
    and leave it free: no exception is raised with the mutex held. *)
Theorem list_changes_under_mutex (s : state) (Hm : mutex_ (self s) = false) :
  (forall ag og, lift (disciplined s) (Alloc ag og s)) /\
  (forall e, lift (disciplined s) (Delete e s)) /\
  (forall e h a, lift (disciplined s) (Enable_hsa_amd_signal_handler e h a s)) /\
  (forall e h a, lift (disciplined s) (Enable_rocprofiler_handler_t e h a s)) /\
  (forall fuel v e, lift (disciplined s) (Handler fuel v e s)) /\
  (forall fuel, lift (disciplined s) (Tracker_dtor fuel s)).
Proof.
  split; [intros; apply Alloc_disciplined; exact Hm|].
  split; [intros; apply Delete_disciplined; exact Hm|].
  split; [intros e h a; apply (Enable_disciplined s e h a Hm)|].
  split; [intros e h a; apply (Enable_disciplined s e h a Hm)|].
  split; [intros; apply Handler_disciplined; exact Hm|].
  intros fuel. unfold Tracker_dtor, sig_list_begin. unfold bind. cbv zeta.
  apply dtor_loop_disciplined. apply disciplined_refl. exact Hm.
Qed.

End MutexFacts.

(** ** The race between [Enable] and [Handler], continued *)

Section RaceProgress.

Context {RT : HsaRuntime}.

Lemma race_inv_start e h s0 x context_style :
  entries s0 !! e = Some x -> handler x = NULL ->
  race_inv e h s0 {| arm := arm_entry context_style; cb := CB_idle; st := s0 |}.
Proof.
  intros He Hx. exists []. cbn [st cb arm left_wait]. rewrite app_nil_r.
  split; [reflexivity|]. split; [apply guarded_nil|].
  exists x. split; [exact He|].
  destruct context_style; cbn [arm_entry published]; exact Hx.
Qed.

(** X13.  [Handler] leaves its wait at the first poll after the store of
    [Enable], and at no poll before: while [Handler] is in its loop, the
    next poll goes on to [Complete] if [Enable] has stored a non-null
    handler, and yields and stays in the loop otherwise; it is never
    undefined, as the entry is alive. *)
Theorem Handler_poll_follows_publication
    (e h a : Z) (context_style : bool) (s0 : state) (x : entry_t) (c : config)
    (He : entries s0 !! e = Some x)
    (Hx : handler x = NULL)
    (Hr : runs e h a {| arm := arm_entry context_style; cb := CB_idle; st := s0 |} c)
    (Hw : cb c = CB_wait) :
  exists s',
    Handler_step e (cb c) (st c) =
    Ok (if published (arm c) && negb (h =? NULL) then CB_complete else CB_wait) s'.
Proof.
  destruct (race_inv_runs _ _ _ _ _ _ (race_inv_start e h s0 x context_style He Hx) Hr)
    as (L & _ & _ & Hinv).
  rewrite Hw in *. cbn [left_wait] in Hinv. destruct Hinv as (y & Hy & Hpub).
  cbn [Handler_step]. unfold_prims. sim. rewrite Hy. sim.
  destruct (published (arm c)).
  - destruct Hpub as [-> _]. cbn [andb].
    destruct (h =? NULL); cbn [negb]; sim; eexists; reflexivity.
  - rewrite Hpub. cbn [andb]. rewrite Z.eqb_refl. sim. eexists; reflexivity.
Qed.

(** X14.  [Enable] never uses an entry that [Handler] has freed.  In
    every interleaving, each statement [Enable] has still to execute is
    defined: [Handler] deletes the entry only after the store of the
    handler, and after that store [Enable] does not use the entry. *)
Theorem Enable_never_uses_freed_entry
    (e h a : Z) (context_style : bool) (s0 : state) (x : entry_t) (c : config)
    (He : entries s0 !! e = Some x)
    (Hx : handler x = NULL)
    (Hr : runs e h a {| arm := arm_entry context_style; cb := CB_idle; st := s0 |} c)
    (Hpc : arm c <> ARM_done) :
  exists pc' s', Enable_step e h a (arm c) (st c) = Ok pc' s'.
Proof.
  destruct (race_inv_runs _ _ _ _ _ _ (race_inv_start e h s0 x context_style He Hx) Hr)
    as (L & _ & _ & Hinv).
  destruct (arm c) eqn:Hpc'; [| | | |congruence]; cbn [published] in Hinv.
  1-3: destruct (left_wait (cb c));
       [destruct Hinv as (_ & Hp & _); discriminate|];
       destruct Hinv as (y & Hy & _);
       cbn [Enable_step]; unfold_prims; sim; rewrite Hy; sim;
       eexists; eexists; reflexivity.
  cbn [Enable_step]. unfold_prims. sim. eexists; eexists; reflexivity.
Qed.

End RaceProgress.

(** ** The life of one entry *)

Section Lifecycle.

Context {RT : HsaRuntime}.

(** X15.  [Alloc], [Enable] and the completion callback compose: what
    [Alloc] and [Enable] leave behind is all that [Handler] needs.  Once
    the entry is allocated and armed with a non-null handler, whatever
    the runtime has done since to its signals, provided it answers the
    dispatch-time query and a non-null original signal and the proxy are
    still alive, [Handler] returns [false], calls the handler that was
    armed, once, in the convention of the overload that armed it, and
    leaves the list and the entries of the tracker as they were before
    the allocation. *)
Theorem Alloc_Enable_Handler_round_trip
    (s s1 s2 : state) (ag : hsa_agent_t) (og : hsa_signal_t) (e h a : Z)
    (context_style : bool) (w : hsa_t) (fuel : nat) (v : Z)
    (Hwf : registry_wf s)
    (Ha : Alloc ag og s = Ok e s1)
    (Hen : (if context_style then Enable_hsa_amd_signal_handler e h a s1
            else Enable_rocprofiler_handler_t e h a s1) = Ok tt s2)
    (Hh : h <> NULL)
    (Hq : fst (profiling_get_dispatch_time w ag {| handle := next_signal (hsa s) |})
          = HSA_STATUS_SUCCESS)
    (Ho : handle og <> 0 ->
          is_Some (signals w !! handle og) /\
          is_Some (signals w !! next_signal (hsa s))) :
  exists s3,
    Handler (S fuel) v e (set_hsa w s2) = Ok false s3 /\
    sig_list_ (self s3) = sig_list_ (self s) /\
    entries s3 = entries s /\
    registry_wf s3 /\
    List.filter is_user_call (drop (length (log s2)) (log s3)) =
      [if context_style then E_call_context h 0 a
       else E_call_simple h group_default a].
Proof.
  pose proof (Alloc_wf s ag og Hwf) as Hwf1. rewrite Ha in Hwf1. cbn [lift] in Hwf1.
  destruct (Alloc_Ok_inv _ _ _ _ _ (wf_mutex _ Hwf) Ha) as [-> Hs1].
  set (x := alloc_entry s ag og) in *.
  assert (entries s1 !! next_entry s = Some x) as L1
    by (rewrite Hs1; cbn [set_entries entries]; apply lookup_insert_eq).
  set (y := set_handler h (set_arg a (if context_style then set_context_active true x else x))).
  assert (s2 = set_entries (<[next_entry s := y]> (entries s1))
                 (set_log (log s2) s1) /\
          registry_wf s2) as [Hs2 Hwf2].
  { destruct context_style.
    - pose proof (Enable_context_wf s1 (next_entry s) h a Hwf1) as W.
      rewrite Hen in W. split; [|exact W].
      rewrite (Enable_context_run _ _ _ _ _ L1) in Hen.
      injection Hen as <-. apply state_ext; reflexivity.
    - unfold Enable_rocprofiler_handler_t in Hen.
      pose proof (Enable_wf s1 (next_entry s) h a Hwf1) as W.
      rewrite Hen in W. split; [|exact W].
      rewrite (Enable_run _ _ _ _ _ L1) in Hen.
      injection Hen as <-. apply state_ext; reflexivity. }
  set (s2w := set_hsa w s2).
  assert (entries s2w = <[next_entry s := y]> (entries s)) as E2.
  { unfold s2w. rewrite Hs2, Hs1. cbn [set_hsa set_entries set_log entries].
    apply insert_insert_eq. }
  assert (sig_list_ (self s2w) = (next_node s, next_entry s) :: sig_list_ (self s)) as Hl2.
  { unfold s2w. rewrite Hs2, Hs1. reflexivity. }
  assert (it y = next_node s /\ tracker y = this s /\ handler y = h /\ arg y = a /\
          agent y = ag /\ orig y = og /\ handle (signal y) = next_signal (hsa s) /\
          record y = next_record s /\ context_active y = context_style)
    as (Yit & Ytr & Yh & Yarg & Yag & Yor & Ysg & Yrec & Yctx)
    by (unfold y, x; destruct context_style; repeat split; reflexivity).
  assert (completable s2w (next_entry s) y) as Hc.
  { split.
    - rewrite E2. apply lookup_insert_eq.
    - rewrite Yrec. unfold s2w. rewrite Hs2, Hs1.
      cbn [set_hsa set_entries set_log set_records records].
      rewrite lookup_insert_eq. eexists; reflexivity.
    - rewrite Yag. destruct (signal y) as [hd] eqn:Es. cbn [handle] in Ysg. subst hd.
      exact Hq.
    - rewrite Yor. intros H. apply (Ho H).
    - rewrite Yor, Ysg. intros H. apply (Ho H). }
  assert (registered s2w (next_entry s) y) as Hr.
  { split.
    - apply registry_wf_runtime. exact Hwf2.
    - rewrite Ytr. unfold s2w. rewrite Hs2, Hs1. reflexivity.
    - rewrite Hl2, Yit. apply elem_of_cons. left. reflexivity. }
  assert (handler y <> NULL) as Hy by (rewrite Yh; exact Hh).
  destruct (Handler_run s2w (next_entry s) y fuel v Hc Hr Hy)
    as (s3 & s' & _ & _ & _ & _ & Hrun & Hlog & _ & Hent & Hlist & _ & _).
  exists s'. split; [exact Hrun|].
  split.
  { rewrite Hlist, Hl2, Yit. unfold without_node. cbn [List.filter fst].
    rewrite Z.eqb_refl. cbn [negb]. apply without_node_absent.
    intros Hin. apply list_elem_of_fmap in Hin as ([n e'] & Hn & Hin).
    cbn [fst] in Hn. subst n. exact (next_node_fresh s e' Hin). }
  split.
  { rewrite Hent, E2. apply delete_insert_id, next_entry_fresh. }
  split.
  { pose proof (Handler_wf s2w (S fuel) v (next_entry s) (rg_wf _ _ _ Hr)) as W.
    rewrite Hrun in W. exact W. }
  rewrite Hlog. change (log s2w) with (log s2). rewrite drop_app_length.
  rewrite handler_events_one_call. unfold call_event.
  rewrite Yctx, Yh, Yarg. reflexivity.
Qed.

End Lifecycle.

(** ** The further properties at work on concrete states *)

Lemma registry_wf_state_two : registry_wf state_two.
Proof.
  split.
  - cbn. apply NoDup_cons. split; [|apply NoDup_singleton].
    intros H. apply list_elem_of_singleton in H. discriminate.
  - intros n e H. cbn in H.
    apply elem_of_cons in H as [H|H]; [|apply list_elem_of_singleton in H];
      inversion H; subst; discriminate.
  - intros n e H. cbn in H.
    apply elem_of_cons in H as [H|H]; [|apply list_elem_of_singleton in H];
      inversion H; subst; eexists; split; vm_compute; reflexivity.
  - intros e x H. right. cbn [state_two entries] in H.
    destruct (decide (e = 2)) as [->|Hne].
    + rewrite lookup_insert_eq in H. inversion H; subst.
      apply list_elem_of_here.
    + rewrite lookup_insert_ne in H by congruence.
      apply lookup_singleton_Some in H as [<- <-].
      apply list_elem_of_further, list_elem_of_here.
  - reflexivity.
Qed.

Lemma completable_state_two : completable (RT := rt_nominal) state_two 2 entry_2.
Proof.
  split.
  - vm_compute. reflexivity.
  - eexists. vm_compute. reflexivity.
  - vm_compute. reflexivity.
  - intros H. exfalso. apply H. reflexivity.
  - intros H. exfalso. apply H. reflexivity.
Qed.

Lemma registered_state_two : registered state_two 2 entry_2.
Proof.
  split.
  - exact registry_wf_state_two.
  - reflexivity.
  - apply list_elem_of_here.
Qed.

Lemma drains_until_state_two : drains_until state_two [(2, 2)] 1.
Proof.
  split.
  - intros n e x Hin Hx. apply list_elem_of_singleton in Hin. inversion Hin; subst.
    cbn [state_two entries] in Hx. rewrite lookup_insert_eq in Hx. inversion Hx; subst.
    exists {| value := 0; start_ts := 33; end_ts := 44 |}.
    split; [vm_compute; reflexivity | cbn [value]; lia].
  - exists entry_1_armed, proxy_initial.
    split; [vm_compute; reflexivity|]. split; [vm_compute; reflexivity|].
    cbn [proxy_initial value]. lia.
  - intros n1 e1 x1 n2 e2 x2 H1 H2 Hx1 Hx2 Hne.
    assert (forall n e x, (n, e) ∈ sig_list_ (self state_two) ->
                          entries state_two !! e = Some x ->
                          handle (signal x) = 64 + e) as Hsg.
    { intros n e x Hin Hx. cbn in Hin.
      apply elem_of_cons in Hin as [Hin|Hin]; [|apply list_elem_of_singleton in Hin];
        inversion Hin; subst; vm_compute in Hx; inversion Hx; reflexivity. }
    rewrite (Hsg _ _ _ H1 Hx1), (Hsg _ _ _ H2 Hx2). lia.
Qed.

Lemma Alloc_twice_distinct_witness :
  exists x1 x2,
    entries state_after_two_Allocs !! 1 = Some x1 /\
    entries state_after_two_Allocs !! 2 = Some x2 /\
    record x1 <> record x2 /\ handle (signal x1) <> handle (signal x2) /\
    sig_list_ (self state_after_two_Allocs) = [(it x2, 2); (it x1, 1)].
Proof.
  destruct (Alloc_twice_distinct (RT := rt_nominal)
              state_init state_after_Alloc state_after_two_Allocs
              {| agent_handle := 7 |} {| agent_handle := 8 |}
              {| handle := 64 |} {| handle := 0 |} 1 2
              ltac:(reflexivity) ltac:(vm_compute; reflexivity)
              ltac:(vm_compute; reflexivity))
    as (x1 & x2 & _ & H1 & H2 & _ & Hr & Hs & _ & _ & _ & _ & _ & _ & _ & Hl).
  exists x1, x2. auto.
Defined.

Lemma Alloc_then_Delete_witness :
  exists s2,
    Delete 1 state_after_Alloc = Ok tt s2 /\
    sig_list_ (self s2) = [] /\ entries s2 = ∅ /\
    is_Some (records s2 !! 1).
Proof.
  destruct (Alloc_then_Delete (RT := rt_nominal) state_init state_after_Alloc
              {| agent_handle := 7 |} {| handle := 64 |} 1
              ltac:(reflexivity) ltac:(vm_compute; reflexivity))
    as (s2 & x & Hx & Hd & Hl & He & _ & _ & Hr & _).
  exists s2. split; [exact Hd|]. split; [exact Hl|]. split; [exact He|].
  vm_compute in Hx. inversion Hx; subst x. eexists. exact Hr.
Defined.

Lemma Alloc_failure_releases_nothing_witness :
  exists st what s' x,
    Alloc (RT := rt_no_signal) {| agent_handle := 7 |} {| handle := 64 |} state_init
      = Raised st what s' /\
    entries s' !! next_entry state_init = Some x /\ it x = list_end.
Proof.
  destruct (Alloc_failure_releases_nothing (RT := rt_no_signal) state_init
              {| agent_handle := 7 |} {| handle := 64 |}
              ltac:(left; discriminate))
    as (st & what & s' & x & evs & Hrun & _ & Hx & Hit & _).
  exists st, what, s', x. auto.
Defined.

Lemma Handler_leaves_stamped_record_witness :
  exists s',
    Handler (RT := rt_nominal) 1 0 1 state_fired = Ok false s' /\
    entries s' !! 1 = None /\
    records s' !! 1 =
      Some {| dispatch := 1000; begin := 110; end_ := 220; complete := 1200 |}.
Proof.
  destruct (Handler_leaves_stamped_record (RT := rt_nominal) state_fired 1
              entry_1_armed
              {| dispatch := 1000; begin := 0; end_ := 0; complete := 0 |} 0 0
              completable_state_fired registered_state_fired
              ltac:(discriminate) ltac:(vm_compute; reflexivity))
    as (s' & Hrun & Hgone & Hrec & _).
  exists s'. split; [exact Hrun|]. split; [exact Hgone|]. exact Hrec.
Defined.

Lemma Handler_leaves_other_entries_witness :
  exists s',
    Handler (RT := rt_nominal) 1 0 2 state_two = Ok false s' /\
    entries s' !! 1 = Some entry_1_armed /\
    (1, 1) ∈ sig_list_ (self s').
Proof.
  destruct (Handler_leaves_other_entries (RT := rt_nominal) state_two 2 1
              entry_2 entry_1_armed
              {| dispatch := 1100; begin := 0; end_ := 0; complete := 0 |} 0 0
              completable_state_two registered_state_two
              ltac:(discriminate) ltac:(vm_compute; reflexivity)
              ltac:(vm_compute; reflexivity) ltac:(lia)
              ltac:(vm_compute; discriminate) ltac:(vm_compute; discriminate)
              ltac:(vm_compute; discriminate))
    as (s' & Hrun & He & _ & _ & Hl).
  exists s'. split; [exact Hrun|]. split; [exact He|].
  apply Hl. apply list_elem_of_further, list_elem_of_here.
Defined.

Lemma Handler_query_failure_witness :
  exists s',
    Handler (RT := rt_no_times) 1 0 1 state_fired =
      Raised HSA_STATUS_ERROR "hsa_amd_profiling_get_dispatch_time" s' /\
    entries s' = entries state_fired /\ self s' = self state_fired.
Proof.
  destruct (Handler_query_failure (RT := rt_no_times) state_fired 1 entry_1_armed 0 0
              ltac:(vm_compute; reflexivity) ltac:(discriminate)
              ltac:(reflexivity) ltac:(discriminate))
    as (s' & Hrun & _ & He & Hs & _).
  exists s'. auto.
Defined.

Lemma removed_entry_is_gone_witness :
  entries state_deleted !! 1 = None /\ Delete 1 state_deleted = Undefined.
Proof.
  destruct (removed_entry_is_gone (RT := rt_nominal) state_allocated state_deleted 1
              ltac:(left; vm_compute; reflexivity))
    as (Hgone & Hd & _).
  auto.
Defined.

Lemma Enable_null_does_not_arm_witness :
  exists s1,
    Enable_rocprofiler_handler_t 1 NULL 77 state_allocated = Ok tt s1 /\
    Handler (RT := rt_nominal) 5 0 1 s1 = OutOfFuel.
Proof.
  destruct (Enable_null_does_not_arm (RT := rt_nominal) state_allocated 1 entry_1 77
              ltac:(vm_compute; reflexivity))
    as [_ (s1 & Hen & Hh)].
  exists s1. auto.
Defined.

Lemma Enable_keeps_discriminator_witness :
  exists s1 s2 s3 evs,
    Enable_hsa_amd_signal_handler 1 500 77 state_allocated = Ok tt s1 /\
    Enable_rocprofiler_handler_t 1 501 78 s1 = Ok tt s2 /\
    Handler (RT := rt_nominal) 1 0 1 s2 = Ok false s3 /\
    log s3 = log s2 ++ evs /\
    List.filter is_user_call evs = [E_call_context 501 0 78].
Proof.
  exact (Enable_keeps_discriminator (RT := rt_nominal) state_allocated 1 entry_1
           500 77 501 78 0 0 completable_state_allocated registered_state_allocated
           ltac:(discriminate)).
Defined.

Lemma Tracker_dtor_blocks_at_first_pending_witness :
  exists sb,
    Tracker_dtor 5 state_two = Blocked sb /\
    sig_list_ (self sb) = [(1, 1)] /\
    entries sb !! 2 = None.
Proof.
  destruct (Tracker_dtor_blocks_at_first_pending state_two [(2, 2)] [] 1 1 5
              ltac:(reflexivity) registry_wf_state_two drains_until_state_two
              ltac:(cbn; lia))
    as (sb & Hrun & Hl & _ & _ & Hgone).
  exists sb. split; [exact Hrun|]. split; [exact Hl|].
  apply (Hgone 2). apply list_elem_of_here.
Defined.

Lemma registry_lists_each_entry_once_witness :
  NoDup (map snd (sig_list_ (self state_after_Alloc))) /\
  mutex_ (self state_after_Alloc) = false.
Proof.
  destruct (registry_lists_each_entry_once (RT := rt_nominal) state_after_Alloc
              reachable_state_after_Alloc) as (H1 & _ & _ & _ & H2).
  auto.
Defined.

Lemma list_changes_under_mutex_witness :
  lift (disciplined state_fired) (Handler (RT := rt_nominal) 1 0 1 state_fired) /\
  lift (disciplined state_fired) (Tracker_dtor 1 state_fired).
Proof.
  destruct (list_changes_under_mutex (RT := rt_nominal) state_fired ltac:(reflexivity))
    as (_ & _ & _ & _ & Hh & Hd).
  split; [apply Hh | apply Hd].
Defined.

Lemma Handler_poll_follows_publication_witness :
  (exists s', Handler_step (RT := rt_nominal) 1 CB_wait (st race_waiting)
              = Ok CB_wait s') /\
  (exists s', Handler_step (RT := rt_nominal) 1 CB_wait (st race_published)
              = Ok CB_complete s').
Proof.
  split.
  - exact (Handler_poll_follows_publication (RT := rt_nominal) 1 500 77 true
             state_allocated entry_1 race_waiting
             ltac:(vm_compute; reflexivity) ltac:(reflexivity)
             (exec_runs (RT := rt_nominal) 1 500 77 (firstn 3 race_script) race_start race_waiting
                ltac:(vm_compute; reflexivity))
             ltac:(vm_compute; reflexivity)).
  - exact (Handler_poll_follows_publication (RT := rt_nominal) 1 500 77 true
             state_allocated entry_1 race_published
             ltac:(vm_compute; reflexivity) ltac:(reflexivity)
             (exec_runs (RT := rt_nominal) 1 500 77 (firstn 6 race_script) race_start race_published
                ltac:(vm_compute; reflexivity))
             ltac:(vm_compute; reflexivity)).
Defined.

Lemma Enable_never_uses_freed_entry_witness :
  entries (st race_freed) !! 1 = None /\
  exists pc' s',
    Enable_step 1 500 77 (arm race_freed) (st race_freed) = Ok pc' s'.
Proof.
  split; [vm_compute; reflexivity|].
  exact (Enable_never_uses_freed_entry (RT := rt_nominal) 1 500 77 true
           state_allocated entry_1 race_freed
           ltac:(vm_compute; reflexivity) ltac:(reflexivity)
           (exec_runs (RT := rt_nominal) 1 500 77 (race_script ++ [A_callback; A_callback])
              race_start race_freed ltac:(vm_compute; reflexivity))
           ltac:(vm_compute; discriminate)).
Defined.

Lemma Alloc_Enable_Handler_round_trip_witness :
  exists s3,
    Handler (RT := rt_nominal) 1 0 1 (set_hsa (hsa state_fired) state_armed)
      = Ok false s3 /\
    sig_list_ (self s3) = [] /\ entries s3 = ∅ /\
    List.filter is_user_call (drop (length (log state_armed)) (log s3)) =
      [E_call_simple 500 group_default 77].
Proof.
  destruct (Alloc_Enable_Handler_round_trip (RT := rt_nominal)
              state_init state_after_Alloc state_armed
              {| agent_handle := 7 |} {| handle := 64 |} 1 500 77 false
              (hsa state_fired) 0 0
              (registry_wf_ctor state_init ltac:(reflexivity) ltac:(reflexivity))
              ltac:(vm_compute; reflexivity) ltac:(vm_compute; reflexivity)
              ltac:(discriminate) ltac:(vm_compute; reflexivity)
              ltac:(intros _; split; eexists; vm_compute; reflexivity))
    as (s3 & Hrun & Hl & He & _ & Hc).
  exists s3. auto.
Defined.
